(** * JEPA world model: encoder, predictor, target network and losses

    A shallow embedding of [models.py] (Encoder, Predictor, JEPAModel),
    of the loss functions [je_loss] ([main.py]) and [vicreg_loss] /
    [off_diagonal] ([train.py]) and of the two training loops, followed
    by the properties of the written specification.

    Conventions.
    - Finite tensor entries are real numbers.  The network arithmetic
      (convolution, linear layers, ReLU, the moving average of the
      parameters) only adds, multiplies and takes maxima, so it is stated
      over [R].  The loss functions divide by element counts that can be
      zero; there the entries are [scalar]s, reals extended with [NaN].
    - A parameter tensor is stored the way the framework stores it: a
      shape and a flat row-major list.  Activations are nested lists.
    - A function that can raise returns [option]; [None] is the
      exception.  The training loops, whose claims are about which
      statement raises what, run in a trace-and-exception monad.

    The helpers [build_mlp] and [Prober] of [models.py] and the scripts
    ([train] of [train.py] in full, the [__main__] block of [main.py]
    with the functions it calls) are embedded as well; the last part of
    the file proves further properties that the code itself shows.  The
    sizes given to [build_mlp] and [Prober] are integers, and the input of
    [Prober.forward] is a tensor of any rank that carries its shape. *)

From Stdlib Require Import String.
From Stdlib Require Import Reals Lra Lia List Bool Arith ZArith.
Import ListNotations.
Open Scope R_scope.

Set Implicit Arguments.

(** ** Small list helpers *)

Fixpoint mapM {A B : Type} (f : A -> option B) (l : list A) : option (list B) :=
  match l with
  | [] => Some []
  | x :: l' =>
      match f x with
      | None => None
      | Some y =>
          match mapM f l' with
          | None => None
          | Some ys => Some (y :: ys)
          end
      end
  end.

Definition Rsum (l : list R) : R := fold_right Rplus 0 l.

(** [sum_upto n f] is [f 0 + f 1 + ... + f (n-1)]. *)
Definition sum_upto (n : nat) (f : nat -> R) : R := Rsum (map f (seq 0 n)).

Definition dot (u v : list R) : R :=
  Rsum (map (fun p => fst p * snd p) (combine u v)).

(** [chunks m k l]: the first [k] consecutive blocks of [m] entries of [l]
    (a row-major view of a flat list as [k] rows of [m]). *)
Fixpoint chunks {A : Type} (m k : nat) (l : list A) : list (list A) :=
  match k with
  | O => []
  | S k' => firstn m l :: chunks m k' (skipn m l)
  end.

(** ** models.py *)

Module Models.

(** The three sub-modules of a [JEPAModel] that own parameters. *)
Inductive owner := OnlineEncoder | TargetEncoder | PredictorNet.

(** A leaf of the autograd graph: the [k]-th parameter of a sub-module. *)
Definition leaf : Type := owner * nat.

(** A framework parameter: shape, flat storage, the [requires_grad] flag
    and the accumulated gradient ([None] until a backward pass reaches it). *)
Record Param := mkParam {
  shape : list nat;
  data : list R;
  requires_grad : bool;
  grad : option (list R)
}.

(** A fresh parameter of [n] entries drawn by [draw]. *)
Definition new_param (shp : list nat) (n : nat) (draw : nat -> R) : Param :=
  mkParam shp (map draw (seq 0 n)) true None.

(** A tensor together with the parameters its autograd graph reaches. *)
Record Tracked (A : Type) := mkTracked {
  value : A;
  graph : list leaf
}.

(** A feature vector and an activation of shape [C, H, W]. *)
Abbreviation vec := (list R) (only parsing).
Abbreviation image := (list (list (list R))) (only parsing).

(** *** nn.ReLU *)

Definition relu (x : R) : R := Rmax 0 x.

Definition ReLU_image (x : image) : image := map (map (map relu)) x.
Definition ReLU_vec (x : vec) : vec := map relu x.

(** *** nn.Conv2d(in, out, kernel_size=3, stride=2, padding=1) *)

Definition kernel_size : nat := 3.
Definition stride : nat := 2.
Definition padding : nat := 1.

Record Conv2d := mkConv2d {
  in_channels : nat;
  out_channels : nat;
  conv_weight : Param;   (* [out_channels, in_channels, 3, 3] *)
  conv_bias : Param      (* [out_channels] *)
}.

Definition Conv2d_init (cin cout : nat) (draw_w draw_b : nat -> R) : Conv2d :=
  mkConv2d cin cout
    (new_param [cout; cin; kernel_size; kernel_size]
               (cout * cin * kernel_size * kernel_size) draw_w)
    (new_param [cout] cout draw_b).

(** Output extent of one spatial axis. *)
Definition out_size (n : nat) : nat := (n + 2 * padding - kernel_size) / stride + 1.

(** Entry of a zero-padded channel, in padded coordinates. *)
Definition pixel (ch : list (list R)) (i j : nat) : R :=
  if (i <? padding) || (j <? padding) then 0
  else nth (j - padding) (nth (i - padding) ch []) 0.

Definition weight_at (m : Conv2d) (o c ki kj : nat) : R :=
  nth (((o * in_channels m + c) * kernel_size + ki) * kernel_size + kj)
      (data (conv_weight m)) 0.

Definition conv_at (m : Conv2d) (x : image) (o i j : nat) : R :=
  nth o (data (conv_bias m)) 0 +
  sum_upto (in_channels m) (fun c =>
    sum_upto kernel_size (fun ki =>
      sum_upto kernel_size (fun kj =>
        weight_at m o c ki kj * pixel (nth c x []) (i * stride + ki) (j * stride + kj)))).

(** One image through the layer; [None] is the framework's shape error. *)
Definition Conv2d_forward1 (m : Conv2d) (x : image) : option image :=
  let H := length (hd [] x) in
  let W := length (hd [] (hd [] x)) in
  if negb (length x =? in_channels m) then None
  else if (H + 2 * padding <? kernel_size) || (W + 2 * padding <? kernel_size) then None
  else Some (map (fun o =>
               map (fun i =>
                 map (fun j => conv_at m x o i j) (seq 0 (out_size W)))
                 (seq 0 (out_size H)))
               (seq 0 (out_channels m))).

(** *** nn.Linear *)

Record Linear := mkLinear {
  in_features : nat;
  out_features : nat;
  lin_weight : Param;    (* [out_features, in_features] *)
  lin_bias : Param       (* [out_features] *)
}.

Definition Linear_init (fin fout : nat) (draw_w draw_b : nat -> R) : Linear :=
  mkLinear fin fout
    (new_param [fout; fin] (fout * fin) draw_w)
    (new_param [fout] fout draw_b).

Definition weight_row (m : Linear) (o : nat) : list R :=
  firstn (in_features m) (skipn (o * in_features m) (data (lin_weight m))).

Definition Linear_forward1 (m : Linear) (x : vec) : option vec :=
  if negb (length x =? in_features m) then None
  else Some (map (fun o => dot (weight_row m o) x + nth o (data (lin_bias m)) 0)
                 (seq 0 (out_features m))).

(** *** nn.Flatten *)

Definition Flatten (x : image) : vec := concat (concat x).

(** *** class Encoder *)

Record Encoder := mkEncoder {
  conv_net_0 : Conv2d;
  conv_net_2 : Conv2d;
  conv_net_4 : Conv2d;
  fc_1 : Linear
}.

(** Length of the flattened output of [conv_net] on an input of the given
    spatial size (what the constructor measures with a dry run on zeros). *)
Definition conv_output_size (input_size : nat * nat) : nat :=
  128 * out_size (out_size (out_size (fst input_size)))
      * out_size (out_size (out_size (snd input_size))).

(** [Encoder.__init__]; [draw k i] is the [i]-th initial value of the
    [k]-th parameter. *)
Definition Encoder_init (input_channels : nat) (input_size : nat * nat)
    (repr_dim : nat) (draw : nat -> nat -> R) : Encoder :=
  mkEncoder
    (Conv2d_init input_channels 32 (draw 0%nat) (draw 1%nat))
    (Conv2d_init 32 64 (draw 2%nat) (draw 3%nat))
    (Conv2d_init 64 128 (draw 4%nat) (draw 5%nat))
    (Linear_init (conv_output_size input_size) repr_dim (draw 6%nat) (draw 7%nat)).

Definition bind {A B : Type} (o : option A) (f : A -> option B) : option B :=
  match o with
  | Some a => f a
  | None => None
  end.

Notation "x <- e ;; k" := (bind e (fun x => k))
  (at level 61, e at next level, right associativity).

Definition conv_net1 (e : Encoder) (x : image) : option image :=
  a <- Conv2d_forward1 (conv_net_0 e) x ;;
  b <- Conv2d_forward1 (conv_net_2 e) (ReLU_image a) ;;
  c <- Conv2d_forward1 (conv_net_4 e) (ReLU_image b) ;;
  Some (ReLU_image c).

Definition fc1 (e : Encoder) (x : image) : option vec :=
  y <- Linear_forward1 (fc_1 e) (Flatten x) ;;
  Some (ReLU_vec y).

Definition Encoder_forward1 (e : Encoder) (x : image) : option vec :=
  y <- conv_net1 e x ;;
  fc1 e y.

(** [Encoder.forward] on a batch [N, C, H, W]. *)
Definition Encoder_forward (e : Encoder) (x : list image) : option (list vec) :=
  mapM (Encoder_forward1 e) x.

(** [Encoder.parameters()], in registration order. *)
Definition Encoder_parameters (e : Encoder) : list Param :=
  [ conv_weight (conv_net_0 e); conv_bias (conv_net_0 e);
    conv_weight (conv_net_2 e); conv_bias (conv_net_2 e);
    conv_weight (conv_net_4 e); conv_bias (conv_net_4 e);
    lin_weight (fc_1 e); lin_bias (fc_1 e) ].

(** The encoder whose parameter objects are [ps] (in registration order). *)
Definition Encoder_with_parameters (e : Encoder) (ps : list Param) : Encoder :=
  match ps with
  | [w0; b0; w2; b2; w4; b4; wf; bf] =>
      mkEncoder
        (mkConv2d (in_channels (conv_net_0 e)) (out_channels (conv_net_0 e)) w0 b0)
        (mkConv2d (in_channels (conv_net_2 e)) (out_channels (conv_net_2 e)) w2 b2)
        (mkConv2d (in_channels (conv_net_4 e)) (out_channels (conv_net_4 e)) w4 b4)
        (mkLinear (in_features (fc_1 e)) (out_features (fc_1 e)) wf bf)
  | _ => e
  end.

(** *** class Predictor *)

Record Predictor := mkPredictor {
  mlp_0 : Linear;
  mlp_2 : Linear
}.

Definition Predictor_init (repr_dim action_dim : nat) (draw : nat -> nat -> R)
  : Predictor :=
  mkPredictor
    (Linear_init (repr_dim + action_dim) repr_dim (draw 0%nat) (draw 1%nat))
    (Linear_init repr_dim repr_dim (draw 2%nat) (draw 3%nat)).

Definition mlp1 (p : Predictor) (x : vec) : option vec :=
  h <- Linear_forward1 (mlp_0 p) x ;;
  Linear_forward1 (mlp_2 p) (ReLU_vec h).

(** [torch.cat([repr, action], dim=-1)] on two batches of rows. *)
Definition cat_last (repr action : list vec) : option (list vec) :=
  if negb (length repr =? length action) then None
  else Some (map (fun p => fst p ++ snd p) (combine repr action)).

(** [Predictor.forward] on two batches of rows.  A batch is the list of
    its rows, so the empty batch carries no width: the check of the width
    that the framework makes on a batch without rows is not modelled. *)
Definition Predictor_forward (p : Predictor) (repr action : list vec)
  : option (list vec) :=
  x <- cat_last repr action ;;
  mapM (mlp1 p) x.

Definition Predictor_parameters (p : Predictor) : list Param :=
  [ lin_weight (mlp_0 p); lin_bias (mlp_0 p);
    lin_weight (mlp_2 p); lin_bias (mlp_2 p) ].

(** *** class JEPAModel *)

(** The [states] argument: a tensor of shape [B, T, C, H, W]. *)
Record States := mkStates {
  states_shape : nat * nat * nat * nat * nat;
  states_data : list (list image)
}.

(** The [actions] argument: a tensor of shape [B, T-1, action_dim]. *)
Record Actions := mkActions {
  actions_shape : nat * nat * nat;
  actions_data : list (list vec)
}.

Record JEPAModel := mkJEPAModel {
  device : string;
  repr_dim : nat;
  action_dim : nat;
  momentum : R;
  online_encoder : Encoder;
  target_encoder : Encoder;
  predictor : Predictor
}.

(** One pass of the loop body of [_update_target_encoder]:
    [param_t.data = param_t.data * tau + param_o.data * (1 - tau)]. *)
Definition ema_param (tau : R) (param_o param_t : Param) : Param :=
  mkParam (shape param_t)
          (map (fun p => fst p * tau + snd p * (1 - tau))
               (combine (data param_t) (data param_o)))
          (requires_grad param_t)
          (grad param_t).

(** The loop over [zip(online.parameters(), target.parameters())]; the
    result is the list of target parameters after the loop. *)
Fixpoint ema_loop (tau : R) (params_o params_t : list Param) : list Param :=
  match params_o, params_t with
  | param_o :: os, param_t :: ts => ema_param tau param_o param_t :: ema_loop tau os ts
  | _, _ => params_t
  end.

Definition _update_target_encoder (self : JEPAModel) (tau : R) : JEPAModel :=
  mkJEPAModel (device self) (repr_dim self) (action_dim self) (momentum self)
    (online_encoder self)
    (Encoder_with_parameters (target_encoder self)
       (ema_loop tau (Encoder_parameters (online_encoder self))
                     (Encoder_parameters (target_encoder self))))
    (predictor self).

(** [param.requires_grad = False]. *)
Definition no_grad_param (p : Param) : Param :=
  mkParam (shape p) (data p) false (grad p).

(** [JEPAModel.__init__].  The three [draw] arguments are the random
    initial values of the online encoder, the target encoder and the
    predictor; the encoders are built with the constructor defaults
    [input_channels=2], [input_size=(65, 65)].  The source creates the
    predictor after the synchronization, which does not read it. *)
Definition JEPAModel_init (device : string) (repr_dim action_dim : nat)
    (momentum : R) (draw_online draw_target draw_predictor : nat -> nat -> R)
  : JEPAModel :=
  let self :=
    mkJEPAModel device repr_dim action_dim momentum
      (Encoder_init 2 (65, 65)%nat repr_dim draw_online)
      (Encoder_init 2 (65, 65)%nat repr_dim draw_target)
      (Predictor_init repr_dim action_dim draw_predictor) in
  let self := _update_target_encoder self 1 in
  mkJEPAModel (Models.device self) (Models.repr_dim self) (Models.action_dim self)
    (Models.momentum self)
    (online_encoder self)
    (Encoder_with_parameters (target_encoder self)
       (map no_grad_param (Encoder_parameters (target_encoder self))))
    (Models.predictor self).

(** The leaves a call of a sub-module adds to the graph: its parameters
    that require a gradient. *)
Definition tracked_leaves (o : owner) (ps : list Param) : list leaf :=
  map (fun kp => (o, fst kp))
      (filter (fun kp => requires_grad (snd kp)) (combine (seq 0 (length ps)) ps)).

(** The graph of the result of calling a sub-module on inputs whose
    graph is [inputs]; inside [torch.no_grad()] nothing is recorded. *)
Definition call_graph (grad_enabled : bool) (o : owner) (ps : list Param)
    (inputs : list leaf) : list leaf :=
  if grad_enabled then inputs ++ tracked_leaves o ps else [].

(** [x[:, t]] on a tensor whose second extent is [T]; [None] is IndexError. *)
Definition select_time {A : Type} (T : nat) (d : A) (x : list (list A)) (t : nat)
  : option (list A) :=
  if t <? T then Some (map (fun ex => nth t ex d) x) else None.

(** [x.unsqueeze(1)]: [B, D] becomes [B, 1, D]. *)
Definition unsqueeze1 (x : list vec) : list (list vec) := map (fun v => [v]) x.

(** [torch.cat(predictions, dim=1)] on tensors of batch size [B]. *)
Definition cat_dim1 (B : nat) (ps : list (list (list vec))) : list (list vec) :=
  map (fun b => concat (map (fun p => nth b p []) ps)) (seq 0 B).

(** The body of [for t in range(T - 1)], over the remaining values of [t]. *)
Fixpoint unroll (self : JEPAModel) (grad_enabled : bool) (actions : Actions)
    (ts : list nat) (current_repr : Tracked (list vec))
    (predictions : list (Tracked (list (list vec))))
  : option (list (Tracked (list (list vec)))) :=
  match ts with
  | [] => Some predictions
  | t :: ts' =>
      action <- select_time (snd (fst (actions_shape actions))) []
                            (actions_data actions) t ;;
      pred <- Predictor_forward (predictor self) (value current_repr) action ;;
      let pred_repr :=
        mkTracked pred
          (call_graph grad_enabled PredictorNet
             (Predictor_parameters (predictor self)) (graph current_repr)) in
      unroll self grad_enabled actions ts' pred_repr
        (predictions ++ [mkTracked (unsqueeze1 pred) (graph pred_repr)])
  end.

(** [JEPAModel.forward]; [grad_enabled] is the ambient autograd mode. *)
Definition forward (self : JEPAModel) (grad_enabled : bool)
    (states : States) (actions : Actions) : option (Tracked (list (list vec))) :=
  let '(B, T, C, H, W) := states_shape states in
  s0 <- select_time T [] (states_data states) 0 ;;
  enc <- Encoder_forward (online_encoder self) s0 ;;
  let current_repr :=
    mkTracked enc
      (call_graph grad_enabled OnlineEncoder
         (Encoder_parameters (online_encoder self)) []) in
  predictions <- unroll self grad_enabled actions (seq 0 (T - 1)) current_repr
                   [mkTracked (unsqueeze1 enc) (graph current_repr)] ;;
  Some (mkTracked (cat_dim1 B (map (@value _) predictions))
                  (concat (map (@graph _) predictions))).

(** [JEPAModel.get_target_representations]: flatten batch and time, encode
    with the target encoder inside [torch.no_grad()], view as [B, T, -1].
    The last view cannot infer [-1] when [B * T = 0]. *)
Definition get_target_representations (self : JEPAModel) (states : States)
  : option (Tracked (list (list vec))) :=
  let '(B, T, C, H, W) := states_shape states in
  enc <- Encoder_forward (target_encoder self) (concat (states_data states)) ;;
  if (B * T =? 0)%nat then None
  else Some (mkTracked (chunks T B enc)
                       (call_graph false TargetEncoder
                          (Encoder_parameters (target_encoder self)) [])).

(** [loss.backward()], as the framework documents it: every leaf of the
    graph of the loss accumulates its gradient, every other parameter is
    left alone; [dL l] is the value autograd computes for leaf [l]. *)
Definition in_graph (g : list leaf) (o : owner) (k : nat) : bool :=
  existsb (fun l =>
    match fst l, o with
    | OnlineEncoder, OnlineEncoder | TargetEncoder, TargetEncoder
    | PredictorNet, PredictorNet => (snd l =? k)%nat
    | _, _ => false
    end) g.

Definition accumulate (old : option (list R)) (g : list R) : option (list R) :=
  match old with
  | None => Some g
  | Some g0 => Some (map (fun p => fst p + snd p) (combine g0 g))
  end.

Definition backward_params (g : list leaf) (dL : leaf -> list R) (o : owner)
    (ps : list Param) : list Param :=
  map (fun kp =>
         if in_graph g o (fst kp)
         then mkParam (shape (snd kp)) (data (snd kp)) (requires_grad (snd kp))
                      (accumulate (grad (snd kp)) (dL (o, fst kp)))
         else snd kp)
      (combine (seq 0 (length ps)) ps).

Definition Predictor_with_parameters (p : Predictor) (ps : list Param) : Predictor :=
  match ps with
  | [w0; b0; w2; b2] =>
      mkPredictor
        (mkLinear (in_features (mlp_0 p)) (out_features (mlp_0 p)) w0 b0)
        (mkLinear (in_features (mlp_2 p)) (out_features (mlp_2 p)) w2 b2)
  | _ => p
  end.

Definition backward (g : list leaf) (dL : leaf -> list R) (self : JEPAModel)
  : JEPAModel :=
  mkJEPAModel (device self) (repr_dim self) (action_dim self) (momentum self)
    (Encoder_with_parameters (online_encoder self)
       (backward_params g dL OnlineEncoder (Encoder_parameters (online_encoder self))))
    (Encoder_with_parameters (target_encoder self)
       (backward_params g dL TargetEncoder (Encoder_parameters (target_encoder self))))
    (Predictor_with_parameters (predictor self)
       (backward_params g dL PredictorNet (Predictor_parameters (predictor self)))).

End Models.

(** ** Loss functions: main.py [je_loss], train.py [vicreg_loss] *)

Module Losses.

(** A tensor entry: a finite value or NaN.  Arithmetic is exact on
    finite values (rounding and overflow to infinity are not modelled) and
    propagates NaN.  Dividing by a zero count gives NaN: at every division
    by a count in the two losses the numerator is a sum over as many terms
    as the count (or the deviations of a single sample from itself), so a
    zero count meets a zero numerator, and [0 / 0] is NaN. *)
Inductive scalar := Fin (r : R) | NaN.

Definition lift1 (f : R -> R) (a : scalar) : scalar :=
  match a with
  | Fin x => Fin (f x)
  | NaN => NaN
  end.

Definition lift2 (f : R -> R -> R) (a b : scalar) : scalar :=
  match a, b with
  | Fin x, Fin y => Fin (f x y)
  | _, _ => NaN
  end.

Definition sadd : scalar -> scalar -> scalar := lift2 Rplus.
Definition ssub : scalar -> scalar -> scalar := lift2 Rminus.
Definition smul : scalar -> scalar -> scalar := lift2 Rmult.
Definition sabs : scalar -> scalar := lift1 Rabs.
Definition srelu : scalar -> scalar := lift1 (Rmax 0).
Definition spow2 (a : scalar) : scalar := smul a a.

(** [a / n] for an integer count [n]. *)
Definition sdiv_count (a : scalar) (n : Z) : scalar :=
  match a with
  | Fin x => if (n =? 0)%Z then NaN else Fin (x / IZR n)
  | NaN => NaN
  end.

(** [a / b] for tensor entries; the only divisor in the losses is the
    clamped norm of [normalize1], which is at least [1e-12]. *)
Definition sdiv (a b : scalar) : scalar :=
  match a, b with
  | Fin x, Fin y => if Req_dec_T y 0 then NaN else Fin (x / y)
  | _, _ => NaN
  end.

Definition ssqrt (a : scalar) : scalar :=
  match a with
  | Fin x => if Rlt_dec x 0 then NaN else Fin (sqrt x)
  | NaN => NaN
  end.

(** [.sum()] and [.mean()] of the entries of a tensor. *)
Definition ssum (l : list scalar) : scalar := fold_right sadd (Fin 0) l.

Definition smean (l : list scalar) : scalar :=
  sdiv_count (ssum l) (Z.of_nat (length l)).

(** [.var()] (unbiased: the divisor is [max(0, N - 1)]) and [.std()]. *)
Definition svar (l : list scalar) : scalar :=
  let m := smean l in
  sdiv_count (ssum (map (fun x => spow2 (ssub x m)) l))
             (Z.of_nat (length l - 1)).

Definition sstd (l : list scalar) : scalar := ssqrt (svar l).

(** A tensor of shape [B, T, D]. *)
Record Tensor3 := mkTensor3 {
  shape3 : nat * nat * nat;
  data3 : list (list (list scalar))
}.

(** A tensor of shape [N, D]. *)
Record Tensor2 := mkTensor2 {
  shape2 : nat * nat;
  data2 : list (list scalar)
}.

(** *** je_loss *)

Definition eps_normalize : R := 1 / 1000000000000.

(** [F.normalize(v, dim=-1, p=2)] on one feature vector:
    [v / max(||v||_2, 1e-12)]. *)
Definition normalize1 (v : list scalar) : list scalar :=
  let norm := ssqrt (ssum (map spow2 v)) in
  let denom := lift1 (Rmax eps_normalize) norm in
  map (fun x => sdiv x denom) v.

Definition normalize (x : Tensor3) : Tensor3 :=
  mkTensor3 (shape3 x) (map (map normalize1) (data3 x)).

(** [(a * b).sum(dim=-1)]: a tensor of shape [B, T]. *)
Definition sdot (u v : list scalar) : scalar :=
  ssum (map (fun p => smul (fst p) (snd p)) (combine u v)).

Definition mul_sum_last (a b : Tensor3) : list (list scalar) :=
  map (fun p => map (fun q => sdot (fst q) (snd q)) (combine (fst p) (snd p)))
      (combine (data3 a) (data3 b)).

(** [x.std(dim=1)]: a tensor of shape [B, D]. *)
Definition std_dim1 (x : Tensor3) : list (list scalar) :=
  map (fun ex =>
         map (fun d => sstd (map (fun v => nth d v NaN) ex))
             (seq 0 (snd (shape3 x))))
      (data3 x).

Definition je_loss (predictions targets : Tensor3) : scalar :=
  let predictions := normalize predictions in
  let targets := normalize targets in
  let pos_cos_sim := mul_sum_last predictions targets in
  let loss :=
    smul (Fin 2) (smean (map (fun c => ssub (Fin 1) c) (concat pos_cos_sim))) in
  let pred_std := smean (concat (std_dim1 predictions)) in
  let target_std := smean (concat (std_dim1 targets)) in
  let std_reg :=
    smul (Fin (1 / 10))
         (sadd (sabs (ssub (Fin 1) pred_std)) (sabs (ssub (Fin 1) target_std))) in
  sadd loss std_reg.

(** *** vicreg_loss and off_diagonal *)

Definition column (d : nat) (x : Tensor2) : list scalar :=
  map (fun row => nth d row NaN) (data2 x).

(** [F.mse_loss(x, y)]. *)
Definition mse_loss (x y : Tensor2) : scalar :=
  smean (concat (map (fun p =>
                        map (fun q => spow2 (ssub (fst q) (snd q)))
                            (combine (fst p) (snd p)))
                     (combine (data2 x) (data2 y)))).

(** [x.var(dim=0)]: one entry per feature. *)
Definition var_dim0 (x : Tensor2) : list scalar :=
  map (fun d => svar (column d x)) (seq 0 (snd (shape2 x))).

(** [torch.sqrt(x.var(dim=0) + 0.0001)]. *)
Definition std_eps (x : Tensor2) : list scalar :=
  map (fun v => ssqrt (sadd v (Fin (1 / 10000)))) (var_dim0 x).

(** [x - x.mean(dim=0)]. *)
Definition center (x : Tensor2) : Tensor2 :=
  mkTensor2 (shape2 x)
    (map (fun row =>
            map (fun dv => ssub (snd dv) (smean (column (fst dv) x)))
                (combine (seq 0 (length row)) row))
         (data2 x)).

(** [(x.T @ x) / (x.shape[0] - 1)]: a tensor of shape [D, D]. *)
Definition cov (x : Tensor2) : Tensor2 :=
  let D := snd (shape2 x) in
  mkTensor2 (D, D)
    (map (fun k =>
            map (fun l => sdiv_count (sdot (column k x) (column l x))
                                     (Z.of_nat (fst (shape2 x)) - 1))
                (seq 0 D))
         (seq 0 D)).

(** [x.flatten()[:-1].view(n-1, n+1)[:, 1:].flatten()].  With [n = 0]
    the view is [view(-1, 1)]: the framework infers as many rows of one
    entry as there are entries, and [[:, 1:]] keeps none of them.
    Otherwise the view needs [(n-1)*(n+1)] entries. *)
Definition off_diagonal (x : Tensor2) : option (list scalar) :=
  let n := fst (shape2 x) in
  let flat := removelast (concat (data2 x)) in
  if (n =? 0)%nat
  then Some (concat (map (@tl scalar) (chunks 1 (length flat) flat)))
  else if negb (length flat =? (n - 1) * (n + 1))%nat then None
  else Some (concat (map (@tl scalar) (chunks (n + 1) (n - 1) flat))).

Definition vicreg_loss (x y : Tensor2) : option scalar :=
  let sim_loss := mse_loss x y in
  let std_x := std_eps x in
  let std_y := std_eps y in
  let var_loss :=
    sadd (smean (map (fun s => srelu (ssub (Fin 1) s)) std_x))
         (smean (map (fun s => srelu (ssub (Fin 1) s)) std_y)) in
  let x := center x in
  let y := center y in
  let cov_x := cov x in
  let cov_y := cov y in
  match off_diagonal cov_x, off_diagonal cov_y with
  | Some ox, Some oy =>
      let cov_loss := sadd (ssum (map spow2 ox)) (ssum (map spow2 oy)) in
      Some (sadd (sadd sim_loss (smul (Fin 25) var_loss)) (smul (Fin 25) cov_loss))
  | _, _ => None
  end.

End Losses.

(** ** Training loops: main.py [train_model], train.py [train]

    The loops are modelled at the level of their statements.  A call
    into the framework or into a collaborator is an event of the trace;
    a name or attribute the statement reads is looked up first, and the
    lookup raises when the name is not bound. *)

Module Training.

Local Open Scope string_scope.

Inductive exn :=
| NameError (name : string)
| AttributeError (class attr : string).

(** The observable steps of a loop. *)
Inductive step :=
| CreateDataloader
| ConstructModel
| MoveToDevice
| InitWeights
| CreateOptimizer
| CreateScheduler
| TrainMode
| FetchBatch (batch_idx : nat)
| ZeroGrad
| ForwardOnline
| ForwardTarget
| ComputeLoss
| Backward
| ClipGradNorm (group : string) (max_norm : R)
| OptimizerStep
| SyncTarget
| SaveCheckpoint.

Inductive result (A : Type) :=
| Return (a : A)
| Raise (e : exn).
Arguments Return {A} a.
Arguments Raise {A} e.

(** A statement: it extends the trace and returns or raises. *)
Definition M (A : Type) : Type := list step -> list step * result A.

Definition ret {A : Type} (a : A) : M A := fun tr => (tr, Return a).
Definition raise {A : Type} (e : exn) : M A := fun tr => (tr, Raise e).
Definition emit (s : step) : M unit := fun tr => ((tr ++ [s])%list, Return tt).

Definition seqM {A B : Type} (m : M A) (k : A -> M B) : M B :=
  fun tr =>
    match m tr with
    | (tr', Return a) => k a tr'
    | (tr', Raise e) => (tr', Raise e)
    end.

Notation "m >> k" := (seqM m (fun _ => k)) (at level 62, right associativity).

(** [for x in xs: body x]. *)
Fixpoint for_each {A : Type} (xs : list A) (body : A -> M unit) : M unit :=
  match xs with
  | [] => ret tt
  | x :: xs' => body x >> for_each xs' body
  end.

(** The attributes of a [JEPAModel] instance: what [__init__] assigns,
    the methods of the class, and the methods of [nn.Module] that the
    loops call. *)
Definition JEPAModel_attributes : list string :=
  [ "device"; "repr_dim"; "action_dim"; "momentum";
    "online_encoder"; "target_encoder"; "predictor";
    "_update_target_encoder"; "forward"; "get_target_representations";
    "__call__"; "to"; "apply"; "train"; "parameters"; "state_dict";
    "load_state_dict" ].

Definition getattr_model (attr : string) : M unit :=
  if existsb (String.eqb attr) JEPAModel_attributes then ret tt
  else raise (AttributeError "JEPAModel" attr).

(** The names bound in the module [main.py]: its imports, its functions,
    and [device], assigned before [train_model] is called. *)
Definition main_globals : list string :=
  [ "create_wall_dataloader"; "ProbingEvaluator"; "torch"; "JEPAModel";
    "glob"; "tqdm"; "F"; "get_device"; "load_data"; "load_model";
    "evaluate_model"; "je_loss"; "train_model"; "device" ].

Definition main_global (name : string) : M unit :=
  if existsb (String.eqb name) main_globals then ret tt
  else raise (NameError name).

(** *** main.py *)

(** [init_weights(m)], the function [model.apply] calls on every module:
    its first expression is [isinstance(m, nn.Linear)]. *)
Definition init_weights : M unit :=
  main_global "nn" >> emit InitWeights.

(** The body of [for batch_idx, batch in enumerate(...)] in
    [train_model]. *)
Definition train_model_body (batch_idx : nat) : M unit :=
  emit (FetchBatch batch_idx) >>
  emit ZeroGrad >>
  getattr_model "__call__" >> emit ForwardOnline >>
  getattr_model "target_encoder" >> emit ForwardTarget >>
  main_global "je_loss" >> emit ComputeLoss >>
  emit Backward >>
  getattr_model "encoder" >> emit (ClipGradNorm "encoder" 1) >>
  getattr_model "predictor" >> emit (ClipGradNorm "predictor" 1) >>
  emit OptimizerStep >>
  getattr_model "update_target_encoder" >> emit SyncTarget.

(** [train_model(device)] on a loader of [n_batches] batches. *)
Definition train_model (n_batches : nat) : M unit :=
  main_global "create_wall_dataloader" >> emit CreateDataloader >>
  main_global "JEPAModel" >> emit ConstructModel >>
  getattr_model "to" >> emit MoveToDevice >>
  getattr_model "apply" >> init_weights >>
  getattr_model "encoder" >> getattr_model "predictor" >> emit CreateOptimizer >>
  for_each (seq 0 10) (fun epoch =>
    getattr_model "train" >> emit TrainMode >>
    for_each (seq 0 n_batches) train_model_body) >>
  getattr_model "state_dict" >> emit SaveCheckpoint.

(** *** train.py *)

(** The body of [for batch in pbar_batch] in [train]. *)
Definition train_body (batch_idx : nat) : M unit :=
  emit (FetchBatch batch_idx) >>
  getattr_model "encoder" >> emit ForwardOnline >>
  getattr_model "target_encoder" >> emit ForwardTarget >>
  getattr_model "predictor" >> emit ForwardOnline >>
  emit ComputeLoss >>
  emit ZeroGrad >>
  emit Backward >>
  getattr_model "parameters" >> emit (ClipGradNorm "model" 1) >>
  emit OptimizerStep >>
  getattr_model "update_target" >> emit SyncTarget.

(** [train(epochs)] up to the end of the epoch loop. *)
Definition train (epochs n_batches : nat) : M unit :=
  emit ConstructModel >> getattr_model "to" >> emit MoveToDevice >>
  getattr_model "parameters" >> emit CreateOptimizer >>
  emit CreateScheduler >>
  emit CreateDataloader >>
  getattr_model "train" >> emit TrainMode >>
  for_each (seq 0 epochs) (fun epoch =>
    for_each (seq 0 n_batches) train_body).

End Training.

(** ** models.py: [build_mlp] and [Prober] *)

Module Probes.

Import Models.
Import Ascii.

(** *** build_mlp *)

(** The layers [build_mlp] puts into its [nn.Sequential], with their
    sizes; their parameters are not modelled. *)
Inductive mlp_layer :=
| Linear_layer (in_features out_features : nat)
| BatchNorm1d_layer (num_features : nat)
| ReLU_layer.

(** [nn.Linear(fin, fout)] and [nn.BatchNorm1d(k)] allocate tensors of
    these sizes: a negative size is a RuntimeError. *)
Definition Linear_layer_of (fin fout : Z) : option mlp_layer :=
  if (fin <? 0)%Z || (fout <? 0)%Z then None
  else Some (Linear_layer (Z.to_nat fin) (Z.to_nat fout)).

Definition BatchNorm1d_layer_of (k : Z) : option mlp_layer :=
  if (k <? 0)%Z then None else Some (BatchNorm1d_layer (Z.to_nat k)).

(** [build_mlp(layers_dims)] on a list of integers.  The loop runs over
    [range(len(layers_dims) - 2)], which is empty on fewer than two sizes;
    [layers_dims[-2]] is then an IndexError. *)
Definition build_mlp (layers_dims : list Z) : option (list mlp_layer) :=
  let n := length layers_dims in
  let dim := fun i => nth i layers_dims 0%Z in
  layers <- mapM (fun i =>
                    l <- Linear_layer_of (dim i) (dim (i + 1)%nat) ;;
                    b <- BatchNorm1d_layer_of (dim (i + 1)%nat) ;;
                    Some [l; b; ReLU_layer])
                 (seq 0 (n - 2)) ;;
  if (n <? 2)%nat then None
  else
    l <- Linear_layer_of (dim (n - 2)%nat) (dim (n - 1)%nat) ;;
    Some (concat layers ++ [l]).

(** *** class Prober *)

Inductive prober_layer :=
| Prober_Linear (m : Linear)
| Prober_ReLU.

Record Prober := mkProber {
  output_dim : Z;
  output_shape : list Z;
  arch : string;
  prober : list prober_layer
}.

(** [s.split(sep)] for a separator of one character. *)
Fixpoint split (sep : Ascii.ascii) (s : string) : list string :=
  match s with
  | EmptyString => [EmptyString]
  | String c s' =>
      if Ascii.eqb c sep then EmptyString :: split sep s'
      else match split sep s' with
           | piece :: pieces => String c piece :: pieces
           | [] => [String c EmptyString]
           end
  end.

(** [nn.Linear(fin, fout)]: a negative size is a RuntimeError. *)
Definition Linear_of (fin fout : Z) (draw_w draw_b : nat -> R) : option Linear :=
  if (fin <? 0)%Z || (fout <? 0)%Z then None
  else Some (Linear_init (Z.to_nat fin) (Z.to_nat fout) draw_w draw_b).

(** The body of [__init__] after the list [f] of sizes is known: the loop
    over [range(len(f) - 2)] and the final [nn.Linear(f[-2], f[-1])];
    [draw k i] is the [i]-th initial value of the [k]-th parameter. *)
Definition Prober_layers (f : list Z) (draw : nat -> nat -> R)
  : option (list prober_layer) :=
  let n := length f in
  let dim := fun i => nth i f 0%Z in
  hidden <- mapM (fun i =>
                    m <- Linear_of (dim i) (dim (i + 1)%nat)
                                   (draw (2 * i)%nat) (draw (2 * i + 1)%nat) ;;
                    Some [Prober_Linear m; Prober_ReLU])
                 (seq 0 (n - 2)) ;;
  last <- Linear_of (dim (n - 2)%nat) (dim (n - 1)%nat)
                    (draw (2 * (n - 2))%nat) (draw (2 * (n - 2) + 1)%nat) ;;
  Some (concat hidden ++ [Prober_Linear last]).

Section Prober.

(** The two functions of the surrounding libraries that [__init__] calls:
    [int] on a string ([None] when it raises ValueError) and [np.prod] on
    a list of integers ([None] when the result is not an integer, as for
    the empty list, whose product is the float [1.0]; the error then
    surfaces in the final [nn.Linear], and nothing is observable in
    between). *)
Variable int : string -> option Z.
Variable np_prod : list Z -> option Z.

(** [arch_list = list(map(int, arch.split("-"))) if arch != "" else []]. *)
Definition arch_list_of (arch : string) : option (list Z) :=
  if String.eqb arch "" then Some [] else mapM int (split "-" arch).

(** [Prober.__init__]; [embedding] is any integer. *)
Definition Prober_init (embedding : Z) (arch : string)
    (output_shape : list Z) (draw : nat -> nat -> R) : option Prober :=
  output_dim <- np_prod output_shape ;;
  arch_list <- arch_list_of arch ;;
  let f := (embedding :: arch_list) ++ [output_dim] in
  layers <- Prober_layers f draw ;;
  Some (mkProber output_dim output_shape arch layers).

End Prober.

(** A tensor of any rank: its shape and its entries in row-major order. *)
Record Tensor := mkTensor {
  tshape : list nat;
  tdata : list R
}.

Definition numel (s : list nat) : nat := fold_right Nat.mul 1%nat s.

(** [shape[:-1]] and [shape[-1]]; [None] on the shape of a tensor of
    rank 0. *)
Fixpoint split_last (s : list nat) : option (list nat * nat) :=
  match s with
  | [] => None
  | d :: s' =>
      match split_last s' with
      | None => Some ([], d)
      | Some (lead, k) => Some (d :: lead, k)
      end
  end.

(** [nn.Linear] on a tensor of shape [*, k]: the layer is applied to each
    of the rows of [k] entries.  A tensor of rank 0, or a [k] other than
    [in_features], is a RuntimeError, also when the tensor has no row. *)
Definition Linear_forward (m : Linear) (x : Tensor) : option Tensor :=
  match split_last (tshape x) with
  | None => None
  | Some (lead, k) =>
      if negb (k =? in_features m)%nat then None
      else
        rows <- mapM (Linear_forward1 m) (chunks k (numel lead) (tdata x)) ;;
        Some (mkTensor (lead ++ [out_features m]) (concat rows))
  end.

Definition layer_forward (l : prober_layer) (x : Tensor) : option Tensor :=
  match l with
  | Prober_Linear m => Linear_forward m x
  | Prober_ReLU => Some (mkTensor (tshape x) (ReLU_vec (tdata x)))
  end.

(** [nn.Sequential]. *)
Fixpoint Sequential_forward (layers : list prober_layer) (x : Tensor)
  : option Tensor :=
  match layers with
  | [] => Some x
  | l :: layers' =>
      y <- layer_forward l x ;;
      Sequential_forward layers' y
  end.

(** [Prober.forward]. *)
Definition Prober_forward (self : Prober) (e : Tensor) : option Tensor :=
  Sequential_forward (prober self) e.

End Probes.

(** ** The scripts: train.py [train] in full, and main.py [get_device],
    [load_data], [load_model], [evaluate_model] and the [__main__] block

    The statements of [Training] are reused; what is added are the local
    variables of [train], the errors of the interpreter that the loops of
    [Training] do not meet, and the steps of the evaluation. *)

Module Scripts.

Import Training.

Local Open Scope string_scope.

Inductive error :=
| Raised (e : exn)
| ZeroDivisionError
| UnboundLocalError (name : string)
| FileNotFoundError (path : string)
| RuntimeError.

(** The observable steps of a script: a step of the training loops, a
    line of output (its text up to the first formatted number), and the
    calls into the framework and into the evaluator.  Progress bars are
    not modelled. *)
Inductive event :=
| Loop (s : step)
| Print (message : string)
| SchedulerStep
| SaveWeights (path : string)
| CreateProbeDataloader (data_path : string) (train : bool)
| TorchLoad (path : string)
| LoadStateDict
| ConstructEvaluator
| TrainPredProber
| EvaluateAll
| PrintLosses.

Inductive outcome (A : Type) :=
| Done (a : A)
| Failed (e : error).
Arguments Done {A} a.
Arguments Failed {A} e.

(** A statement of a script: it extends the trace and returns or raises. *)
Definition Script (A : Type) : Type :=
  list event -> list event * outcome A.

Definition ret {A : Type} (a : A) : Script A := fun tr => (tr, Done a).
Definition fail {A : Type} (e : error) : Script A := fun tr => (tr, Failed e).
Definition emit (ev : event) : Script unit := fun tr => ((tr ++ [ev])%list, Done tt).

Definition bind {A B : Type} (m : Script A) (k : A -> Script B) : Script B :=
  fun tr =>
    match m tr with
    | (tr', Done a) => k a tr'
    | (tr', Failed e) => (tr', Failed e)
    end.

Notation "x <~ m ;; k" := (bind m (fun x => k))
  (at level 61, m at next level, right associativity).
Notation "m ;; k" := (bind m (fun _ => k))
  (at level 61, right associativity).

(** A statement of the training loops inside a script. *)
Definition lift {A : Type} (m : M A) : Script A :=
  fun tr =>
    match m [] with
    | (steps, Return a) => ((tr ++ map Loop steps)%list, Done a)
    | (steps, Raise e) => ((tr ++ map Loop steps)%list, Failed (Raised e))
    end.

(** [for x in xs: s = body x s], for the local variables [s] the body
    assigns. *)
Fixpoint for_fold {A St : Type} (xs : list A) (body : A -> St -> Script St) (s : St)
  : Script St :=
  match xs with
  | [] => ret s
  | x :: xs' => s' <~ body x s ;; for_fold xs' body s'
  end.

(** [try: m  except FileNotFoundError: handler]. *)
Definition except_FileNotFoundError {A : Type} (m handler : Script A) : Script A :=
  fun tr =>
    match m tr with
    | (tr', Failed (FileNotFoundError _)) => handler tr'
    | r => r
    end.

(** *** train.py *)

(** The local variables of [train] that outlive an epoch: [best_loss]
    ([None] is [float('inf')]) and [avg_epoch_loss] ([None] while the name
    is not bound). *)
Record locals := mkLocals {
  best_loss : option R;
  avg_epoch_loss : option R
}.

(** [x < best_loss]. *)
Definition below (x : R) (best : option R) : bool :=
  match best with
  | None => true
  | Some b => if Rlt_dec x b then true else false
  end.

(** The body of [for epoch in pbar_epoch]; [loss_item epoch b] is
    [loss.item()] of batch [b]. *)
Definition train_epoch (n_batches : nat) (loss_item : nat -> nat -> R)
    (epoch : nat) (l : locals) : Script locals :=
  sums <~ for_fold (seq 0 n_batches)
            (fun b (acc : R * nat) =>
               lift (train_body b) ;;
               ret (fst acc + loss_item epoch b, S (snd acc)))
            (0, 0%nat) ;;
  let epoch_loss := fst sums in
  let num_batches := snd sums in
  avg <~ (if (num_batches =? 0)%nat then fail ZeroDivisionError
          else ret (epoch_loss / INR num_batches)) ;;
  best <~ (if below avg (best_loss l)
           then lift (getattr_model "state_dict") ;;
                emit (SaveWeights "model_weights.pth") ;;
                emit (Print "Saved new best model with loss: ") ;;
                ret (Some avg)
           else ret (best_loss l)) ;;
  emit SchedulerStep ;;
  ret (mkLocals best (Some avg)).

(** [train(epochs)] on a loader of [n_batches] batches. *)
Definition train (epochs n_batches : nat) (loss_item : nat -> nat -> R) : Script unit :=
  lift (Training.emit ConstructModel >> getattr_model "to" >>
        Training.emit MoveToDevice >>
        getattr_model "parameters" >> Training.emit CreateOptimizer >>
        Training.emit CreateScheduler >>
        Training.emit CreateDataloader >>
        getattr_model "train" >> Training.emit TrainMode) ;;
  l <~ for_fold (seq 0 epochs) (train_epoch n_batches loss_item)
                (mkLocals None None) ;;
  final_loss <~ match avg_epoch_loss l with
                | Some v => ret v
                | None => fail (UnboundLocalError "avg_epoch_loss")
                end ;;
  (if below final_loss (best_loss l)
   then lift (getattr_model "state_dict") ;;
        emit (SaveWeights "model_weights.pth") ;;
        emit (Print "Saved final model with loss: ")
   else ret tt) ;;
  emit (Print "Training completed!").

(** *** main.py *)

(** [get_device()]. *)
Definition get_device (cuda_is_available : bool) : Script string :=
  let device := if cuda_is_available then "cuda" else "cpu" in
  emit (Print ("Using device: " ++ device)) ;;
  ret device.

(** [load_data(device)]. *)
Definition load_data : Script unit :=
  lift (main_global "create_wall_dataloader") ;;
  emit (CreateProbeDataloader "/scratch/DL24FA/probe_normal/train" true) ;;
  emit (CreateProbeDataloader "/scratch/DL24FA/probe_normal/val" false) ;;
  emit (CreateProbeDataloader "/scratch/DL24FA/probe_wall/val" false).

(** The file [jepa_model.pth] when [load_model] runs. *)
Inductive checkpoint := Missing | Matching | Mismatching.

(** [load_model()]. *)
Definition load_model (file : checkpoint) : Script unit :=
  lift (main_global "JEPAModel" >> main_global "device" >>
        Training.emit ConstructModel >>
        getattr_model "to" >> Training.emit MoveToDevice >>
        getattr_model "load_state_dict") ;;
  except_FileNotFoundError
    (match file with
     | Missing => fail (FileNotFoundError "jepa_model.pth")
     | Matching =>
         emit (TorchLoad "jepa_model.pth") ;; emit LoadStateDict ;;
         emit (Print "Loaded saved JEPA model.")
     | Mismatching =>
         emit (TorchLoad "jepa_model.pth") ;; fail RuntimeError
     end)
    (emit (Print "No saved model found, initializing a new model.")).

(** [evaluate_model(device, model, probe_train_ds, probe_val_ds)]; the
    evaluator is not part of these sources, its two calls are events. *)
Definition evaluate_model : Script unit :=
  lift (main_global "ProbingEvaluator") ;;
  emit ConstructEvaluator ;;
  emit TrainPredProber ;;
  emit EvaluateAll ;;
  emit PrintLosses.

(** The block under [if __name__ == "__main__"]. *)
Definition main (cuda_is_available : bool) (n_batches : nat) (file : checkpoint)
  : Script unit :=
  device <~ get_device cuda_is_available ;;
  lift (train_model n_batches) ;;
  load_data ;;
  load_model file ;;
  evaluate_model.

End Scripts.

(** * Vocabulary of the properties *)

Import Models.

(** ** Shapes *)

(** An activation of shape [C, H, W]. *)
Definition image_has_shape (C H W : nat) (x : image) : bool :=
  (length x =? C)%nat &&
  forallb (fun ch => (length ch =? H)%nat &&
                     forallb (fun row => (length row =? W)%nat) ch) x.

(** The data of [states] agrees with its shape [B, T, C, H, W]. *)
Definition states_valid (s : States) : bool :=
  let '(B, T, C, H, W) := states_shape s in
  (length (states_data s) =? B)%nat &&
  forallb (fun ex => (length ex =? T)%nat && forallb (image_has_shape C H W) ex)
          (states_data s).

(** The data of [actions] agrees with its shape [B, T-1, action_dim]. *)
Definition actions_valid (a : Actions) : bool :=
  let '(B, Ta, A) := actions_shape a in
  (length (actions_data a) =? B)%nat &&
  forallb (fun ex => (length ex =? Ta)%nat &&
                     forallb (fun v => (length v =? A)%nat) ex)
          (actions_data a).

(** The layer sizes fit together the way [__init__] builds them. *)
Definition dims_ok (self : JEPAModel) : bool :=
  let e := online_encoder self in
  let p := predictor self in
  (1 <=? in_channels (conv_net_0 e))%nat &&
  (1 <=? out_channels (conv_net_0 e))%nat &&
  (out_channels (conv_net_0 e) =? in_channels (conv_net_2 e))%nat &&
  (1 <=? out_channels (conv_net_2 e))%nat &&
  (out_channels (conv_net_2 e) =? in_channels (conv_net_4 e))%nat &&
  (out_features (fc_1 e) =? repr_dim self)%nat &&
  (in_features (mlp_0 p) =? repr_dim self + action_dim self)%nat &&
  (out_features (mlp_0 p) =? in_features (mlp_2 p))%nat &&
  (out_features (mlp_2 p) =? repr_dim self)%nat.

(** A trajectory batch the model accepts: [T >= 1], the actions have
    shape [B, T-1, action_dim], and the frames have the channel count and
    the spatial size the online encoder was built for. *)
Definition batch_valid (self : JEPAModel) (states : States) (actions : Actions)
  : bool :=
  let '(B, T, C, H, W) := states_shape states in
  let '(B', Ta, A) := actions_shape actions in
  let e := online_encoder self in
  states_valid states && actions_valid actions &&
  (1 <=? T)%nat && (B' =? B)%nat && (Ta =? T - 1)%nat &&
  (A =? action_dim self)%nat &&
  (C =? in_channels (conv_net_0 e))%nat &&
  (1 <=? H)%nat && (1 <=? W)%nat &&
  (out_channels (conv_net_4 e) * out_size (out_size (out_size H))
                               * out_size (out_size (out_size W))
   =? in_features (fc_1 e))%nat.

(** A nested list of shape [B, T, D]. *)
Definition has_shape3 (B T D : nat) (x : list (list vec)) : Prop :=
  length x = B /\
  Forall (fun ex => length ex = T /\ Forall (fun v => length v = D) ex) x.

(** [x[:, t]] on a nested list. *)
Definition frame {X : Type} (t : nat) (x : list (list (list X))) : list (list X) :=
  map (fun ex => nth t ex []) x.

(** ** The rollout *)

(** The tracked tensors the loop of [forward] appends for the latents
    [lats], starting from a current latent whose graph is [g]. *)
Fixpoint tracked_preds (grad_enabled : bool) (p : Predictor) (g : list leaf)
    (lats : list (list vec)) : list (Tracked (list (list vec))) :=
  match lats with
  | [] => []
  | l :: lats' =>
      let g' := call_graph grad_enabled PredictorNet (Predictor_parameters p) g in
      mkTracked (unsqueeze1 l) g' :: tracked_preds grad_enabled p g' lats'
  end.

(** ** A concrete batch

    The model built with the defaults of [__init__] (all initial values of
    the online encoder and of the predictor [0], those of the target
    encoder [0.001]) and a batch of one trajectory of two zero frames. *)

Definition example_model : JEPAModel :=
  JEPAModel_init "cuda" 256 2 (99 / 100)
    (fun _ _ => 0) (fun _ _ => 1 / 1000) (fun _ _ => 0).

Definition example_frame : list (list (list R)) :=
  repeat (repeat (repeat 0 65) 65) 2.

Definition example_states : States :=
  mkStates (1, 2, 2, 65, 65)%nat [[example_frame; example_frame]].

Definition example_actions : Actions :=
  mkActions (1, 1, 2)%nat [[[0; 0]]].

(** The same construction with all weights [0] and the bias of the last
    layer of the predictor [-1]. *)
Definition negative_bias_model : JEPAModel :=
  JEPAModel_init "cuda" 256 2 (99 / 100)
    (fun _ _ => 0) (fun _ _ => 0) (fun k _ => if (k =? 3)%nat then -1 else 0).

(** ** Operations on a model *)

(** The graph of the contrastive loss of a batch: the loss is computed
    from the rollout, recorded with gradients enabled, and from the target
    representations, computed inside [torch.no_grad()]. *)
Definition contrastive_loss_graph (self : JEPAModel) (states : States)
    (actions : Actions) : option (list leaf) :=
  predictions <- forward self true states actions ;;
  targets <- get_target_representations self states ;;
  Some (graph predictions ++ graph targets).

(** What can be done with a constructed model: its three methods, and a
    backward pass on the loss of a batch. *)
Inductive operation :=
| Call_update_target_encoder (tau : R)
| Call_forward (grad_enabled : bool) (states : States) (actions : Actions)
| Call_get_target_representations (states : States)
| Loss_backward (states : States) (actions : Actions) (dL : leaf -> list R).

Definition apply_operation (self : JEPAModel) (op : operation) : JEPAModel :=
  match op with
  | Call_update_target_encoder tau => _update_target_encoder self tau
  | Call_forward _ _ _ => self
  | Call_get_target_representations _ => self
  | Loss_backward states actions dL =>
      match contrastive_loss_graph self states actions with
      | Some g => backward g dL self
      | None => self
      end
  end.

Definition run (ops : list operation) (self : JEPAModel) : JEPAModel :=
  fold_left apply_operation ops self.

(** The layer sizes of an encoder. *)
Definition encoder_dims (e : Encoder) : list nat :=
  [ in_channels (conv_net_0 e); out_channels (conv_net_0 e);
    in_channels (conv_net_2 e); out_channels (conv_net_2 e);
    in_channels (conv_net_4 e); out_channels (conv_net_4 e);
    in_features (fc_1 e); out_features (fc_1 e) ].

Definition predictor_dims (p : Predictor) : list nat :=
  [ in_features (mlp_0 p); out_features (mlp_0 p);
    in_features (mlp_2 p); out_features (mlp_2 p) ].

(** What construction establishes and every operation keeps. *)
Definition model_invariant (self : JEPAModel) : Prop :=
  dims_ok self = true /\
  encoder_dims (target_encoder self) = encoder_dims (online_encoder self) /\
  Forall (fun p => requires_grad p = false) (Encoder_parameters (target_encoder self)) /\
  Forall (fun p => grad p = None) (Encoder_parameters (target_encoder self)) /\
  Forall (fun p => requires_grad p = true) (Encoder_parameters (online_encoder self)) /\
  Forall (fun p => requires_grad p = true) (Predictor_parameters (predictor self)).

(** ** The losses as the specification words them

    The formulas of the specification over the real entries of finite
    tensors, given as nested lists.  None of them uses a function of
    [Losses]. *)

Import Losses.

(** The Euclidean norm of a finite vector. *)
Definition norm2 (u : list R) : R := sqrt (Rsum (map (fun x => x * x) u)).

(** The arithmetic mean, the sample variance (with the divisor [n - 1])
    and the sample standard deviation of a list of reals. *)
Definition mean (l : list R) : R := Rsum l / INR (length l).

Definition variance (l : list R) : R :=
  Rsum (map (fun x => (x - mean l) * (x - mean l)) l) / INR (length l - 1).

Definition std (l : list R) : R := sqrt (variance l).

(** L2 normalization of a feature vector: [u / |u|]. *)
Definition l2_normalize (u : list R) : list R :=
  map (fun x => x / norm2 u) u.

(** The cosine similarity [u.v / (|u| |v|)] of two feature vectors. *)
Definition cosine_similarity (u v : list R) : R :=
  dot u v / (norm2 u * norm2 v).

(** Every vector of a tensor of shape [B, T, D] has norm at least [e]. *)
Definition norms_at_least (e : R) (x : list (list (list R))) : Prop :=
  Forall (Forall (fun v => e <= norm2 v)) x.

(** The cosine similarities of the pairs of vectors at the same example
    and time step, over all examples and time steps. *)
Definition cosine_similarities (ps ts : list (list (list R))) : list R :=
  concat (map (fun ex => map (fun uv => cosine_similarity (fst uv) (snd uv))
                             (combine (fst ex) (snd ex)))
              (combine ps ts)).

(** The standard deviations across the time axis of the [D] features of
    the normalized vectors, over all examples. *)
Definition stds_across_time (D : nat) (x : list (list (list R))) : list R :=
  concat (map (fun ex => map (fun d => std (map (fun v => nth d (l2_normalize v) 0) ex))
                             (seq 0 D))
              x).

(** The normalized contrastive loss of two tensors of shape [B, T, D]:
    the mean of [2 * (1 - cosine similarity)] over all time steps, plus
    [0.1 * (|1 - mean std of the predicted vectors across time| +
            |1 - mean std of the target vectors across time|)]. *)
Definition je_loss_spec (D : nat) (predictions targets : list (list (list R))) : R :=
  mean (map (fun c => 2 * (1 - c)) (cosine_similarities predictions targets))
  + 1 / 10 * (Rabs (1 - mean (stds_across_time D predictions))
              + Rabs (1 - mean (stds_across_time D targets))).

(** Entry [(i, j)] of a matrix. *)
Definition entry (c : Tensor2) (i j : nat) : scalar :=
  nth j (nth i (data2 c) []) NaN.

(** The off-diagonal entries of an [n x n] matrix, row by row: the
    entries [(i, j)] with [j <> i]. *)
Definition off_diagonal_entries (c : Tensor2) : list scalar :=
  let n := fst (shape2 c) in
  concat (map (fun i => map (entry c i)
                            (filter (fun j => negb (j =? i)%nat) (seq 0 n)))
              (seq 0 n)).

(** A square matrix whose data agrees with its shape. *)
Definition square (c : Tensor2) : Prop :=
  snd (shape2 c) = fst (shape2 c) /\
  length (data2 c) = fst (shape2 c) /\
  Forall (fun row => length row = fst (shape2 c)) (data2 c).

(** Row [k] of a matrix without its diagonal entry, for the rows [rows]
    that start at row index [i]. *)
Definition rows_without_diagonal (i : nat) (rows : list (list scalar))
  : list scalar :=
  concat (map (fun kr => firstn (fst kr) (snd kr) ++ skipn (S (fst kr)) (snd kr))
              (combine (seq i (length rows)) rows)).

(** Feature [d] of a batch of shape [N, D], over the rows of the batch. *)
Definition feature (d : nat) (xs : list (list R)) : list R :=
  map (fun row => nth d row 0) xs.

(** The invariance term: the mean squared error between the predicted
    and the target vectors. *)
Definition invariance (xs ys : list (list R)) : R :=
  mean (concat (map (fun rows =>
                       map (fun ab => (fst ab - snd ab) * (fst ab - snd ab))
                           (combine (fst rows) (snd rows)))
                    (combine xs ys))).

(** The hinge penalty [relu(1 - s)]. *)
Definition hinge (s : R) : R := Rmax 0 (1 - s).

(** The variance term of one side as the specification words it: the
    mean over the features of the hinge penalty of the per-batch standard
    deviation of the feature. *)
Definition variance_term_plain (D : nat) (xs : list (list R)) : R :=
  mean (map (fun d => hinge (std (feature d xs))) (seq 0 D)).

(** The variance term with the standard deviation taken as
    [sqrt(var + 0.0001)]. *)
Definition variance_term (D : nat) (xs : list (list R)) : R :=
  mean (map (fun d => hinge (sqrt (variance (feature d xs) + 1 / 10000)))
            (seq 0 D)).

(** Entry [(i, j)] of the covariance matrix of the mean-centered batch,
    divided by [batch_size - 1]. *)
Definition covariance (xs : list (list R)) (i j : nat) : R :=
  Rsum (map (fun row => (nth i row 0 - mean (feature i xs))
                        * (nth j row 0 - mean (feature j xs))) xs)
  / (INR (length xs) - 1).

(** The covariance term of one side: the sum of the squared off-diagonal
    entries of the covariance matrix. *)
Definition covariance_term (D : nat) (xs : list (list R)) : R :=
  Rsum (map (fun i =>
               Rsum (map (fun j => covariance xs i j * covariance xs i j)
                         (filter (fun j => negb (j =? i)%nat) (seq 0 D))))
            (seq 0 D)).

(** The VICReg loss of two batches of shape [N, D]:
    [invariance + 25 * variance + 25 * covariance], the variance and the
    covariance summed over both sides. *)
Definition vicreg_loss_spec (D : nat) (xs ys : list (list R)) : R :=
  invariance xs ys
  + 25 * (variance_term D xs + variance_term D ys)
  + 25 * (covariance_term D xs + covariance_term D ys).

(** The same with the plain standard deviation in the variance term. *)
Definition vicreg_loss_plain (D : nat) (xs ys : list (list R)) : R :=
  invariance xs ys
  + 25 * (variance_term_plain D xs + variance_term_plain D ys)
  + 25 * (covariance_term D xs + covariance_term D ys).

(** Example tensors: a batch of two identical one-feature rows, a batch
    of a single row, and a sequence of a single time step. *)
(** A vector shorter than the least norm [F.normalize] divides by, at two
    time steps of one example. *)
Definition tiny : R := 1 / 10000000000000.
Definition tiny_vectors : list (list (list R)) := [[[tiny]; [tiny]]].

Definition two_zero_rows : Tensor2 := mkTensor2 (2, 1)%nat [[Fin 0]; [Fin 0]].
Definition single_row : Tensor2 := mkTensor2 (1, 1)%nat [[Fin 0]].
Definition single_step : Tensor3 := mkTensor3 (1, 1, 1)%nat [[[Fin 1]]].

(** ** Repeated synchronization *)

(** [n] calls of [_update_target_encoder(tau)] in a row, the online
    encoder being left alone in between. *)
Definition sync_times (n : nat) (tau : R) (self : JEPAModel) : JEPAModel :=
  Nat.iter n (fun m => _update_target_encoder m tau) self.

(** Corresponding parameters of the two encoders have the same number of
    entries. *)
Definition same_sizes (self : JEPAModel) : Prop :=
  map (fun p => length (data p)) (Encoder_parameters (target_encoder self))
  = map (fun p => length (data p)) (Encoder_parameters (online_encoder self)).

(** ** Inputs an encoder accepts *)

(** The convolutions of the encoder fit one another. *)
Definition encoder_chain_ok (e : Encoder) : bool :=
  (1 <=? in_channels (conv_net_0 e))%nat &&
  (1 <=? out_channels (conv_net_0 e))%nat &&
  (out_channels (conv_net_0 e) =? in_channels (conv_net_2 e))%nat &&
  (1 <=? out_channels (conv_net_2 e))%nat &&
  (out_channels (conv_net_2 e) =? in_channels (conv_net_4 e))%nat.

(** Frames of shape [C, H, W] have the channel count of the first
    convolution, are not empty, and flatten after the three convolutions
    to the input size of the linear layer. *)
Definition frames_fit (e : Encoder) (C H W : nat) : bool :=
  (C =? in_channels (conv_net_0 e))%nat &&
  (1 <=? H)%nat && (1 <=? W)%nat &&
  (out_channels (conv_net_4 e) * out_size (out_size (out_size H))
                               * out_size (out_size (out_size W))
   =? in_features (fc_1 e))%nat.

(** ** Single trajectories *)

(** Trajectory [b] of a batch, as a batch of its own. *)
Definition states_row (b : nat) (states : States) : States :=
  let '(_, T, C, H, W) := states_shape states in
  mkStates (1, T, C, H, W)%nat [nth b (states_data states) []].

Definition actions_row (b : nat) (actions : Actions) : Actions :=
  let '(_, Ta, A) := actions_shape actions in
  mkActions (1, Ta, A)%nat [nth b (actions_data actions) []].

(** ** Finite and non-negative tensor entries *)

Definition finite (a : scalar) : Prop := exists r, a = Fin r.

(** NaN or a non-negative real. *)
Definition nonneg (a : scalar) : Prop :=
  match a with
  | Fin r => 0 <= r
  | NaN => True
  end.

(** The tensors with the finite entries [rs]. *)
Definition tensor3 (B T D : nat) (rs : list (list (list R))) : Tensor3 :=
  mkTensor3 (B, T, D) (map (map (map Fin)) rs).

Definition tensor2 (N D : nat) (rs : list (list R)) : Tensor2 :=
  mkTensor2 (N, D) (map (map Fin) rs).

(** A nested list of shape [N, D]. *)
Definition has_shape2 (N D : nat) (x : list (list R)) : Prop :=
  length x = N /\ Forall (fun v => length v = D) x.

(** The entries of a [B, T, D] tensor are finite. *)
Definition finite3 (B T D : nat) (x : list (list (list scalar))) : Prop :=
  length x = B /\
  Forall (fun ex => length ex = T /\
                    Forall (fun v => length v = D /\ Forall finite v) ex) x.

(** The entries of an [N, D] tensor are finite. *)
Definition finite2 (N D : nat) (x : list (list scalar)) : Prop :=
  length x = N /\ Forall (fun v => length v = D /\ Forall finite v) x.

(** The data of a matrix agrees with its shape [N, D]. *)
Definition matrix_valid (c : Tensor2) : Prop :=
  length (data2 c) = fst (shape2 c) /\
  Forall (fun row => length row = snd (shape2 c)) (data2 c).

(** ** The loss of one batch in [train_model] *)

(** [x[:, 1:]] on a nested list. *)
Definition drop_first_step {X : Type} (x : list (list X)) : list (list X) :=
  map (@tl X) x.

(** main.py, [train_model], the forward pass of one iteration:
    [predictions = model(states, actions)], the targets from the target
    encoder on all frames inside [torch.no_grad()], and
    [je_loss(predictions[:, 1:], targets[:, 1:])].  The last axis of the
    predictions has the width of the online encoder's output, that of the
    targets the width of the target encoder's output.  Mixed precision
    ([autocast]) is not modelled. *)
Definition train_model_loss (self : JEPAModel) (states : States)
    (actions : Actions) : option scalar :=
  let '(B, T, _, _, _) := states_shape states in
  predictions <- forward self true states actions ;;
  targets <- get_target_representations self states ;;
  Some (je_loss
          (tensor3 B (T - 1) (out_features (fc_1 (online_encoder self)))
                   (drop_first_step (value predictions)))
          (tensor3 B (T - 1) (out_features (fc_1 (target_encoder self)))
                   (drop_first_step (value targets)))).

Section ProbesVocabulary.

Import Probes.

(** ** Widths through a stack of layers *)

(** The width a layer returns on rows of width [n]; [None] when the layer
    rejects that width. *)
Definition layer_width (l : mlp_layer) (n : nat) : option nat :=
  match l with
  | Linear_layer fin fout => if (n =? fin)%nat then Some fout else None
  | BatchNorm1d_layer k => if (n =? k)%nat then Some n else None
  | ReLU_layer => Some n
  end.

Fixpoint widths (layers : list mlp_layer) (n : nat) : option nat :=
  match layers with
  | [] => Some n
  | l :: layers' => m <- layer_width l n ;; widths layers' m
  end.

(** The entries of a tensor are as many as its shape says. *)
Definition tensor_valid (x : Tensor) : Prop :=
  length (tdata x) = numel (tshape x).

(** An [int] that reads the numeral 8 and an [np.prod] on non-empty
    lists, for the examples. *)
Definition int_example (s : string) : option Z :=
  if String.eqb s "8" then Some 8%Z else None.

Definition np_prod_example (l : list Z) : option Z :=
  match l with
  | [] => None
  | _ => Some (fold_right Z.mul 1%Z l)
  end.

End ProbesVocabulary.

(** * Properties *)

(** ** Parameter lists *)

Lemma Encoder_parameters_length (e : Encoder) :
  length (Encoder_parameters e) = 8%nat.
Proof. reflexivity. Qed.

Lemma Encoder_parameters_with (e : Encoder) (ps : list Param) :
  length ps = 8%nat -> Encoder_parameters (Encoder_with_parameters e ps) = ps.
Proof.
  intros H.
  do 8 (destruct ps as [|? ps]; [discriminate H|]).
  destruct ps; [reflexivity | discriminate H].
Qed.

Lemma ema_loop_length (tau : R) (os ts : list Param) :
  length (ema_loop tau os ts) = length ts.
Proof.
  revert ts; induction os as [|o os IH]; intros [|t ts]; simpl; auto.
Qed.

(** The loop updates exactly the zipped pairs, in order. *)
Lemma ema_loop_zip (tau : R) (os ts : list Param) :
  length os = length ts ->
  ema_loop tau os ts = map (fun ot => ema_param tau (fst ot) (snd ot)) (combine os ts).
Proof.
  revert ts; induction os as [|o os IH]; intros [|t ts] H; simpl in *;
    try discriminate; auto.
  f_equal. apply IH. lia.
Qed.

Lemma target_parameters_after_update (self : JEPAModel) (tau : R) :
  Encoder_parameters (target_encoder (_update_target_encoder self tau)) =
  ema_loop tau (Encoder_parameters (online_encoder self))
               (Encoder_parameters (target_encoder self)).
Proof.
  unfold _update_target_encoder; cbn [target_encoder].
  apply Encoder_parameters_with.
  rewrite ema_loop_length. apply Encoder_parameters_length.
Qed.

(** ** C3: one exponential-moving-average synchronization *)

(** C3.  For every [tau], one call of [_update_target_encoder] replaces
    the data of every target parameter, paired with the online parameter
    at the same position of [parameters()], by
    [tau * target + (1 - tau) * online] entry by entry; the shape, the
    [requires_grad] flag and the gradient of the target parameters, the
    online encoder, the predictor and the configuration are left as they
    were.  On the single entry [old_target = 2.0], [online = 0.0] with
    [tau = 0.9] the new entry is [1.8]. *)
Theorem ema_update_exact (self : JEPAModel) (tau : R) :
  let self' := _update_target_encoder self tau in
  map data (Encoder_parameters (target_encoder self')) =
    map (fun ot =>
           map (fun p => tau * fst p + (1 - tau) * snd p)
               (combine (data (snd ot)) (data (fst ot))))
        (combine (Encoder_parameters (online_encoder self))
                 (Encoder_parameters (target_encoder self)))
  /\ map shape (Encoder_parameters (target_encoder self')) =
       map shape (Encoder_parameters (target_encoder self))
  /\ map requires_grad (Encoder_parameters (target_encoder self')) =
       map requires_grad (Encoder_parameters (target_encoder self))
  /\ map grad (Encoder_parameters (target_encoder self')) =
       map grad (Encoder_parameters (target_encoder self))
  /\ online_encoder self' = online_encoder self
  /\ predictor self' = predictor self
  /\ (device self', repr_dim self', action_dim self', momentum self') =
       (device self, repr_dim self, action_dim self, momentum self)
  /\ data (ema_param (9 / 10) (mkParam [1%nat] [0] true None)
                              (mkParam [1%nat] [2] true None)) = [18 / 10].
Proof.
  intros self'. subst self'.
  rewrite target_parameters_after_update.
  rewrite ema_loop_zip by reflexivity.
  split; [|split; [|split; [|split; [|split; [|split; [|split]]]]]];
    try reflexivity.
  - rewrite map_map. apply map_ext. intros [o t]; cbn [fst snd ema_param data].
    apply map_ext. intros [a b]; cbn [fst snd]. ring.
  - cbn. f_equal. lra.
Qed.

(** ** C2: the parameters of the target encoder after construction *)

Lemma ema_data_tau_one (ts os : list R) :
  (length ts <= length os)%nat ->
  map (fun p => fst p * 1 + snd p * (1 - 1)) (combine ts os) = ts.
Proof.
  revert os; induction ts as [|t ts IH]; intros [|o os] H; simpl in *;
    try reflexivity; try lia.
  f_equal; [ring | apply IH; lia].
Qed.

Lemma new_param_data_length (shp : list nat) (n : nat) (draw : nat -> R) :
  length (data (new_param shp n draw)) = n.
Proof. unfold new_param; cbn [data]. now rewrite length_map, length_seq. Qed.

(** With [tau = 1] the update keeps a parameter that is no longer than
    its online counterpart as it is. *)
Lemma ema_param_tau_one (o t : Param) :
  (length (data t) <= length (data o))%nat -> ema_param 1 o t = t.
Proof.
  intros H. unfold ema_param. rewrite ema_data_tau_one by exact H.
  now destruct t.
Qed.

(** The synchronization that [__init__] runs, [tau = 1.0], returns the
    freshly drawn target encoder unchanged. *)
Lemma init_sync_is_identity (repr_dim : nat) (draw_online draw_target : nat -> nat -> R) :
  ema_loop 1 (Encoder_parameters (Encoder_init 2 (65, 65)%nat repr_dim draw_online))
             (Encoder_parameters (Encoder_init 2 (65, 65)%nat repr_dim draw_target))
  = Encoder_parameters (Encoder_init 2 (65, 65)%nat repr_dim draw_target).
Proof.
  unfold Encoder_init, Encoder_parameters, Conv2d_init, Linear_init.
  cbn [ema_loop conv_net_0 conv_net_2 conv_net_4 fc_1 conv_weight conv_bias
       lin_weight lin_bias].
  repeat (rewrite ema_param_tau_one
            by (rewrite !new_param_data_length; apply Nat.le_refl)).
  reflexivity.
Qed.

Lemma init_target_data (dev : string) (repr_dim action_dim : nat) (mom : R)
    (draw_online draw_target draw_predictor : nat -> nat -> R) :
  map data (Encoder_parameters (target_encoder
     (JEPAModel_init dev repr_dim action_dim mom draw_online draw_target draw_predictor)))
  = map data (Encoder_parameters (Encoder_init 2 (65, 65)%nat repr_dim draw_target)).
Proof.
  unfold JEPAModel_init. cbn [target_encoder].
  rewrite Encoder_parameters_with
    by (rewrite length_map; apply Encoder_parameters_length).
  rewrite target_parameters_after_update. cbn [online_encoder target_encoder].
  rewrite init_sync_is_identity.
  rewrite map_map. reflexivity.
Qed.

(** C2 (evaluation at the failing input).  Construct the model with the
    defaults of [JEPAModel.__init__], all initial values of the online
    encoder [0] and all initial values of the target encoder [0.001].
    After construction every target parameter still holds its own initial
    values: [param_t * 1.0 + param_o * 0.0] is [param_t].  The first bias
    entry of the first convolution is [0.001] in the target encoder and
    [0] in the online encoder, so the two parameter lists differ. *)
Theorem construction_leaves_target_unsynced :
  let m := JEPAModel_init "cuda" 256 2 (99 / 100)
             (fun _ _ => 0) (fun _ _ => 1 / 1000) (fun _ _ => 0) in
  map data (Encoder_parameters (target_encoder m)) =
    map data (Encoder_parameters (Encoder_init 2 (65, 65)%nat 256 (fun _ _ => 1 / 1000)))
  /\ nth 0 (data (conv_bias (conv_net_0 (target_encoder m)))) 0 = 1 / 1000
  /\ nth 0 (data (conv_bias (conv_net_0 (online_encoder m)))) 0 = 0
  /\ map data (Encoder_parameters (target_encoder m)) <>
       map data (Encoder_parameters (online_encoder m)).
Proof.
  intros m.
  assert (Ht : map data (Encoder_parameters (target_encoder m)) =
               map data (Encoder_parameters
                           (Encoder_init 2 (65, 65)%nat 256 (fun _ _ => 1 / 1000))))
    by apply init_target_data.
  assert (Hb : nth 0 (data (conv_bias (conv_net_0 (target_encoder m)))) 0 = 1 / 1000).
  { change (nth 0 (nth 1 (map data (Encoder_parameters (target_encoder m))) []) 0
            = 1 / 1000).
    rewrite Ht. reflexivity. }
  assert (Ho : nth 0 (data (conv_bias (conv_net_0 (online_encoder m)))) 0 = 0)
    by reflexivity.
  repeat split; auto.
  intros E.
  assert (E1 : nth 0 (nth 1 (map data (Encoder_parameters (target_encoder m))) []) 0
             = nth 0 (nth 1 (map data (Encoder_parameters (online_encoder m))) []) 0)
    by (rewrite E; reflexivity).
  change (nth 0 (data (conv_bias (conv_net_0 (target_encoder m)))) 0 =
          nth 0 (data (conv_bias (conv_net_0 (online_encoder m)))) 0) in E1.
  rewrite Hb, Ho in E1. lra.
Qed.

(** ** C9: one iteration of the training loops *)

Import Training.

(** C9 (evaluation at the failing input).  On every batch, the loop body
    of [train_model] runs zero_grad, the online forward pass, the target
    forward pass, the loss and the backward pass, and then raises
    AttributeError on [model.encoder]: no gradient is clipped, no
    optimizer step is taken and the target encoder is not synchronized.
    The loop body of [train] raises the same error on its first use of the
    model.  [train_model] itself raises NameError on [nn] inside
    [init_weights], before its first iteration. *)
Theorem training_iteration_raises (batch_idx : nat) (tr : list step) :
  train_model_body batch_idx tr =
    ((tr ++ [FetchBatch batch_idx; ZeroGrad; ForwardOnline; ForwardTarget;
             ComputeLoss; Backward])%list,
     Raise (AttributeError "JEPAModel" "encoder"))
  /\ train_body batch_idx tr =
       ((tr ++ [FetchBatch batch_idx])%list,
        Raise (AttributeError "JEPAModel" "encoder"))
  /\ (forall n_batches : nat,
        train_model n_batches [] =
          ([CreateDataloader; ConstructModel; MoveToDevice], Raise (NameError "nn")))
  /\ (forall epochs n_batches : nat,
        train (S epochs) (S n_batches) [] =
          ([ConstructModel; MoveToDevice; CreateOptimizer; CreateScheduler;
            CreateDataloader; TrainMode; FetchBatch 0],
           Raise (AttributeError "JEPAModel" "encoder"))).
Proof.
  split; [|split; [|split]].
  - unfold train_model_body, seqM, emit, getattr_model, main_global, raise, ret.
    cbn. rewrite <- !app_assoc. reflexivity.
  - unfold train_body, seqM, emit, getattr_model, raise, ret.
    cbn. reflexivity.
  - intros n. reflexivity.
  - intros epochs n. reflexivity.
Qed.

(** ** Shapes of the activations *)

Lemma mapM_Some {A B : Type} (f : A -> option B) (P : B -> Prop) (l : list A) :
  (forall x, In x l -> exists y, f x = Some y /\ P y) ->
  exists ys, mapM f l = Some ys /\ length ys = length l /\ Forall P ys.
Proof.
  induction l as [|x l IH]; intros H; simpl.
  - exists []. auto.
  - destruct (H x (or_introl eq_refl)) as (y & Hy & Py). rewrite Hy.
    destruct IH as (ys & Hys & Hlen & HP).
    { intros z Hz. apply H. now right. }
    rewrite Hys. exists (y :: ys). simpl. auto.
Qed.

Lemma mapM_ext_in {A B : Type} (f g : A -> option B) (l : list A) :
  (forall x, In x l -> f x = g x) -> mapM f l = mapM g l.
Proof.
  induction l as [|x l IH]; intros H; simpl; auto.
  rewrite (H x (or_introl eq_refl)), IH; auto.
  intros z Hz. apply H. now right.
Qed.

Lemma image_has_shape_tabulate (C H W : nat) (f : nat -> nat -> nat -> R) :
  image_has_shape C H W
    (map (fun o => map (fun i => map (fun j => f o i j) (seq 0 W)) (seq 0 H))
         (seq 0 C)) = true.
Proof.
  unfold image_has_shape. rewrite length_map, length_seq, Nat.eqb_refl. simpl.
  apply forallb_forall. intros ch Hch. apply in_map_iff in Hch as (o & <- & _).
  rewrite length_map, length_seq, Nat.eqb_refl. simpl.
  apply forallb_forall. intros row Hrow. apply in_map_iff in Hrow as (i & <- & _).
  rewrite length_map, length_seq. apply Nat.eqb_refl.
Qed.

Lemma image_has_shape_inv (C H W : nat) (x : image) :
  image_has_shape C H W x = true ->
  length x = C /\
  (forall ch, In ch x -> length ch = H /\ forall row, In row ch -> length row = W).
Proof.
  unfold image_has_shape. intros E. apply andb_true_iff in E as [E1 E2].
  apply Nat.eqb_eq in E1. split; [exact E1|].
  intros ch Hch. rewrite forallb_forall in E2. specialize (E2 ch Hch).
  apply andb_true_iff in E2 as [E2 E3]. apply Nat.eqb_eq in E2. split; [exact E2|].
  intros row Hrow. rewrite forallb_forall in E3. apply Nat.eqb_eq. now apply E3.
Qed.

Lemma image_has_shape_ReLU (C H W : nat) (x : image) :
  image_has_shape C H W x = true -> image_has_shape C H W (ReLU_image x) = true.
Proof.
  intros E. apply image_has_shape_inv in E as [E1 E2].
  unfold image_has_shape, ReLU_image. rewrite length_map, E1, Nat.eqb_refl. simpl.
  apply forallb_forall. intros ch Hch. apply in_map_iff in Hch as (ch0 & <- & Hin).
  destruct (E2 ch0 Hin) as [E3 E4].
  rewrite length_map, E3, Nat.eqb_refl. simpl.
  apply forallb_forall. intros row Hrow. apply in_map_iff in Hrow as (r0 & <- & Hin').
  rewrite length_map. apply Nat.eqb_eq. now apply E4.
Qed.

Lemma length_concat_uniform {A : Type} (n : nat) (l : list (list A)) :
  (forall x, In x l -> length x = n) -> length (concat l) = (length l * n)%nat.
Proof.
  induction l as [|x l IH]; intros H; simpl; auto.
  rewrite length_app, (H x (or_introl eq_refl)), IH; auto.
  intros z Hz. apply H. now right.
Qed.

Lemma Flatten_length (C H W : nat) (x : image) :
  image_has_shape C H W x = true -> length (Flatten x) = (C * H * W)%nat.
Proof.
  intros E. apply image_has_shape_inv in E as [E1 E2]. unfold Flatten.
  rewrite (@length_concat_uniform _ W).
  - rewrite (@length_concat_uniform _ H), E1; auto. intros ch Hch. now apply E2.
  - intros row Hrow. apply in_concat in Hrow as (ch & Hch & Hrow).
    destruct (E2 ch Hch) as [_ E3]. now apply E3.
Qed.

Lemma Conv2d_forward1_Some (m : Conv2d) (C H W : nat) (x : image) :
  image_has_shape C H W x = true ->
  C = in_channels m -> (1 <= C)%nat -> (1 <= H)%nat -> (1 <= W)%nat ->
  exists y, Conv2d_forward1 m x = Some y /\
            image_has_shape (out_channels m) (out_size H) (out_size W) y = true.
Proof.
  intros E HC C1 H1 W1. apply image_has_shape_inv in E as [E1 E2].
  unfold Conv2d_forward1.
  destruct x as [|ch x]; [simpl in E1; lia|].
  destruct (E2 ch (or_introl eq_refl)) as [E3 E4].
  destruct ch as [|row ch]; [simpl in E3; lia|].
  pose proof (E4 row (or_introl eq_refl)) as E5.
  cbn [hd]. rewrite E1, HC, Nat.eqb_refl. cbn [negb].
  rewrite E3, E5.
  replace (H + 2 * padding <? kernel_size)%nat with false
    by (symmetry; apply Nat.ltb_ge; unfold padding, kernel_size; lia).
  replace (W + 2 * padding <? kernel_size)%nat with false
    by (symmetry; apply Nat.ltb_ge; unfold padding, kernel_size; lia).
  cbn [orb]. eexists. split; [reflexivity|].
  apply image_has_shape_tabulate.
Qed.

Lemma out_size_pos (n : nat) : (1 <= out_size n)%nat.
Proof. unfold out_size. lia. Qed.

Lemma Linear_forward1_Some (m : Linear) (x : vec) :
  length x = in_features m ->
  exists y, Linear_forward1 m x = Some y /\ length y = out_features m.
Proof.
  intros E. unfold Linear_forward1. rewrite E, Nat.eqb_refl. cbn [negb].
  eexists. split; [reflexivity|]. now rewrite length_map, length_seq.
Qed.

Lemma Encoder_forward1_Some (e : Encoder) (C H W : nat) (x : image) :
  image_has_shape C H W x = true ->
  C = in_channels (conv_net_0 e) -> (1 <= C)%nat -> (1 <= H)%nat -> (1 <= W)%nat ->
  (1 <= out_channels (conv_net_0 e))%nat ->
  out_channels (conv_net_0 e) = in_channels (conv_net_2 e) ->
  (1 <= out_channels (conv_net_2 e))%nat ->
  out_channels (conv_net_2 e) = in_channels (conv_net_4 e) ->
  (out_channels (conv_net_4 e) * out_size (out_size (out_size H))
                               * out_size (out_size (out_size W)))%nat
    = in_features (fc_1 e) ->
  exists y, Encoder_forward1 e x = Some y /\ length y = out_features (fc_1 e).
Proof.
  intros E HC C1 H1 W1 O0 L02 O2 L24 Lfc.
  unfold Encoder_forward1, conv_net1, fc1.
  destruct (Conv2d_forward1_Some (conv_net_0 e) x E HC C1 H1 W1) as (a & -> & Ea).
  cbn [bind].
  destruct (Conv2d_forward1_Some (conv_net_2 e) (ReLU_image a)
              (image_has_shape_ReLU _ _ _ _ Ea) L02 O0
              (out_size_pos H) (out_size_pos W)) as (b & -> & Eb).
  cbn [bind].
  destruct (Conv2d_forward1_Some (conv_net_4 e) (ReLU_image b)
              (image_has_shape_ReLU _ _ _ _ Eb) L24 O2
              (out_size_pos _) (out_size_pos _)) as (c & -> & Ec).
  cbn [bind].
  destruct (Linear_forward1_Some (fc_1 e) (Flatten (ReLU_image c))) as (y & -> & Ey).
  { rewrite (Flatten_length _ _ _ _ (image_has_shape_ReLU _ _ _ _ Ec)). exact Lfc. }
  cbn [bind]. eexists. split; [reflexivity|].
  unfold ReLU_vec. now rewrite length_map.
Qed.

Lemma cat_last_Some (D A : nat) (repr action : list vec) :
  length repr = length action ->
  Forall (fun v => length v = D) repr ->
  Forall (fun v => length v = A) action ->
  exists x, cat_last repr action = Some x /\ length x = length repr /\
            Forall (fun v => length v = (D + A)%nat) x.
Proof.
  intros E HD HA. unfold cat_last. rewrite E, Nat.eqb_refl. cbn [negb].
  eexists. split; [reflexivity|]. split.
  - rewrite length_map, length_combine. lia.
  - apply Forall_forall. intros v Hv. apply in_map_iff in Hv as ([r a] & <- & Hin).
    cbn [fst snd]. rewrite length_app.
    rewrite Forall_forall in HD, HA.
    rewrite (HD r (in_combine_l _ _ _ _ Hin)), (HA a (in_combine_r _ _ _ _ Hin)).
    reflexivity.
Qed.

Lemma mlp1_Some (p : Predictor) (x : vec) :
  length x = in_features (mlp_0 p) ->
  out_features (mlp_0 p) = in_features (mlp_2 p) ->
  exists y, mlp1 p x = Some y /\ length y = out_features (mlp_2 p).
Proof.
  intros E L. unfold mlp1.
  destruct (Linear_forward1_Some (mlp_0 p) x E) as (h & -> & Eh). cbn [bind].
  apply Linear_forward1_Some. unfold ReLU_vec. rewrite length_map. congruence.
Qed.

Lemma Predictor_forward_Some (p : Predictor) (D A : nat) (repr action : list vec) :
  length repr = length action ->
  Forall (fun v => length v = D) repr ->
  Forall (fun v => length v = A) action ->
  in_features (mlp_0 p) = (D + A)%nat ->
  out_features (mlp_0 p) = in_features (mlp_2 p) ->
  exists y, Predictor_forward p repr action = Some y /\ length y = length repr /\
            Forall (fun v => length v = out_features (mlp_2 p)) y.
Proof.
  intros E HD HA L0 L2. unfold Predictor_forward.
  destruct (cat_last_Some E HD HA) as (x & -> & Ex & Fx). cbn [bind].
  destruct (@mapM_Some _ _ (mlp1 p) (fun y => length y = out_features (mlp_2 p)) x)
    as (ys & -> & Hlen & HP).
  { intros v Hv. apply mlp1_Some; auto. rewrite Forall_forall in Fx.
    rewrite (Fx v Hv). auto. }
  exists ys. repeat split; auto. congruence.
Qed.

(** [actions[:, t]] for a valid index. *)
Lemma select_actions_Some (a : Actions) (B Ta A t : nat) :
  actions_shape a = (B, Ta, A) -> actions_valid a = true -> (t < Ta)%nat ->
  select_time Ta [] (actions_data a) t = Some (frame t (actions_data a)) /\
  length (frame t (actions_data a)) = B /\
  Forall (fun v => length v = A) (frame t (actions_data a)).
Proof.
  intros Hs Hv Ht. unfold actions_valid in Hv. rewrite Hs in Hv.
  apply andb_true_iff in Hv as [E1 E2]. apply Nat.eqb_eq in E1.
  unfold select_time. apply Nat.ltb_lt in Ht as Ht'. rewrite Ht'.
  split; [reflexivity|]. unfold frame. rewrite length_map. split; [exact E1|].
  apply Forall_forall. intros v Hin. apply in_map_iff in Hin as (ex & <- & Hex).
  rewrite forallb_forall in E2. specialize (E2 ex Hex).
  apply andb_true_iff in E2 as [E3 E4]. apply Nat.eqb_eq in E3.
  rewrite forallb_forall in E4. apply Nat.eqb_eq. apply E4.
  apply nth_In. lia.
Qed.

Lemma unroll_exact (self : JEPAModel) (ge : bool) (a : Actions) (B Ta A D : nat)
    (ts : list nat) :
  actions_shape a = (B, Ta, A) -> actions_valid a = true ->
  in_features (mlp_0 (predictor self)) = (D + A)%nat ->
  out_features (mlp_0 (predictor self)) = in_features (mlp_2 (predictor self)) ->
  out_features (mlp_2 (predictor self)) = D ->
  Forall (fun t => (t < Ta)%nat) ts ->
  forall (cur : Tracked (list vec)) (acc : list (Tracked (list (list vec)))),
  length (value cur) = B -> Forall (fun v => length v = D) (value cur) ->
  exists lats,
    length lats = length ts /\
    Forall (fun l => length l = B /\ Forall (fun v => length v = D) l) lats /\
    (forall i, (i < length ts)%nat ->
       Predictor_forward (predictor self) (nth i (value cur :: lats) [])
                         (frame (nth i ts 0%nat) (actions_data a))
       = Some (nth i lats [])) /\
    unroll self ge a ts cur acc =
      Some (acc ++ tracked_preds ge (predictor self) (graph cur) lats).
Proof.
  intros Hs Hv L0 L1 L2 Hts.
  induction ts as [|t ts IH]; intros cur acc HB HD.
  - exists []. cbn. rewrite app_nil_r. repeat split; auto. intros i Hi. lia.
  - pose proof (Forall_inv Hts) as Ht. pose proof (Forall_inv_tail Hts) as Hts'.
    cbv beta in Ht.
    destruct (select_actions_Some a Hs Hv Ht) as (Ea & EB & EA).
    cbn [unroll]. rewrite Hs. cbn [fst snd]. rewrite Ea. cbn [bind].
    assert (Hp : exists y,
               Predictor_forward (predictor self) (value cur)
                 (frame t (actions_data a)) = Some y /\
               length y = length (value cur) /\
               Forall (fun v => length v = out_features (mlp_2 (predictor self))) y).
    { apply Predictor_forward_Some with (D := D) (A := A); auto. congruence. }
    destruct Hp as (y & Ey & Ly & Fy). rewrite L2 in Fy.
    rewrite Ey. cbn [bind].
    destruct (IH Hts'
                (mkTracked y (call_graph ge PredictorNet
                                (Predictor_parameters (predictor self)) (graph cur)))
                (acc ++ [mkTracked (unsqueeze1 y)
                           (call_graph ge PredictorNet
                              (Predictor_parameters (predictor self)) (graph cur))]))
      as (lats & Hlen & Hshape & Hchain & Hun).
    { cbn [value]. rewrite Ly; exact HB. }
    { cbn [value]. exact Fy. }
    exists (y :: lats). split; [simpl; lia|]. split.
    { constructor; auto. split; [rewrite Ly; exact HB | exact Fy]. }
    split.
    { intros [|i] Hi; cbn [nth].
      - exact Ey.
      - apply (Hchain i). simpl in Hi. lia. }
    cbn [tracked_preds]. rewrite <- app_assoc in Hun. exact Hun.
Qed.

Lemma tracked_preds_values (ge : bool) (p : Predictor) (g : list leaf)
    (lats : list (list vec)) :
  map (@value _) (tracked_preds ge p g lats) = map unsqueeze1 lats.
Proof.
  revert g; induction lats as [|l lats IH]; intros g; cbn; auto.
  now rewrite IH.
Qed.

Lemma nth_unsqueeze1 (l : list vec) (b : nat) :
  (b < length l)%nat -> nth b (unsqueeze1 l) [] = [nth b l []].
Proof.
  intros Hb. unfold unsqueeze1.
  rewrite nth_indep with (d' := [[]]) by (now rewrite length_map).
  apply (map_nth (fun v : vec => [v])).
Qed.

Lemma concat_unsqueezed (L : list (list vec)) (b : nat) :
  Forall (fun l => (b < length l)%nat) L ->
  concat (map (fun p => nth b p []) (map unsqueeze1 L)) = map (fun l => nth b l []) L.
Proof.
  induction 1 as [|l L Hl HL IH]; cbn; auto.
  rewrite (nth_unsqueeze1 _ Hl), IH. reflexivity.
Qed.

Lemma map_nth_seq {A : Type} (l : list A) (d : A) :
  map (fun b => nth b l d) (seq 0 (length l)) = l.
Proof.
  apply nth_ext with (d := d) (d' := d).
  - now rewrite length_map, length_seq.
  - intros n Hn. rewrite length_map, length_seq in Hn.
    rewrite nth_indep with (d' := nth 0 l d) by (now rewrite length_map, length_seq).
    rewrite (map_nth (fun b => nth b l d)), seq_nth by exact Hn. reflexivity.
Qed.

(** Frame [t] of the concatenation is the [t]-th concatenated latent. *)
Lemma frame_cat_dim1 (B : nat) (L : list (list vec)) (t : nat) :
  Forall (fun l => length l = B) L -> (t < length L)%nat ->
  frame t (cat_dim1 B (map unsqueeze1 L)) = nth t L [].
Proof.
  intros HL Ht. unfold frame, cat_dim1. rewrite map_map.
  assert (HB : length (nth t L []) = B).
  { rewrite Forall_forall in HL. apply HL. now apply nth_In. }
  transitivity (map (fun b => nth b (nth t L []) []) (seq 0 B)).
  2:{ rewrite <- HB. apply map_nth_seq. }
  apply map_ext_in. intros b Hb. apply in_seq in Hb.
  rewrite concat_unsqueezed.
  - rewrite nth_indep with (d' := nth b [] []) by (now rewrite length_map).
    now rewrite (map_nth (fun l : list (list R) => nth b l [])).
  - eapply Forall_impl; [|exact HL]. cbv beta. intros l Hl. lia.
Qed.

Lemma has_shape3_cat_dim1 (B D : nat) (L : list (list vec)) :
  Forall (fun l => length l = B /\ Forall (fun v => length v = D) l) L ->
  has_shape3 B (length L) D (cat_dim1 B (map unsqueeze1 L)).
Proof.
  intros HL. unfold has_shape3, cat_dim1. rewrite length_map, length_seq.
  split; [reflexivity|].
  apply Forall_forall. intros ex Hex. apply in_map_iff in Hex as (b & <- & Hb).
  apply in_seq in Hb.
  rewrite concat_unsqueezed.
  - rewrite length_map. split; [reflexivity|].
    apply Forall_forall. intros v Hv. apply in_map_iff in Hv as (l & <- & Hl).
    rewrite Forall_forall in HL. destruct (HL l Hl) as [HlB HlD].
    rewrite Forall_forall in HlD. apply HlD. apply nth_In. lia.
  - eapply Forall_impl; [|exact HL]. cbv beta. intros l [Hl _]. lia.
Qed.

Ltac split_andb :=
  repeat match goal with
         | H : (_ && _)%bool = true |- _ => apply andb_true_iff in H; destruct H
         | H : (_ =? _)%nat = true |- _ => apply Nat.eqb_eq in H
         | H : (_ <=? _)%nat = true |- _ => apply Nat.leb_le in H
         end.

(** [states[:, t]] for a valid index. *)
Lemma select_states_Some (s : States) (B T C H W t : nat) :
  states_shape s = (B, T, C, H, W) -> states_valid s = true -> (t < T)%nat ->
  select_time T [] (states_data s) t = Some (frame t (states_data s)) /\
  length (frame t (states_data s)) = B /\
  (forall x, In x (frame t (states_data s)) -> image_has_shape C H W x = true).
Proof.
  intros Hs Hv Ht. unfold states_valid in Hv. rewrite Hs in Hv.
  apply andb_true_iff in Hv as [E1 E2]. apply Nat.eqb_eq in E1.
  unfold select_time. apply Nat.ltb_lt in Ht as Ht'. rewrite Ht'.
  split; [reflexivity|]. unfold frame. rewrite length_map. split; [exact E1|].
  intros x Hin. apply in_map_iff in Hin as (ex & <- & Hex).
  rewrite forallb_forall in E2. specialize (E2 ex Hex).
  apply andb_true_iff in E2 as [E3 E4]. apply Nat.eqb_eq in E3.
  rewrite forallb_forall in E4. apply E4. apply nth_In. lia.
Qed.

(** ** The result of [forward] in closed form *)

(** On a valid batch [forward] returns the concatenation of the online
    encoding [enc] of the first frames and of the latents [lats] that the
    predictor produces one from the other; its graph is the one the loop
    accumulates.  Only the shape and the first frames of [states] are
    read. *)
Lemma forward_exact (self : JEPAModel) (grad_enabled : bool)
    (states : States) (actions : Actions) (B T C H W : nat) :
  dims_ok self = true ->
  batch_valid self states actions = true ->
  states_shape states = (B, T, C, H, W) ->
  exists enc lats,
    Encoder_forward (online_encoder self) (frame 0 (states_data states)) = Some enc /\
    length lats = (T - 1)%nat /\
    Forall (fun l => length l = B /\ Forall (fun v => length v = repr_dim self) l)
           (enc :: lats) /\
    (forall t, (t < T - 1)%nat ->
       Predictor_forward (predictor self) (nth t (enc :: lats) [])
                         (frame t (actions_data actions))
       = Some (nth t lats [])) /\
    (forall st,
       states_shape st = states_shape states ->
       frame 0 (states_data st) = frame 0 (states_data states) ->
       forward self grad_enabled st actions =
       Some (mkTracked
               (cat_dim1 B (map unsqueeze1 (enc :: lats)))
               (concat (map (@graph _)
                  (mkTracked (unsqueeze1 enc)
                     (call_graph grad_enabled OnlineEncoder
                        (Encoder_parameters (online_encoder self)) [])
                   :: tracked_preds grad_enabled (predictor self)
                        (call_graph grad_enabled OnlineEncoder
                           (Encoder_parameters (online_encoder self)) [])
                        lats))))).
Proof.
  intros Hd Hb Hs.
  unfold batch_valid in Hb. rewrite Hs in Hb.
  destruct (actions_shape actions) as [[B' Ta] A] eqn:Ha.
  unfold dims_ok in Hd. split_andb. subst B' Ta.
  destruct (@select_states_Some states B T C H W 0%nat) as (Es & EB & Eimg);
    auto; try lia.
  assert (Henc : exists enc,
             Encoder_forward (online_encoder self) (frame 0 (states_data states))
               = Some enc /\
             length enc = length (frame 0 (states_data states)) /\
             Forall (fun v => length v = out_features (fc_1 (online_encoder self))) enc).
  { apply mapM_Some. intros x Hx.
    apply Encoder_forward1_Some with (C := C) (H := H) (W := W); auto; lia. }
  destruct Henc as (enc & Eenc & Lenc & Fenc).
  destruct (@unroll_exact self grad_enabled actions B (T - 1) A (repr_dim self)
              (seq 0 (T - 1)))
    with (cur := mkTracked enc
                   (call_graph grad_enabled OnlineEncoder
                      (Encoder_parameters (online_encoder self)) []))
         (acc := [mkTracked (unsqueeze1 enc)
                    (call_graph grad_enabled OnlineEncoder
                       (Encoder_parameters (online_encoder self)) [])])
    as (lats & Llen & Lshape & Lchain & Lun); auto; try lia.
  { apply Forall_forall. intros t Ht. apply in_seq in Ht. lia. }
  { cbn [value]. lia. }
  { cbn [value]. eapply Forall_impl; [|exact Fenc]. cbv beta. intros; lia. }
  rewrite length_seq in Llen.
  exists enc, lats. split; [exact Eenc|]. split; [exact Llen|].
  split.
  { constructor; [|exact Lshape]. split; [lia|].
    eapply Forall_impl; [|exact Fenc]. cbv beta. intros; lia. }
  split.
  { intros t Ht. specialize (Lchain t). rewrite length_seq in Lchain.
    rewrite seq_nth in Lchain by lia. cbn [value] in Lchain.
    apply Lchain. lia. }
  intros st Hst Hf0. unfold forward. rewrite Hst, Hs.
  unfold select_time. replace (0 <? T)%nat with true
    by (symmetry; apply Nat.ltb_lt; lia).
  cbn [bind]. fold (frame 0 (states_data st)). rewrite Hf0, Eenc. cbn [bind].
  cbn [graph] in Lun. cbn [graph]. rewrite Lun. cbn [bind app].
  cbn [map value]. rewrite tracked_preds_values. reflexivity.
Qed.

(** ** C1: the auto-regressive rollout *)

(** C1.  On a model whose layer sizes fit and a valid trajectory batch
    of shape [B, T, C, H, W] with actions of shape [B, T-1, action_dim],
    [forward] returns a tensor of shape [B, T, repr_dim]; its frame [0] is
    the online encoder applied to [states[:, 0]]; for every [t < T-1] its
    frame [t+1] is the predictor applied to its own frame [t] and
    [actions[:, t]]; and the result does not depend on the frames of
    [states] after the first one. *)
Theorem forward_rollout (self : JEPAModel) (grad_enabled : bool)
    (states : States) (actions : Actions) (B T C H W : nat) :
  dims_ok self = true ->
  batch_valid self states actions = true ->
  states_shape states = (B, T, C, H, W) ->
  exists predictions,
    forward self grad_enabled states actions = Some predictions /\
    has_shape3 B T (repr_dim self) (value predictions) /\
    Encoder_forward (online_encoder self) (frame 0 (states_data states))
      = Some (frame 0 (value predictions)) /\
    (forall t, (t < T - 1)%nat ->
       Predictor_forward (predictor self) (frame t (value predictions))
                         (frame t (actions_data actions))
       = Some (frame (t + 1) (value predictions))) /\
    (forall states',
       states_shape states' = states_shape states ->
       frame 0 (states_data states') = frame 0 (states_data states) ->
       forward self grad_enabled states' actions = Some predictions).
Proof.
  intros Hd Hb Hs.
  destruct (forward_exact self grad_enabled states actions Hd Hb Hs)
    as (enc & lats & Eenc & Llen & HL & Lchain & Hfw).
  assert (HLB : Forall (fun l : list (list R) => length l = B) (enc :: lats)).
  { eapply Forall_impl; [|exact HL]. cbv beta. intros l [E _]. exact E. }
  eexists. split; [apply Hfw; reflexivity|]. cbn [value].
  split.
  { replace T with (length (enc :: lats)) at 1.
    - apply has_shape3_cat_dim1. exact HL.
    - unfold batch_valid in Hb. rewrite Hs in Hb.
      destruct (actions_shape actions) as [[B' Ta] A]. split_andb.
      simpl. lia. }
  split.
  { rewrite Eenc. f_equal. symmetry.
    apply (@frame_cat_dim1 B (enc :: lats) 0 HLB). simpl; lia. }
  split.
  { intros t Ht.
    rewrite (@frame_cat_dim1 B (enc :: lats) t HLB) by (simpl; lia).
    rewrite (@frame_cat_dim1 B (enc :: lats) (t + 1) HLB) by (simpl; lia).
    replace (t + 1)%nat with (S t) by lia. cbn [nth].
    apply Lchain. exact Ht. }
  exact Hfw.
Qed.

Lemma forward_rollout_witness :
  dims_ok example_model = true /\
  batch_valid example_model example_states example_actions = true /\
  exists predictions,
    forward example_model true example_states example_actions = Some predictions /\
    has_shape3 1 2 256 (value predictions) /\
    Encoder_forward (online_encoder example_model)
      (frame 0 (states_data example_states)) = Some (frame 0 (value predictions)) /\
    (forall t, (t < 2 - 1)%nat ->
       Predictor_forward (predictor example_model) (frame t (value predictions))
                         (frame t (actions_data example_actions))
       = Some (frame (t + 1) (value predictions))) /\
    (forall states',
       states_shape states' = states_shape example_states ->
       frame 0 (states_data states') = frame 0 (states_data example_states) ->
       forward example_model true states' example_actions = Some predictions).
Proof.
  split; [lazy; reflexivity|]. split; [lazy; reflexivity|].
  apply (@forward_rollout example_model true example_states example_actions
           1 2 2 65 65); lazy; reflexivity.
Defined.

(** ** Signs of the latents *)

Lemma relu_nonneg (x : R) : 0 <= relu x.
Proof. unfold relu. apply Rmax_l. Qed.

Lemma mapM_Forall {A B : Type} (f : A -> option B) (P : B -> Prop) (l : list A)
    (ys : list B) :
  (forall x y, In x l -> f x = Some y -> P y) ->
  mapM f l = Some ys -> Forall P ys.
Proof.
  revert ys; induction l as [|x l IH]; intros ys H E; simpl in E.
  - injection E as <-. constructor.
  - destruct (f x) as [y|] eqn:Ey; [|discriminate].
    destruct (mapM f l) as [ys'|] eqn:Eys; [|discriminate].
    injection E as <-. constructor.
    + apply (H x y); auto. now left.
    + apply IH; auto. intros z w Hz. apply H. now right.
Qed.

Lemma Encoder_forward_nonneg (e : Encoder) (x : list (list (list (list R))))
    (y : list (list R)) :
  Encoder_forward e x = Some y -> Forall (Forall (fun r => 0 <= r)) y.
Proof.
  unfold Encoder_forward. apply mapM_Forall. intros img v _ E.
  unfold Encoder_forward1 in E.
  destruct (conv_net1 e img) as [c|]; [|discriminate]. cbn [bind] in E.
  unfold fc1 in E.
  destruct (Linear_forward1 (fc_1 e) (Flatten c)) as [h|]; [|discriminate].
  cbn [bind] in E. injection E as <-.
  unfold ReLU_vec. apply Forall_forall. intros r Hr.
  apply in_map_iff in Hr as (r0 & <- & _). apply relu_nonneg.
Qed.

Lemma In_firstn {A : Type} (n : nat) (l : list A) (x : A) :
  In x (firstn n l) -> In x l.
Proof.
  intros H. rewrite <- (firstn_skipn n l). apply in_or_app. now left.
Qed.

Lemma In_skipn {A : Type} (n : nat) (l : list A) (x : A) :
  In x (skipn n l) -> In x l.
Proof.
  intros H. rewrite <- (firstn_skipn n l). apply in_or_app. now right.
Qed.

Lemma chunks_Forall {A : Type} (P : A -> Prop) (m k : nat) (l : list A) :
  Forall P l -> Forall (Forall P) (chunks m k l).
Proof.
  revert l; induction k as [|k IH]; intros l H; simpl; constructor.
  - apply Forall_forall. intros x Hx. rewrite Forall_forall in H.
    apply H. eapply In_firstn; eauto.
  - apply IH. apply Forall_forall. intros x Hx. rewrite Forall_forall in H.
    apply H. eapply In_skipn; eauto.
Qed.

Lemma dot_zero_l (u v : list R) : Forall (fun w => w = 0) u -> dot u v = 0.
Proof.
  unfold dot. revert v; induction u as [|a u IH]; intros v H; simpl; auto.
  destruct v as [|b v]; simpl; auto.
  pose proof (Forall_inv H) as Ha. cbv beta in Ha. subst a.
  rewrite (IH v (Forall_inv_tail H)). ring.
Qed.

(** A linear layer whose weights are all zero returns its bias. *)
Lemma Linear_zero_weights (m : Linear) (c : R) (x y : list R) :
  Forall (fun w => w = 0) (data (lin_weight m)) ->
  (forall o, (o < out_features m)%nat -> nth o (data (lin_bias m)) 0 = c) ->
  Linear_forward1 m x = Some y ->
  Forall (fun v => v = c) y.
Proof.
  intros Hw Hb E. unfold Linear_forward1 in E.
  destruct (negb (length x =? in_features m)%nat); [discriminate|].
  injection E as <-. apply Forall_forall. intros v Hv.
  apply in_map_iff in Hv as (o & <- & Ho). apply in_seq in Ho.
  rewrite Hb by lia. rewrite dot_zero_l; [ring|].
  apply Forall_forall. intros w Hin. rewrite Forall_forall in Hw. apply Hw.
  unfold weight_row in Hin. eapply In_skipn, In_firstn; eauto.
Qed.

Lemma Predictor_zero_weights (p : Predictor) (c : R) (repr action y : list (list R)) :
  Forall (fun w => w = 0) (data (lin_weight (mlp_2 p))) ->
  (forall o, (o < out_features (mlp_2 p))%nat ->
             nth o (data (lin_bias (mlp_2 p))) 0 = c) ->
  Predictor_forward p repr action = Some y ->
  Forall (Forall (fun v => v = c)) y.
Proof.
  intros Hw Hb E. unfold Predictor_forward in E.
  destruct (cat_last repr action) as [x|]; [|discriminate]. cbn [bind] in E.
  revert E. apply mapM_Forall. intros v w _ Ev. unfold mlp1 in Ev.
  destruct (Linear_forward1 (mlp_0 p) v) as [h|]; [|discriminate].
  cbn [bind] in Ev. eapply Linear_zero_weights; eauto.
Qed.

(** ** C10: the encoder's latents are non-negative *)

(** C10.  Every component of every latent the encoder returns is
    non-negative, whatever the parameters and the input.  Hence frame [0]
    of the rollout of a valid batch and every target representation are
    non-negative.  The predicted frames are not constrained: with zero
    weights and bias [-1] in the last layer of the predictor, frame [1] of
    the rollout of the zero batch is [-1] in all 256 components. *)
Theorem encoder_latents_nonneg :
  (forall (e : Encoder) x y,
     Encoder_forward e x = Some y -> Forall (Forall (fun r => 0 <= r)) y)
  /\ (forall self grad_enabled states actions B T C H W,
        dims_ok self = true ->
        batch_valid self states actions = true ->
        states_shape states = (B, T, C, H, W) ->
        exists predictions,
          forward self grad_enabled states actions = Some predictions /\
          Forall (Forall (fun r => 0 <= r)) (frame 0 (value predictions)))
  /\ (forall self states targets,
        get_target_representations self states = Some targets ->
        Forall (Forall (Forall (fun r => 0 <= r))) (value targets))
  /\ (exists predictions,
        forward negative_bias_model true example_states example_actions
          = Some predictions /\
        frame 1 (value predictions) = [repeat (-1) 256]).
Proof.
  split; [|split; [|split]].
  - intros e x y. apply Encoder_forward_nonneg.
  - intros self ge states actions B T C H W Hd Hb Hs.
    destruct (forward_exact self ge states actions Hd Hb Hs)
      as (enc & lats & Eenc & Llen & HL & Lchain & Hfw).
    eexists. split; [apply Hfw; reflexivity|]. cbn [value].
    rewrite frame_cat_dim1.
    + cbn [nth]. eapply Encoder_forward_nonneg; eauto.
    + eapply Forall_impl; [|exact HL]. cbv beta. intros l [E _]. exact E.
    + simpl. lia.
  - intros self states targets E. unfold get_target_representations in E.
    destruct (states_shape states) as [[[[B T] C] H] W].
    destruct (Encoder_forward (target_encoder self) (concat (states_data states)))
      as [enc|] eqn:Eenc; [|discriminate].
    cbn [bind] in E. destruct (B * T =? 0)%nat; [discriminate|].
    injection E as <-. cbn [value]. apply chunks_Forall.
    eapply Encoder_forward_nonneg; eauto.
  - assert (Hd : dims_ok negative_bias_model = true) by (lazy; reflexivity).
    assert (Hb : batch_valid negative_bias_model example_states example_actions = true)
      by (lazy; reflexivity).
    destruct (@forward_exact negative_bias_model true example_states example_actions
                1 2 2 65 65 Hd Hb eq_refl)
      as (enc & lats & Eenc & Llen & HL & Lchain & Hfw).
    eexists. split; [apply Hfw; reflexivity|]. cbn [value].
    rewrite frame_cat_dim1.
    2:{ eapply Forall_impl; [|exact HL]. cbv beta. intros l [E _]. exact E. }
    2:{ simpl. rewrite Llen. lia. }
    cbn [nth].
    assert (H01 : (0 < 2 - 1)%nat) by (simpl; lia).
    specialize (Lchain 0%nat H01). cbn [nth] in Lchain.
    assert (Hy : Forall (Forall (fun v => v = -1)) (nth 0 lats [])).
    { eapply Predictor_zero_weights; [| |exact Lchain].
      - change (Forall (fun w => w = 0) (map (fun _ : nat => 0) (seq 0 (256 * 256)))).
        apply Forall_forall. intros w Hw. apply in_map_iff in Hw as (? & <- & _).
        reflexivity.
      - intros o Ho.
        change (nth o (map (fun _ : nat => -1) (seq 0 256)) 0 = -1).
        change (o < 256)%nat in Ho.
        rewrite nth_indep with (d' := (fun _ : nat => -1) 0%nat)
          by (now rewrite length_map, length_seq).
        now rewrite (map_nth (fun _ : nat => -1)). }
    pose proof (Forall_inv_tail HL) as HL'.
    destruct lats as [|y lats']; [discriminate Llen|]. cbn [nth] in *.
    pose proof (Forall_inv HL') as [Ly Fy]. cbv beta in Ly, Fy.
    destruct y as [|row [|row' y']]; try discriminate Ly.
    f_equal.
    pose proof (Forall_inv Hy) as Hrow. pose proof (Forall_inv Fy) as Lrow.
    cbv beta in Hrow, Lrow. change (repr_dim negative_bias_model) with 256%nat in Lrow.
    rewrite <- Lrow. clear - Hrow.
    induction Hrow as [|v row Hv Hrow IH]; simpl; auto. f_equal; assumption.
Qed.

Lemma encoder_latents_nonneg_witness :
  dims_ok example_model = true /\
  batch_valid example_model example_states example_actions = true /\
  exists predictions,
    forward example_model true example_states example_actions = Some predictions /\
    Forall (Forall (fun r => 0 <= r)) (frame 0 (value predictions)).
Proof.
  split; [lazy; reflexivity|]. split; [lazy; reflexivity|].
  apply (proj1 (proj2 encoder_latents_nonneg)
           example_model true example_states example_actions 1%nat 2%nat 2%nat
           65%nat 65%nat); lazy; reflexivity.
Defined.

(** ** Gradient bookkeeping *)

Lemma Predictor_parameters_with (p : Predictor) (ps : list Param) :
  length ps = 4%nat -> Predictor_parameters (Predictor_with_parameters p ps) = ps.
Proof.
  intros H.
  do 4 (destruct ps as [|? ps]; [discriminate H|]).
  destruct ps; [reflexivity | discriminate H].
Qed.

Lemma encoder_dims_with (e : Encoder) (ps : list Param) :
  encoder_dims (Encoder_with_parameters e ps) = encoder_dims e.
Proof.
  unfold Encoder_with_parameters.
  do 8 (destruct ps as [|? ps]; [reflexivity|]).
  destruct ps; reflexivity.
Qed.

Lemma tracked_leaves_owner (o : owner) (ps : list Param) (l : leaf) :
  In l (tracked_leaves o ps) -> fst l = o.
Proof.
  unfold tracked_leaves. intros H. apply in_map_iff in H as (kp & <- & _).
  reflexivity.
Qed.

Lemma tracked_leaves_all (o : owner) (ps : list Param) (k : nat) :
  Forall (fun p => requires_grad p = true) ps -> (k < length ps)%nat ->
  In (o, k) (tracked_leaves o ps).
Proof.
  intros Hrg Hk. unfold tracked_leaves.
  apply in_map_iff. exists (k, nth k ps (mkParam [] [] true None)).
  split; [reflexivity|]. apply filter_In. split.
  - replace (k, nth k ps (mkParam [] [] true None))
      with (nth k (combine (seq 0 (length ps)) ps) (0%nat, mkParam [] [] true None)).
    + apply nth_In. rewrite length_combine, length_seq. lia.
    + rewrite combine_nth by (now rewrite length_seq).
      rewrite seq_nth by exact Hk. reflexivity.
  - cbn [snd]. rewrite Forall_forall in Hrg. apply Hrg. now apply nth_In.
Qed.

Lemma in_graph_In (g : list leaf) (o : owner) (k : nat) :
  In (o, k) g -> in_graph g o k = true.
Proof.
  intros H. unfold in_graph. apply existsb_exists. exists (o, k).
  split; [exact H|]. cbn [fst snd]. destruct o; apply Nat.eqb_refl.
Qed.

Lemma in_graph_other (g : list leaf) (o : owner) (k : nat) :
  Forall (fun l => fst l <> o) g -> in_graph g o k = false.
Proof.
  intros H. unfold in_graph. apply not_true_is_false. intros E.
  apply existsb_exists in E as (l & Hl & E).
  rewrite Forall_forall in H. specialize (H l Hl).
  destruct (fst l), o; try discriminate; congruence.
Qed.

Lemma backward_params_length (g : list leaf) dL (o : owner) (ps : list Param) :
  length (backward_params g dL o ps) = length ps.
Proof.
  unfold backward_params. rewrite length_map, length_combine, length_seq. lia.
Qed.

Lemma map_combine_seq {A B : Type} (f : nat * A -> B) (h : A -> B) (s : nat)
    (l : list A) :
  (forall k x, f (k, x) = h x) ->
  map f (combine (seq s (length l)) l) = map h l.
Proof.
  intros H. revert s; induction l as [|x l IH]; intros s; simpl; auto.
  now rewrite H, IH.
Qed.

Lemma backward_params_requires_grad (g : list leaf) dL (o : owner) (ps : list Param) :
  map requires_grad (backward_params g dL o ps) = map requires_grad ps.
Proof.
  unfold backward_params. rewrite map_map.
  apply map_combine_seq. intros k p. cbn [fst snd].
  destruct (in_graph g o k); reflexivity.
Qed.

Lemma backward_params_untouched (g : list leaf) dL (o : owner) (ps : list Param) :
  Forall (fun l => fst l <> o) g -> backward_params g dL o ps = ps.
Proof.
  intros H. unfold backward_params.
  transitivity (map (fun x : Param => x) ps); [|apply map_id].
  apply map_combine_seq. intros k p. cbn [fst snd].
  now rewrite (in_graph_other k H).
Qed.

Lemma backward_params_reached (g : list leaf) dL (o : owner) (ps : list Param) :
  (forall k, (k < length ps)%nat -> In (o, k) g) ->
  Forall (fun p => grad p <> None) (backward_params g dL o ps).
Proof.
  intros H. unfold backward_params. apply Forall_forall. intros p Hp.
  apply in_map_iff in Hp as ([k q] & <- & Hin). cbn [fst snd].
  assert (Hk : (k < length ps)%nat).
  { apply in_combine_l in Hin. apply in_seq in Hin. lia. }
  rewrite (in_graph_In _ _ _ (H k Hk)). cbn [grad].
  destruct (grad q); discriminate.
Qed.

Lemma call_graph_owner (ge : bool) (o o' : owner) (ps : list Param) (g : list leaf) :
  o <> o' -> Forall (fun l => fst l <> o') g ->
  Forall (fun l => fst l <> o') (call_graph ge o ps g).
Proof.
  intros Ho Hg. unfold call_graph. destruct ge; [|constructor].
  apply Forall_app. split; [exact Hg|].
  apply Forall_forall. intros l Hl. apply tracked_leaves_owner in Hl. congruence.
Qed.

Lemma unroll_graph_owner (self : JEPAModel) (ge : bool) (a : Actions)
    (ts : list nat) :
  forall cur acc ps,
  unroll self ge a ts cur acc = Some ps ->
  Forall (fun l => fst l <> TargetEncoder) (graph cur) ->
  Forall (fun x => Forall (fun l => fst l <> TargetEncoder) (graph x)) acc ->
  Forall (fun x => Forall (fun l => fst l <> TargetEncoder) (graph x)) ps.
Proof.
  induction ts as [|t ts IH]; intros cur acc ps E Hc Ha; cbn [unroll] in E.
  - now injection E as <-.
  - destruct (select_time _ _ _ _) as [action|]; [|discriminate]. cbn [bind] in E.
    destruct (Predictor_forward _ _ _) as [pred|]; [|discriminate]. cbn [bind] in E.
    eapply IH; [exact E| |].
    + cbn [graph]. apply call_graph_owner; [discriminate | exact Hc].
    + apply Forall_app. split; [exact Ha|]. constructor; [|constructor].
      cbn [graph]. apply call_graph_owner; [discriminate | exact Hc].
Qed.

(** The graph of a rollout never reaches a parameter of the target
    encoder. *)
Lemma forward_graph_no_target (self : JEPAModel) (ge : bool) (s : States)
    (a : Actions) (p : Tracked (list (list (list R)))) :
  forward self ge s a = Some p ->
  Forall (fun l => fst l <> TargetEncoder) (graph p).
Proof.
  unfold forward. destruct (states_shape s) as [[[[B T] C] H] W].
  destruct (select_time _ _ _ _) as [s0|]; [|discriminate]. cbn [bind].
  destruct (Encoder_forward _ _) as [enc|]; [|discriminate]. cbn [bind].
  destruct (unroll _ _ _ _ _ _) as [ps|] eqn:E; [|discriminate]. cbn [bind].
  intros Ep. injection Ep as <-. cbn [graph].
  apply unroll_graph_owner in E.
  - apply Forall_concat. apply Forall_map. exact E.
  - cbn [graph]. apply call_graph_owner; [discriminate | constructor].
  - constructor; [|constructor]. cbn [graph].
    apply call_graph_owner; [discriminate | constructor].
Qed.

Lemma contrastive_loss_graph_no_target (self : JEPAModel) (s : States)
    (a : Actions) (g : list leaf) :
  contrastive_loss_graph self s a = Some g ->
  Forall (fun l => fst l <> TargetEncoder) g.
Proof.
  unfold contrastive_loss_graph.
  destruct (forward self true s a) as [p|] eqn:Ep; [|discriminate]. cbn [bind].
  destruct (get_target_representations self s) as [t|] eqn:Et; [|discriminate].
  cbn [bind]. intros E. injection E as <-.
  apply Forall_app. split; [eapply forward_graph_no_target; eauto|].
  unfold get_target_representations in Et.
  destruct (states_shape s) as [[[[B T] C] H] W].
  destruct (Encoder_forward _ _); [|discriminate]. cbn [bind] in Et.
  destruct (B * T =? 0)%nat; [discriminate|]. injection Et as <-. constructor.
Qed.

(** ** The invariant of a constructed model *)

Lemma Forall_map_eq {A B : Type} (f : A -> B) (b : B) (l l' : list A) :
  map f l' = map f l -> Forall (fun x => f x = b) l -> Forall (fun x => f x = b) l'.
Proof.
  intros E H.
  apply (proj1 (Forall_map f (fun y => y = b) l')). rewrite E.
  apply (proj2 (Forall_map f (fun y => y = b) l)). exact H.
Qed.

Lemma map_combine_snd {A B C : Type} (h : B -> C) (l1 : list A) (l2 : list B) :
  length l1 = length l2 ->
  map (fun ab => h (snd ab)) (combine l1 l2) = map h l2.
Proof.
  revert l2; induction l1 as [|a l1 IH]; intros [|b l2] H; simpl in *;
    try discriminate; auto.
  f_equal. apply IH. lia.
Qed.

Lemma model_invariant_init (dev : string) (rd ad : nat) (mom : R)
    (d_o d_t d_p : nat -> nat -> R) :
  model_invariant (JEPAModel_init dev rd ad mom d_o d_t d_p).
Proof.
  unfold model_invariant. split; [|split; [|split; [|split; [|split]]]].
  - unfold dims_ok. cbn. rewrite !Nat.eqb_refl. reflexivity.
  - reflexivity.
  - unfold JEPAModel_init. cbn [target_encoder].
    rewrite Encoder_parameters_with
      by (rewrite length_map; apply Encoder_parameters_length).
    apply Forall_map. apply Forall_forall. intros p _. reflexivity.
  - unfold JEPAModel_init. cbn [target_encoder].
    rewrite Encoder_parameters_with
      by (rewrite length_map; apply Encoder_parameters_length).
    rewrite target_parameters_after_update. cbn [online_encoder target_encoder].
    rewrite init_sync_is_identity.
    repeat constructor.
  - repeat constructor.
  - repeat constructor.
Qed.

Lemma model_invariant_update (self : JEPAModel) (tau : R) :
  model_invariant self -> model_invariant (_update_target_encoder self tau).
Proof.
  intros (Hd & He & Hrg & Hg & Ho & Hp).
  unfold model_invariant.
  rewrite target_parameters_after_update.
  rewrite ema_loop_zip by reflexivity.
  split; [exact Hd|]. split.
  { unfold _update_target_encoder. cbn [target_encoder online_encoder].
    now rewrite encoder_dims_with. }
  split.
  { eapply Forall_map_eq; [|exact Hrg].
    rewrite map_map. cbn [ema_param requires_grad].
    now apply map_combine_snd. }
  split.
  { eapply Forall_map_eq; [|exact Hg].
    rewrite map_map. cbn [ema_param grad].
    now apply map_combine_snd. }
  split; assumption.
Qed.

Lemma predictor_dims_with (p : Predictor) (ps : list Param) :
  predictor_dims (Predictor_with_parameters p ps) = predictor_dims p.
Proof.
  unfold Predictor_with_parameters.
  do 4 (destruct ps as [|? ps]; [reflexivity|]).
  destruct ps; reflexivity.
Qed.

Lemma dims_ok_ext (self self' : JEPAModel) :
  encoder_dims (online_encoder self') = encoder_dims (online_encoder self) ->
  predictor_dims (predictor self') = predictor_dims (predictor self) ->
  repr_dim self' = repr_dim self -> action_dim self' = action_dim self ->
  dims_ok self' = dims_ok self.
Proof.
  unfold encoder_dims, predictor_dims, dims_ok. intros He Hp Hr Ha.
  injection He as E1 E2 E3 E4 E5 E6 E7 E8.
  injection Hp as P1 P2 P3 P4.
  rewrite ?E1, ?E2, ?E3, ?E4, ?E5, ?E6, ?E7, ?E8, ?P1, ?P2, ?P3, ?P4, Hr, Ha.
  reflexivity.
Qed.

Lemma model_invariant_backward (self : JEPAModel) (g : list leaf)
    (dL : leaf -> list R) :
  Forall (fun l => fst l <> TargetEncoder) g ->
  model_invariant self -> model_invariant (backward g dL self).
Proof.
  intros Hg (Hd & He & Hrg & Hgr & Ho & Hp).
  unfold model_invariant, backward.
  cbn [online_encoder target_encoder predictor].
  rewrite !Encoder_parameters_with
    by (rewrite backward_params_length; apply Encoder_parameters_length).
  rewrite Predictor_parameters_with
    by (rewrite backward_params_length; reflexivity).
  rewrite (backward_params_untouched dL _ Hg).
  split.
  { rewrite <- Hd. apply dims_ok_ext; cbn [online_encoder predictor repr_dim action_dim];
      auto using encoder_dims_with, predictor_dims_with. }
  split; [now rewrite !encoder_dims_with|].
  split; [exact Hrg|]. split; [exact Hgr|].
  split.
  - eapply Forall_map_eq; [apply backward_params_requires_grad | exact Ho].
  - eapply Forall_map_eq; [apply backward_params_requires_grad | exact Hp].
Qed.

Lemma model_invariant_apply (self : JEPAModel) (op : operation) :
  model_invariant self -> model_invariant (apply_operation self op).
Proof.
  intros H. destruct op as [tau| | |s a dL]; cbn [apply_operation]; auto.
  - now apply model_invariant_update.
  - destruct (contrastive_loss_graph self s a) as [g|] eqn:E; auto.
    apply model_invariant_backward; auto.
    eapply contrastive_loss_graph_no_target; eauto.
Qed.

Lemma model_invariant_run (ops : list operation) (self : JEPAModel) :
  model_invariant self -> model_invariant (run ops self).
Proof.
  unfold run. revert self; induction ops as [|op ops IH]; intros self H; simpl; auto.
  apply IH. now apply model_invariant_apply.
Qed.

(** On a valid batch with [B >= 1] the target representations are
    computed, and their graph is empty. *)
Lemma get_target_representations_Some (self : JEPAModel) (states : States)
    (actions : Actions) (B T C H W : nat) :
  model_invariant self ->
  batch_valid self states actions = true ->
  states_shape states = (B, T, C, H, W) -> (1 <= B)%nat ->
  exists targets,
    get_target_representations self states = Some targets /\ graph targets = [].
Proof.
  intros (Hd & He & _) Hb Hs HB.
  unfold batch_valid in Hb. rewrite Hs in Hb.
  destruct (actions_shape actions) as [[B' Ta] A].
  unfold dims_ok in Hd. split_andb.
  unfold encoder_dims in He. injection He as E1 E2 E3 E4 E5 E6 E7 E8.
  assert (Hv : states_valid states = true) by assumption.
  unfold states_valid in Hv. rewrite Hs in Hv. apply andb_true_iff in Hv as [_ Hv].
  rewrite forallb_forall in Hv.
  assert (Henc : exists enc,
             Encoder_forward (target_encoder self) (concat (states_data states))
               = Some enc /\
             length enc = length (concat (states_data states)) /\
             Forall (fun _ => True) enc).
  { apply mapM_Some. intros x Hx. apply in_concat in Hx as (ex & Hex & Hx).
    specialize (Hv ex Hex). apply andb_true_iff in Hv as [_ Hv].
    rewrite forallb_forall in Hv. specialize (Hv x Hx).
    destruct (@Encoder_forward1_Some (target_encoder self) C H W x) as (y & Ey & _);
      auto; try lia.
    exists y. auto. }
  destruct Henc as (enc & Eenc & _).
  unfold get_target_representations. rewrite Hs, Eenc. cbn [bind].
  replace (B * T =? 0)%nat with false by (symmetry; apply Nat.eqb_neq; nia).
  eexists. split; reflexivity.
Qed.

(** ** C4: the target encoder is never trained *)

(** C4.  In every model reached from construction by any sequence of
    operations, no parameter of the target encoder requires a gradient
    and none carries one.  After a backward pass on the contrastive loss
    of a valid batch with [B >= 1] and [T >= 2], the parameters of the
    target encoder still carry no gradient and do not require one, while
    every parameter of the online encoder and of the predictor carries a
    gradient. *)
Theorem target_encoder_never_trained (dev : string) (rd ad : nat) (mom : R)
    (d_o d_t d_p : nat -> nat -> R) (ops : list operation) :
  let self := run ops (JEPAModel_init dev rd ad mom d_o d_t d_p) in
  Forall (fun p => requires_grad p = false)
         (Encoder_parameters (target_encoder self))
  /\ Forall (fun p => grad p = None) (Encoder_parameters (target_encoder self))
  /\ forall states actions (dL : leaf -> list R) B T C H W,
       batch_valid self states actions = true ->
       states_shape states = (B, T, C, H, W) ->
       (1 <= B)%nat -> (2 <= T)%nat ->
       exists g,
         contrastive_loss_graph self states actions = Some g /\
         let self' := backward g dL self in
         Forall (fun p => grad p = None /\ requires_grad p = false)
                (Encoder_parameters (target_encoder self')) /\
         Forall (fun p => grad p <> None)
                (Encoder_parameters (online_encoder self')) /\
         Forall (fun p => grad p <> None)
                (Predictor_parameters (predictor self')).
Proof.
  intros self.
  assert (Hinv : model_invariant self)
    by (apply model_invariant_run, model_invariant_init).
  pose proof Hinv as (Hd & He & Hrg & Hgr & Ho & Hp).
  split; [exact Hrg|]. split; [exact Hgr|].
  intros states actions dL B T C H W Hb Hs HB HT.
  destruct (forward_exact self true states actions Hd Hb Hs)
    as (enc & lats & Eenc & Llen & HL & Lchain & Hfw).
  destruct (@get_target_representations_Some self states actions B T C H W Hinv Hb Hs HB)
    as (targets & Et & Gt).
  unfold contrastive_loss_graph.
  rewrite (Hfw states eq_refl eq_refl), Et. cbn [bind graph]. rewrite Gt, app_nil_r.
  eexists. split; [reflexivity|].
  cbv zeta.
  match goal with |- context [backward ?g0 _ _] => set (g := g0) end.
  assert (Hg : Forall (fun l => fst l <> TargetEncoder) g).
  { pose proof (@forward_graph_no_target _ _ _ _ _ (Hfw states eq_refl eq_refl)) as F.
    exact F. }
  unfold backward. cbn [online_encoder target_encoder predictor].
  rewrite !Encoder_parameters_with
    by (rewrite backward_params_length; apply Encoder_parameters_length).
  rewrite Predictor_parameters_with
    by (rewrite backward_params_length; reflexivity).
  rewrite (backward_params_untouched dL _ Hg).
  split.
  { apply Forall_forall. intros p Hin. rewrite Forall_forall in Hrg, Hgr. auto. }
  split.
  - apply backward_params_reached. intros k Hk.
    subst g. cbn [map concat graph]. apply in_or_app. left.
    unfold call_graph. cbn [app]. now apply tracked_leaves_all.
  - apply backward_params_reached. intros k Hk.
    subst g. destruct lats as [|y lats']; [simpl in Llen; lia|].
    cbn [map concat graph tracked_preds]. apply in_or_app. right.
    apply in_or_app. left.
    unfold call_graph at 1. apply in_or_app. right.
    now apply tracked_leaves_all.
Qed.

Lemma target_encoder_never_trained_witness :
  let self := run [Call_update_target_encoder (996 / 1000)] example_model in
  batch_valid self example_states example_actions = true /\
  (1 <= 1)%nat /\ (2 <= 2)%nat /\
  exists g,
    contrastive_loss_graph self example_states example_actions = Some g /\
    let self' := backward g (fun _ => []) self in
    Forall (fun p => grad p = None /\ requires_grad p = false)
           (Encoder_parameters (target_encoder self')) /\
    Forall (fun p => grad p <> None)
           (Encoder_parameters (online_encoder self')) /\
    Forall (fun p => grad p <> None)
           (Predictor_parameters (predictor self')).
Proof.
  intros self.
  split; [lazy; reflexivity|]. split; [lia|]. split; [lia|].
  apply (proj2 (proj2 (target_encoder_never_trained "cuda" 256 2 (99 / 100)
           (fun _ _ => 0) (fun _ _ => 1 / 1000) (fun _ _ => 0)
           [Call_update_target_encoder (996 / 1000)]))
           example_states example_actions (fun _ => []) 1%nat 2%nat 2%nat 65%nat 65%nat);
    try (lazy; reflexivity); lia.
Defined.

(** ** Arithmetic of tensor entries *)

Lemma sadd_comm (a b : scalar) : sadd a b = sadd b a.
Proof. destruct a, b; cbn; auto. f_equal. ring. Qed.

Lemma smul_comm (a b : scalar) : smul a b = smul b a.
Proof. destruct a, b; cbn; auto. f_equal. ring. Qed.

Lemma sadd_NaN_r (a : scalar) : sadd a NaN = NaN.
Proof. now destruct a. Qed.

Lemma smul_NaN_r (a : scalar) : smul a NaN = NaN.
Proof. now destruct a. Qed.

Lemma ssub_NaN_r (a : scalar) : ssub a NaN = NaN.
Proof. now destruct a. Qed.

Lemma sdiv_count_zero (a : scalar) : sdiv_count a 0 = NaN.
Proof. now destruct a. Qed.

Lemma spow2_ssub_comm (a b : scalar) : spow2 (ssub a b) = spow2 (ssub b a).
Proof. destruct a, b; cbn; auto. f_equal. ring. Qed.

Lemma ssum_scale (c : R) (l : list scalar) :
  ssum (map (smul (Fin c)) l) = smul (Fin c) (ssum l).
Proof.
  induction l as [|x l IH]; cbn.
  - f_equal. ring.
  - fold (ssum (map (smul (Fin c)) l)). fold (ssum l). rewrite IH.
    destruct x, (ssum l); cbn; auto. f_equal. ring.
Qed.

Lemma smean_scale (c : R) (l : list scalar) :
  smean (map (smul (Fin c)) l) = smul (Fin c) (smean l).
Proof.
  unfold smean. rewrite ssum_scale, length_map.
  destruct (ssum l); cbn; auto.
  destruct (Z.of_nat (length l) =? 0)%Z; cbn; auto.
  f_equal. unfold Rdiv. ring.
Qed.

Lemma map_combine_swap {A B C : Type} (f : A * B -> C) (g : B * A -> C)
    (l1 : list A) (l2 : list B) :
  (forall a b, f (a, b) = g (b, a)) ->
  map f (combine l1 l2) = map g (combine l2 l1).
Proof.
  intros H. revert l2; induction l1 as [|a l1 IH]; intros [|b l2]; simpl; auto.
  now rewrite H, IH.
Qed.

Lemma sdot_comm (u v : list scalar) : sdot u v = sdot v u.
Proof.
  unfold sdot. f_equal. apply map_combine_swap. intros a b. apply smul_comm.
Qed.

Lemma mul_sum_last_comm (a b : Tensor3) : mul_sum_last a b = mul_sum_last b a.
Proof.
  unfold mul_sum_last. apply map_combine_swap. intros x y. cbn [fst snd].
  apply map_combine_swap. intros u v. apply sdot_comm.
Qed.

Lemma mse_loss_comm (x y : Tensor2) : mse_loss x y = mse_loss y x.
Proof.
  unfold mse_loss. do 2 f_equal. apply map_combine_swap. intros r s. cbn [fst snd].
  apply map_combine_swap. intros a b. apply spow2_ssub_comm.
Qed.

(** ** Normalized vectors and the cosine similarity *)

Lemma ssum_Fin (l : list R) : ssum (map Fin l) = Fin (Rsum l).
Proof.
  induction l as [|x l IH]; cbn; auto.
  fold (ssum (map Fin l)). rewrite IH. reflexivity.
Qed.

Lemma Rsum_squares_nonneg (u : list R) : 0 <= Rsum (map (fun x => x * x) u).
Proof.
  unfold Rsum. induction u as [|x u IH]; simpl; [lra|]. nra.
Qed.

Lemma ssqrt_Fin (x : R) : 0 <= x -> ssqrt (Fin x) = Fin (sqrt x).
Proof.
  intros H. unfold ssqrt. destruct (Rlt_dec x 0); [lra | reflexivity].
Qed.

Lemma eps_normalize_pos : 0 < eps_normalize.
Proof. unfold eps_normalize. lra. Qed.

(** A finite vector whose norm is at least the clamp is divided by its
    norm. *)
Lemma normalize1_Fin (u : list R) :
  eps_normalize <= norm2 u ->
  normalize1 (map Fin u) = map Fin (map (fun x => x / norm2 u) u).
Proof.
  intros H. unfold normalize1. cbv zeta.
  replace (map spow2 (map Fin u)) with (map Fin (map (fun x => x * x) u))
    by (rewrite !map_map; reflexivity).
  rewrite ssum_Fin, ssqrt_Fin by apply Rsum_squares_nonneg.
  fold (norm2 u). cbn [lift1]. rewrite Rmax_right by exact H.
  rewrite !map_map. apply map_ext. intros x. unfold sdiv.
  pose proof eps_normalize_pos.
  destruct (Req_dec_T (norm2 u) 0); [lra | reflexivity].
Qed.

Lemma sdot_Fin (u v : list R) : sdot (map Fin u) (map Fin v) = Fin (dot u v).
Proof.
  unfold sdot, dot.
  replace (map (fun p => smul (fst p) (snd p)) (combine (map Fin u) (map Fin v)))
    with (map Fin (map (fun p => fst p * snd p) (combine u v))).
  - apply ssum_Fin.
  - rewrite map_map. revert v; induction u as [|a u IH]; intros [|b v]; cbn; auto.
    now rewrite IH.
Qed.

Lemma dot_cons (a b : R) (u v : list R) : dot (a :: u) (b :: v) = a * b + dot u v.
Proof. reflexivity. Qed.

Lemma dot_scaled (u v : list R) (n m : R) :
  n <> 0 -> m <> 0 ->
  dot (map (fun x => x / n) u) (map (fun x => x / m) v) = dot u v / (n * m).
Proof.
  intros Hn Hm.
  revert v; induction u as [|a u IH]; intros [|b v]; cbn [map];
    try (unfold dot; cbn; unfold Rdiv; ring).
  rewrite !dot_cons, IH. field. auto.
Qed.

(** The inner product of two normalized vectors is their cosine
    similarity. *)
Lemma normalized_inner_product_is_cosine (u v : list R) :
  eps_normalize <= norm2 u -> eps_normalize <= norm2 v ->
  sdot (normalize1 (map Fin u)) (normalize1 (map Fin v))
  = Fin (dot u v / (norm2 u * norm2 v)).
Proof.
  intros Hu Hv. pose proof eps_normalize_pos.
  rewrite !normalize1_Fin by assumption.
  rewrite sdot_Fin, dot_scaled by lra. reflexivity.
Qed.

(** ** C7: both losses are symmetric *)

(** C7.  Swapping the predicted and the target argument changes neither
    the normalized contrastive loss nor the VICReg loss (for [vicreg_loss]
    this includes the case in which it raises). *)
Theorem losses_symmetric :
  (forall predictions targets : Tensor3,
     je_loss predictions targets = je_loss targets predictions)
  /\ (forall x y : Tensor2, vicreg_loss x y = vicreg_loss y x).
Proof.
  split.
  - intros p t. unfold je_loss. cbv zeta.
    rewrite (mul_sum_last_comm (normalize p) (normalize t)).
    f_equal. f_equal. apply sadd_comm.
  - intros x y. unfold vicreg_loss. cbv zeta.
    rewrite (mse_loss_comm x y).
    destruct (off_diagonal (cov (center x))) as [ox|],
             (off_diagonal (cov (center y))) as [oy|]; auto.
    f_equal. f_equal; [f_equal|]; f_equal; apply sadd_comm.
Qed.


(** ** The off-diagonal view *)

Lemma chunks_firstn {A : Type} (m k N : nat) (l : list A) :
  (k * m <= N)%nat -> chunks m k (firstn N l) = chunks m k l.
Proof.
  revert N l; induction k as [|k IH]; intros N l H; simpl; auto.
  f_equal.
  - rewrite firstn_firstn. f_equal. lia.
  - rewrite skipn_firstn_comm. apply IH. simpl in H. lia.
Qed.

Lemma map_nth_range {A : Type} (d : A) (l : list A) (s len : nat) :
  (s + len <= length l)%nat ->
  map (fun j => nth j l d) (seq s len) = firstn len (skipn s l).
Proof.
  revert s l; induction len as [|len IH]; intros s l H; simpl.
  - reflexivity.
  - destruct (skipn s l) as [|x r] eqn:E.
    + apply (f_equal (@length A)) in E. rewrite length_skipn in E. simpl in E. lia.
    + simpl. f_equal.
      * rewrite <- (Nat.add_0_r s) at 1. rewrite <- nth_skipn, E. reflexivity.
      * rewrite IH by lia. f_equal.
        replace (S s) with (1 + s)%nat by lia. rewrite <- skipn_skipn, E.
        reflexivity.
Qed.

Lemma filter_neq_seq (i n : nat) :
  (i < n)%nat ->
  filter (fun j => negb (j =? i)%nat) (seq 0 n) = seq 0 i ++ seq (S i) (n - S i).
Proof.
  intros H. replace n with (i + S (n - S i))%nat at 1 by lia.
  rewrite seq_app, filter_app. cbn [seq filter Nat.add].
  rewrite Nat.eqb_refl. cbn [negb].
  f_equal.
  - apply forallb_filter_id. apply forallb_forall. intros j Hj.
    apply in_seq in Hj. apply negb_true_iff, Nat.eqb_neq. lia.
  - apply forallb_filter_id. apply forallb_forall. intros j Hj.
    apply in_seq in Hj. apply negb_true_iff, Nat.eqb_neq. lia.
Qed.

Lemma skipn_app_le {A : Type} (i : nat) (l1 l2 : list A) :
  (i <= length l1)%nat -> skipn i (l1 ++ l2) = skipn i l1 ++ l2.
Proof.
  intros H. rewrite skipn_app. replace (i - length l1)%nat with 0%nat by lia.
  reflexivity.
Qed.

Lemma skipn_app_exact {A : Type} (k : nat) (l1 l2 : list A) :
  skipn (length l1 + k) (l1 ++ l2) = skipn k l2.
Proof.
  rewrite skipn_app. rewrite skipn_all2 by lia.
  replace (length l1 + k - length l1)%nat with k by lia. reflexivity.
Qed.

Lemma tl_skipn {A : Type} (i : nat) (l : list A) : tl (skipn i l) = skipn (S i) l.
Proof.
  revert l; induction i as [|i IH]; intros [|x l]; simpl; auto.
Qed.

(** The view of [off_diagonal], started inside row [i] at its diagonal
    entry, returns the rest of that row and the following rows without
    their diagonal entries. *)
Lemma off_diagonal_suffix (n : nat) (rows : list (list scalar)) :
  forall i,
  rows <> [] ->
  Forall (fun r => length r = n) rows ->
  (i + length rows = n)%nat ->
  concat (map (@tl scalar)
              (chunks (n + 1) (length rows - 1) (skipn i (concat rows))))
  = skipn i (rows_without_diagonal i rows).
Proof.
  induction rows as [|r rows IH]; intros i Hne Hlen Hi; [congruence|].
  pose proof (Forall_inv Hlen) as Hr. cbv beta in Hr.
  pose proof (Forall_inv_tail Hlen) as Hrows.
  unfold rows_without_diagonal. cbn [length seq combine map concat fst snd].
  fold (rows_without_diagonal (S i) rows).
  destruct rows as [|r' rs].
  - cbn [length] in *. cbn [Nat.sub chunks map concat].
    unfold rows_without_diagonal. cbn [length seq combine map concat].
    rewrite app_nil_r.
    rewrite (skipn_all2 (n := S i)) by lia. rewrite app_nil_r.
    rewrite skipn_all2; [reflexivity|]. rewrite length_firstn. lia.
  - pose proof (Forall_inv Hrows) as Hr'. cbv beta in Hr'.
    assert (Hi' : (S i + length (r' :: rs) = n)%nat) by (cbn [length] in *; lia).
    specialize (IH (S i) ltac:(discriminate) Hrows Hi').
    replace (S (length (r' :: rs)) - 1)%nat with (S (length (r' :: rs) - 1))
      by (cbn [length]; lia).
    cbn [chunks map concat].
    cbn [concat] in IH |- *.
    rewrite (@skipn_app_le _ i r (r' ++ concat rs)) by lia.
    assert (Hsk : length (skipn i r) = (n - i)%nat) by (rewrite length_skipn; lia).
    replace (n + 1)%nat with (length (skipn i r) + S i)%nat at 1 3 by lia.
    rewrite firstn_app_2, skipn_app_exact.
    rewrite IH.
    (* the first chunk *)
    assert (Hfirst : firstn (S i) (r' ++ concat rs) = firstn (S i) r').
    { rewrite firstn_app. replace (S i - length r')%nat with 0%nat
        by (cbn [length] in *; lia).
      rewrite firstn_0, app_nil_r. reflexivity. }
    rewrite Hfirst.
    assert (Htl : tl (skipn i r ++ firstn (S i) r') = skipn (S i) r ++ firstn (S i) r').
    { rewrite <- tl_skipn. destruct (skipn i r) as [|x t] eqn:E.
      - simpl in Hsk. cbn [length] in *. lia.
      - reflexivity. }
    rewrite Htl.
    (* the right-hand side *)
    rewrite <- (app_assoc (firstn i r)).
    rewrite (@skipn_app_le _ i (firstn i r)) by (rewrite length_firstn; lia).
    rewrite (skipn_all2 (firstn i r)) by (rewrite length_firstn; lia).
    cbn [app]. rewrite <- app_assoc. f_equal.
    (* the following rows *)
    etransitivity; [|apply (firstn_skipn (S i))]. f_equal.
    unfold rows_without_diagonal.
    cbn [length seq combine map concat fst snd].
    rewrite <- app_assoc, firstn_app, firstn_firstn, Nat.min_id.
    rewrite length_firstn.
    replace (S i - Nat.min (S i) (length r'))%nat with 0%nat
      by (cbn [length] in *; lia).
    rewrite firstn_0, app_nil_r. reflexivity.
Qed.

Lemma combine_seq_nth_from {A : Type} (d : A) (l : list A) (s : nat) :
  combine (seq s (length l)) l
  = map (fun i => (i, nth (i - s) l d)) (seq s (length l)).
Proof.
  revert s; induction l as [|x l IH]; intros s; simpl; auto.
  rewrite Nat.sub_diag. f_equal. rewrite IH.
  apply map_ext_in. intros i Hi. apply in_seq in Hi.
  replace (i - s)%nat with (S (i - S s)) by lia. reflexivity.
Qed.

Lemma combine_seq_nth {A : Type} (d : A) (l : list A) :
  combine (seq 0 (length l)) l = map (fun i => (i, nth i l d)) (seq 0 (length l)).
Proof.
  rewrite (combine_seq_nth_from d l 0). apply map_ext. intros i.
  now rewrite Nat.sub_0_r.
Qed.

Lemma rows_without_diagonal_entries (c : Tensor2) :
  square c -> rows_without_diagonal 0 (data2 c) = off_diagonal_entries c.
Proof.
  intros (_ & Hlen & Hrows).
  unfold rows_without_diagonal, off_diagonal_entries. cbv zeta.
  rewrite (combine_seq_nth []), map_map, Hlen. f_equal.
  apply map_ext_in. intros i Hi. apply in_seq in Hi. cbn [fst snd].
  assert (Hr : length (nth i (data2 c) []) = fst (shape2 c)).
  { rewrite Forall_forall in Hrows. apply Hrows. apply nth_In. lia. }
  rewrite filter_neq_seq by lia. rewrite map_app. unfold entry.
  rewrite !map_nth_range by lia.
  rewrite skipn_0. f_equal.
  symmetry. apply firstn_all2. rewrite length_skipn. lia.
Qed.

(** [off_diagonal] returns the off-diagonal entries of a square matrix. *)
Lemma off_diagonal_correct (c : Tensor2) :
  square c -> (1 <= fst (shape2 c))%nat ->
  off_diagonal c = Some (off_diagonal_entries c).
Proof.
  intros Hsq Hn. pose proof Hsq as (_ & Hlen & Hrows).
  unfold off_diagonal. cbv zeta.
  set (n := fst (shape2 c)) in *.
  replace (n =? 0)%nat with false by (symmetry; apply Nat.eqb_neq; lia).
  assert (HL : length (concat (data2 c)) = (n * n)%nat).
  { rewrite (@length_concat_uniform _ n), Hlen; auto.
    intros r Hr. rewrite Forall_forall in Hrows. now apply Hrows. }
  rewrite removelast_firstn_len, HL.
  rewrite length_firstn, HL.
  replace (Nat.min (Nat.pred (n * n)) (n * n) =? (n - 1) * (n + 1))%nat with true
    by (symmetry; apply Nat.eqb_eq; nia).
  cbn [negb]. f_equal.
  rewrite chunks_firstn by nia.
  assert (Hne : data2 c <> []).
  { intros E. rewrite E in Hlen. simpl in Hlen. lia. }
  assert (Hi0 : (0 + length (data2 c) = n)%nat) by lia.
  pose proof (@off_diagonal_suffix n (data2 c) 0%nat Hne Hrows Hi0) as S.
  rewrite Hlen, !skipn_0 in S. rewrite S.
  now apply rows_without_diagonal_entries.
Qed.

Lemma cov_square (x : Tensor2) : square (cov x).
Proof.
  unfold square, cov. cbn [shape2 data2 fst snd].
  split; [reflexivity|]. split.
  - now rewrite length_map, length_seq.
  - apply Forall_forall. intros r Hr. apply in_map_iff in Hr as (k & <- & _).
    now rewrite length_map, length_seq.
Qed.

Lemma off_diagonal_cov (x : Tensor2) :
  (1 <= snd (shape2 x))%nat ->
  off_diagonal (cov x) = Some (off_diagonal_entries (cov x)).
Proof.
  intros H. apply off_diagonal_correct; [apply cov_square | exact H].
Qed.


(** ** Two identical rows *)

Lemma var_dim0_two_zero_rows : var_dim0 two_zero_rows = [Fin 0].
Proof.
  unfold var_dim0, two_zero_rows, column, svar, smean. cbn.
  do 2 f_equal. field.
Qed.

(** ** C8: batch or time size at most one *)

Lemma smean_all_NaN (l : list scalar) :
  Forall (fun a => a = NaN) l -> smean l = NaN.
Proof.
  intros H. unfold smean. destruct H as [|a l Ha Hl].
  - reflexivity.
  - subst a. reflexivity.
Qed.

Lemma svar_short (l : list scalar) : (length l <= 1)%nat -> svar l = NaN.
Proof.
  intros H. unfold svar. cbv zeta.
  replace (length l - 1)%nat with 0%nat by lia. apply sdiv_count_zero.
Qed.

(** With at most one sample the sum of the squared deviations is zero
    (or NaN), so the variance is the quotient [0 / 0]. *)
Lemma svar_short_numerator (l : list scalar) :
  (length l <= 1)%nat ->
  let s := ssum (map (fun x => spow2 (ssub x (smean l))) l) in
  s = Fin 0 \/ s = NaN.
Proof.
  intros H. destruct l as [|a [|b l]]; [| |simpl in H; lia].
  - left. reflexivity.
  - destruct a as [x|]; [left | right; reflexivity].
    cbn. f_equal. field.
Qed.

(** The variance over a batch of at most one row is NaN in every
    feature. *)
Lemma var_dim0_short (x : Tensor2) :
  (length (data2 x) <= 1)%nat -> Forall (fun v => v = NaN) (var_dim0 x).
Proof.
  intros H. apply Forall_forall. intros v Hv.
  unfold var_dim0 in Hv. apply in_map_iff in Hv as (d & <- & _).
  apply svar_short. unfold column. now rewrite length_map.
Qed.

(** The standard deviation over at most one time step is NaN in every
    entry. *)
Lemma std_dim1_short (x : Tensor3) :
  Forall (fun ex => (length ex <= 1)%nat) (data3 x) ->
  Forall (fun a => a = NaN) (concat (std_dim1 x)).
Proof.
  intros H. apply Forall_forall. intros a Ha.
  apply in_concat in Ha as (row & Hrow & Ha).
  unfold std_dim1 in Hrow. apply in_map_iff in Hrow as (ex & <- & Hex).
  apply in_map_iff in Ha as (d & <- & _).
  unfold sstd. rewrite svar_short; [reflexivity|].
  rewrite length_map. rewrite Forall_forall in H. now apply H.
Qed.

(** C8 (counterexample).  On a batch of a single row [vicreg_loss]
    returns NaN, and on a sequence of a single time step [je_loss] returns
    NaN: neither raises nor returns a finite value. *)
Lemma degenerate_sizes_return_nan :
  vicreg_loss single_row single_row = Some NaN /\
  je_loss single_step single_step = NaN.
Proof.
  split; [reflexivity|].
  unfold je_loss. cbv zeta.
  rewrite (smean_all_NaN (l := concat (std_dim1 (normalize single_step)))).
  - cbn [ssub sabs lift1 lift2 sadd]. rewrite smul_NaN_r. apply sadd_NaN_r.
  - apply std_dim1_short. repeat constructor.
Qed.

(** C8 (amended).  The losses do not check the degenerate size.  On
    batches of at most one row (and at least one feature) [vicreg_loss]
    returns NaN without raising; on sequences of at most one time step
    [je_loss] returns NaN. *)
Theorem degenerate_size_unguarded :
  (forall x y : Tensor2,
     shape2 y = shape2 x ->
     length (data2 x) = fst (shape2 x) ->
     (fst (shape2 x) <= 1)%nat -> (1 <= snd (shape2 x))%nat ->
     vicreg_loss x y = Some NaN)
  /\ (forall (predictions targets : Tensor3) (B T D : nat),
        shape3 predictions = (B, T, D) ->
        Forall (fun ex => length ex = T) (data3 predictions) ->
        (T <= 1)%nat ->
        je_loss predictions targets = NaN).
Proof.
  split.
  - intros x y Hs Hlen HN HD. unfold vicreg_loss. cbv zeta.
    rewrite (off_diagonal_cov (center x)) by exact HD.
    rewrite (off_diagonal_cov (center y)) by (cbn [center shape2]; now rewrite Hs).
    cbv beta iota. f_equal.
    assert (Hv : smean (map (fun s => srelu (ssub (Fin 1) s)) (std_eps x)) = NaN).
    { apply smean_all_NaN. unfold std_eps. rewrite map_map.
      apply Forall_forall. intros a Ha. apply in_map_iff in Ha as (v & <- & Hv).
      pose proof (var_dim0_short x) as Hshort. rewrite Forall_forall in Hshort.
      rewrite (Hshort ltac:(lia) v Hv). reflexivity. }
    rewrite Hv. cbn [sadd lift2]. rewrite smul_NaN_r, sadd_NaN_r. reflexivity.
  - intros p t B T D Hs Hlen HT. unfold je_loss. cbv zeta.
    rewrite (smean_all_NaN (l := concat (std_dim1 (normalize p)))).
    + cbn [ssub sabs lift1 lift2 sadd]. rewrite smul_NaN_r. apply sadd_NaN_r.
    + apply std_dim1_short. unfold normalize. cbn [data3].
      apply Forall_forall. intros ex Hex. apply in_map_iff in Hex as (ex0 & <- & H0).
      rewrite length_map. rewrite Forall_forall in Hlen. rewrite (Hlen ex0 H0).
      exact HT.
Qed.

Lemma degenerate_size_unguarded_witness :
  (fst (shape2 single_row) <= 1)%nat /\
  (1 <= snd (shape2 single_row))%nat /\
  vicreg_loss single_row single_row = Some NaN /\
  (snd (fst (shape3 single_step)) <= 1)%nat /\
  je_loss single_step single_step = NaN.
Proof.
  split; [cbn; lia|]. split; [cbn; lia|]. split.
  - apply (proj1 degenerate_size_unguarded single_row single_row);
      cbn; auto.
  - split; [cbn; lia|].
    apply (proj2 degenerate_size_unguarded single_step single_step
             1%nat 1%nat 1%nat); auto.
    repeat constructor.
Defined.

(** ** Checks of the embedding on small inputs *)

(** A convolution with one input and one output channel on a [3 x 3]
    image: the output is [2 x 2], and its first entry reads the top-left
    [2 x 2] block of the image through the bottom-right block of the
    kernel (the rest of the window lies in the padding). *)
Example conv2d_corner (w : nat -> R) (b x00 x01 x02 x10 x11 x12 x20 x21 x22 : R) :
  let m := Conv2d_init 1 1 w (fun _ => b) in
  exists y01 y10 y11,
    Conv2d_forward1 m [[[x00; x01; x02]; [x10; x11; x12]; [x20; x21; x22]]]
    = Some [[[b + (w 4%nat * x00 + w 5%nat * x01 + w 7%nat * x10 + w 8%nat * x11);
              y01];
             [y10; y11]]].
Proof.
  intros m. do 3 eexists.
  unfold Conv2d_forward1. cbn -[conv_at]. do 4 f_equal.
  unfold conv_at, weight_at, sum_upto, pixel. cbn. ring.
Qed.

(** [off_diagonal] on a [3 x 3] matrix returns its six off-diagonal
    entries in row-major order. *)
Example off_diagonal_3x3 (a b c d e f g h i : scalar) :
  off_diagonal (mkTensor2 (3, 3)%nat [[a; b; c]; [d; e; f]; [g; h; i]])
  = Some [b; c; d; f; g; h].
Proof. reflexivity. Qed.

Lemma image_has_shape_repeat (C H W : nat) (v : R) :
  image_has_shape C H W (repeat (repeat (repeat v W) H) C) = true.
Proof.
  unfold image_has_shape. rewrite repeat_length, Nat.eqb_refl. cbn [andb].
  apply forallb_forall. intros ch Hch. apply repeat_spec in Hch. subst ch.
  rewrite repeat_length, Nat.eqb_refl. cbn [andb].
  apply forallb_forall. intros row Hrow. apply repeat_spec in Hrow. subst row.
  rewrite repeat_length. apply Nat.eqb_refl.
Qed.

(** The dry run of [Encoder.__init__]: on a zero input of the configured
    size, [conv_net] returns [conv_output_size] entries. *)
Lemma conv_output_size_dry_run (input_channels H W repr_dim : nat)
    (draw : nat -> nat -> R) :
  (1 <= input_channels)%nat -> (1 <= H)%nat -> (1 <= W)%nat ->
  exists y,
    conv_net1 (Encoder_init input_channels (H, W) repr_dim draw)
              (repeat (repeat (repeat 0 W) H) input_channels) = Some y /\
    length (Flatten y) = conv_output_size (H, W).
Proof.
  intros HC HH HW. unfold conv_net1.
  set (e := Encoder_init input_channels (H, W) repr_dim draw).
  destruct (@Conv2d_forward1_Some (conv_net_0 e) input_channels H W
              (repeat (repeat (repeat 0 W) H) input_channels))
    as (a & -> & Ea); auto using image_has_shape_repeat.
  cbn [bind].
  destruct (@Conv2d_forward1_Some (conv_net_2 e) _ _ _ (ReLU_image a)
              (image_has_shape_ReLU _ _ _ _ Ea))
    as (b & -> & Eb); auto using out_size_pos; try (cbn; lia).
  cbn [bind].
  destruct (@Conv2d_forward1_Some (conv_net_4 e) _ _ _ (ReLU_image b)
              (image_has_shape_ReLU _ _ _ _ Eb))
    as (c & -> & Ec); auto using out_size_pos; try (cbn; lia).
  cbn [bind]. eexists. split; [reflexivity|].
  rewrite (Flatten_length _ _ _ _ (image_has_shape_ReLU _ _ _ _ Ec)).
  reflexivity.
Qed.

(** * Further properties of the code *)

(** ** More on the synchronization of the target encoder *)

Lemma ema_data_step (tau : R) (n : nat) (t o : list R) :
  map (fun p => fst p * tau + snd p * (1 - tau))
      (combine (map (fun p => snd p + tau ^ n * (fst p - snd p)) (combine t o)) o)
  = map (fun p => snd p + tau ^ S n * (fst p - snd p)) (combine t o).
Proof.
  revert o; induction t as [|a t IH]; intros [|b o]; cbn [combine map]; auto.
  rewrite IH. f_equal. cbn [fst snd pow]. ring.
Qed.

Lemma ema_data_first (tau : R) (t o : list R) :
  map (fun p => fst p * tau + snd p * (1 - tau)) (combine t o)
  = map (fun p => snd p + tau ^ 1 * (fst p - snd p)) (combine t o).
Proof.
  apply map_ext. intros [a b]. cbn [fst snd pow]. ring.
Qed.

Lemma sync_times_online (n : nat) (tau : R) (self : JEPAModel) :
  online_encoder (sync_times n tau self) = online_encoder self.
Proof.
  induction n as [|n IH]; [reflexivity|]. exact IH.
Qed.

Lemma sync_times_target_length (n : nat) (tau : R) (self : JEPAModel) :
  length (Encoder_parameters (target_encoder (sync_times n tau self))) = 8%nat.
Proof. apply Encoder_parameters_length. Qed.

Lemma map_combine_map_snd {A B C : Type} (f : A * B -> C) (g : B -> B) (l1 : list A)
    (l2 : list B) :
  map (fun ab => f (fst ab, g (snd ab))) (combine l1 l2)
  = map f (combine l1 (map g l2)).
Proof.
  revert l2; induction l1 as [|a l1 IH]; intros [|b l2]; cbn; auto.
  now rewrite IH.
Qed.

(** X1.  After [n + 1] synchronizations with the same [tau], every entry
    of the target encoder is [online + tau^(n+1) * (target - online)] of
    the entries before the first one; the online encoder and the predictor
    are untouched. *)
Theorem repeated_sync_closed_form (n : nat) (tau : R) (self : JEPAModel) :
  map data (Encoder_parameters (target_encoder (sync_times (S n) tau self)))
  = map (fun ot =>
           map (fun p => snd p + tau ^ S n * (fst p - snd p))
               (combine (data (snd ot)) (data (fst ot))))
        (combine (Encoder_parameters (online_encoder self))
                 (Encoder_parameters (target_encoder self)))
  /\ online_encoder (sync_times (S n) tau self) = online_encoder self
  /\ predictor (sync_times (S n) tau self) = predictor self.
Proof.
  split; [|split; [apply sync_times_online|]].
  2:{ induction n as [|n IH]; [reflexivity|]. exact IH. }
  induction n as [|n IH].
  - change (sync_times 1 tau self) with (_update_target_encoder self tau).
    rewrite target_parameters_after_update, ema_loop_zip by reflexivity.
    rewrite map_map. apply map_ext. intros [o t].
    cbn [fst snd ema_param data]. apply ema_data_first.
  - change (sync_times (S (S n)) tau self)
      with (_update_target_encoder (sync_times (S n) tau self) tau).
    rewrite target_parameters_after_update.
    rewrite ema_loop_zip
      by (rewrite !Encoder_parameters_length; reflexivity).
    rewrite map_map. cbn [fst snd ema_param data].
    rewrite sync_times_online.
    set (os := Encoder_parameters (online_encoder self)) in *.
    set (ts := Encoder_parameters (target_encoder self)) in *.
    set (ts' := Encoder_parameters (target_encoder (sync_times (S n) tau self))) in *.
    assert (Hl : length os = length ts') by reflexivity.
    assert (Hl0 : length os = length ts) by reflexivity.
    clearbody os ts ts'.
    revert ts ts' Hl Hl0 IH.
    induction os as [|o os IHo]; intros [|t ts] [|t' ts'] Hl Hl0 IH;
      try discriminate; cbn [combine map] in *; auto.
    injection IH as E1 E2. f_equal.
    + cbn [fst snd]. rewrite E1. exact (ema_data_step tau (S n) (data t) (data o)).
    + apply IHo; auto.
Qed.

Lemma ema_data_tau_zero (t o : list R) :
  length t = length o ->
  map (fun p => fst p * 0 + snd p * (1 - 0)) (combine t o) = o.
Proof.
  revert o; induction t as [|a t IH]; intros [|b o] H; simpl in *;
    try discriminate; auto.
  f_equal; [ring | apply IH; lia].
Qed.

Lemma Encoder_init_sizes (ic : nat) (isz : nat * nat) (rd : nat)
    (draw : nat -> nat -> R) :
  map (fun p => length (data p)) (Encoder_parameters (Encoder_init ic isz rd draw))
  = [ (32 * ic * kernel_size * kernel_size)%nat; 32%nat;
      (64 * 32 * kernel_size * kernel_size)%nat; 64%nat;
      (128 * 64 * kernel_size * kernel_size)%nat; 128%nat;
      (rd * conv_output_size isz)%nat; rd ].
Proof.
  unfold Encoder_init, Encoder_parameters, Conv2d_init, Linear_init.
  cbn [conv_net_0 conv_net_2 conv_net_4 fc_1 conv_weight conv_bias
       lin_weight lin_bias map].
  rewrite !new_param_data_length. reflexivity.
Qed.

Lemma same_sizes_init (dev : string) (rd ad : nat) (mom : R)
    (d_o d_t d_p : nat -> nat -> R) :
  same_sizes (JEPAModel_init dev rd ad mom d_o d_t d_p).
Proof.
  unfold same_sizes.
  rewrite <- (map_map data (@length R)).
  rewrite init_target_data. rewrite map_map.
  change (online_encoder (JEPAModel_init dev rd ad mom d_o d_t d_p))
    with (Encoder_init 2 (65, 65)%nat rd d_o).
  now rewrite !Encoder_init_sizes.
Qed.

(** X2.  A synchronization with [tau = 0] copies the online encoder:
    afterwards every target parameter holds the values of its online
    counterpart. *)
Theorem sync_tau_zero_copies (self : JEPAModel) :
  same_sizes self ->
  map data (Encoder_parameters (target_encoder (_update_target_encoder self 0)))
  = map data (Encoder_parameters (online_encoder self)).
Proof.
  unfold same_sizes. intros H.
  rewrite target_parameters_after_update, ema_loop_zip by reflexivity.
  rewrite map_map. cbn [fst snd ema_param data].
  set (os := Encoder_parameters (online_encoder self)) in *.
  set (ts := Encoder_parameters (target_encoder self)) in *.
  clearbody os ts. revert ts H.
  induction os as [|o os IH]; intros [|t ts] H; simpl in *; try discriminate; auto.
  injection H as H1 H2. f_equal; [now apply ema_data_tau_zero | now apply IH].
Qed.

Lemma sync_tau_zero_copies_witness :
  same_sizes example_model /\
  map data (Encoder_parameters (target_encoder (_update_target_encoder example_model 0)))
  = map data (Encoder_parameters (online_encoder example_model)).
Proof.
  split; [apply same_sizes_init|].
  apply (@sync_tau_zero_copies example_model). apply same_sizes_init.
Defined.

(** ** Errors of the layers *)

Lemma mapM_None {A B : Type} (f : A -> option B) (l : list A) (x : A) :
  In x l -> f x = None -> mapM f l = None.
Proof.
  induction l as [|a l IH]; intros Hin Hx; [contradiction|].
  simpl. destruct Hin as [->|Hin].
  - now rewrite Hx.
  - destruct (f a); [|reflexivity]. now rewrite IH.
Qed.

Lemma mapM_length {A B : Type} (f : A -> option B) (l : list A) (ys : list B) :
  mapM f l = Some ys -> length ys = length l.
Proof.
  revert ys; induction l as [|a l IH]; intros ys E; simpl in E.
  - now injection E as <-.
  - destruct (f a); [|discriminate]. destruct (mapM f l); [|discriminate].
    injection E as <-. simpl. f_equal. now apply IH.
Qed.

Lemma Linear_forward1_None (m : Linear) (x : list R) :
  length x <> in_features m -> Linear_forward1 m x = None.
Proof.
  intros H. unfold Linear_forward1.
  apply Nat.eqb_neq in H. now rewrite H.
Qed.

Lemma Conv2d_forward1_channels (m : Conv2d) (x : list (list (list R))) :
  length x <> in_channels m -> Conv2d_forward1 m x = None.
Proof.
  intros H. unfold Conv2d_forward1. cbv zeta.
  apply Nat.eqb_neq in H. now rewrite H.
Qed.

Lemma Conv2d_forward1_empty (m : Conv2d) (C H W : nat) (x : list (list (list R))) :
  image_has_shape C H W x = true -> (1 <= C)%nat ->
  (H = 0 \/ W = 0)%nat -> Conv2d_forward1 m x = None.
Proof.
  intros E HC HW. apply image_has_shape_inv in E as [E1 E2].
  unfold Conv2d_forward1. cbv zeta.
  destruct (negb (length x =? in_channels m)%nat); [reflexivity|].
  destruct x as [|ch x]; [simpl in E1; lia|].
  destruct (E2 ch (or_introl eq_refl)) as [E3 E4]. cbn [hd].
  destruct ch as [|row ch].
  - reflexivity.
  - cbn [hd]. rewrite (E4 row (or_introl eq_refl)).
    destruct HW as [->| ->]; [simpl in E3; lia|].
    rewrite orb_true_r. reflexivity.
Qed.

(** Frames that do not fit are rejected. *)
Lemma Encoder_forward1_rejects (e : Encoder) (C H W : nat)
    (x : list (list (list R))) :
  encoder_chain_ok e = true ->
  image_has_shape C H W x = true ->
  frames_fit e C H W = false ->
  Encoder_forward1 e x = None.
Proof.
  intros Hc Hx Hf. unfold encoder_chain_ok in Hc. split_andb.
  pose proof (image_has_shape_inv _ _ _ _ Hx) as [HC _].
  unfold Encoder_forward1, conv_net1, fc1.
  destruct (Nat.eq_dec C (in_channels (conv_net_0 e))) as [EC|EC].
  2:{ rewrite Conv2d_forward1_channels by lia. reflexivity. }
  destruct (Nat.eq_dec H 0) as [EH|EH].
  { rewrite (@Conv2d_forward1_empty (conv_net_0 e) C H W x Hx) by lia. reflexivity. }
  destruct (Nat.eq_dec W 0) as [EW|EW].
  { rewrite (@Conv2d_forward1_empty (conv_net_0 e) C H W x Hx) by lia. reflexivity. }
  destruct (@Conv2d_forward1_Some (conv_net_0 e) C H W x) as (a & -> & Ea);
    auto; try lia.
  cbn [bind].
  destruct (@Conv2d_forward1_Some (conv_net_2 e) _ _ _ (ReLU_image a)
              (image_has_shape_ReLU _ _ _ _ Ea))
    as (b & -> & Eb); auto using out_size_pos.
  cbn [bind].
  destruct (@Conv2d_forward1_Some (conv_net_4 e) _ _ _ (ReLU_image b)
              (image_has_shape_ReLU _ _ _ _ Eb))
    as (c & -> & Ec); auto using out_size_pos.
  cbn [bind].
  rewrite Linear_forward1_None; [reflexivity|].
  rewrite (Flatten_length _ _ _ _ (image_has_shape_ReLU _ _ _ _ Ec)).
  unfold frames_fit in Hf.
  replace (C =? in_channels (conv_net_0 e))%nat with true in Hf
    by (symmetry; now apply Nat.eqb_eq).
  replace (1 <=? H)%nat with true in Hf by (symmetry; apply Nat.leb_le; lia).
  replace (1 <=? W)%nat with true in Hf by (symmetry; apply Nat.leb_le; lia).
  cbn [andb] in Hf. now apply Nat.eqb_neq in Hf.
Qed.

(** X3.  An encoder whose convolutions fit one another accepts exactly
    the frames that fit it (channel count of the first convolution, no
    empty axis, flattened size of the linear layer), and returns vectors of
    the width of its linear layer. *)
Theorem Encoder_accepts_iff (e : Encoder) (C H W : nat)
    (x : list (list (list R))) :
  encoder_chain_ok e = true ->
  image_has_shape C H W x = true ->
  (Encoder_forward1 e x <> None <-> frames_fit e C H W = true)
  /\ (forall y, Encoder_forward1 e x = Some y -> length y = out_features (fc_1 e)).
Proof.
  intros Hc Hx. split; [split|].
  - intros Hne. destruct (frames_fit e C H W) eqn:Hf; [reflexivity|].
    elim Hne. now apply Encoder_forward1_rejects with (C := C) (H := H) (W := W).
  - intros Hf. unfold encoder_chain_ok in Hc. unfold frames_fit in Hf. split_andb.
    destruct (@Encoder_forward1_Some e C H W x) as (y & -> & _); auto; try lia.
    discriminate.
  - intros y Ey. unfold Encoder_forward1, fc1 in Ey.
    destruct (conv_net1 e x) as [c|]; [|discriminate]. cbn [bind] in Ey.
    destruct (Linear_forward1 (fc_1 e) (Flatten c)) as [h|] eqn:Eh; [|discriminate].
    cbn [bind] in Ey. injection Ey as <-. unfold ReLU_vec. rewrite length_map.
    unfold Linear_forward1 in Eh.
    destruct (negb (length (Flatten c) =? in_features (fc_1 e))%nat); [discriminate|].
    injection Eh as <-. now rewrite length_map, length_seq.
Qed.

Lemma Encoder_accepts_iff_witness :
  encoder_chain_ok (online_encoder example_model) = true /\
  image_has_shape 2 65 65 example_frame = true /\
  (Encoder_forward1 (online_encoder example_model) example_frame <> None
   <-> frames_fit (online_encoder example_model) 2 65 65 = true) /\
  (forall y, Encoder_forward1 (online_encoder example_model) example_frame = Some y ->
             length y = out_features (fc_1 (online_encoder example_model))).
Proof.
  split; [lazy; reflexivity|]. split; [lazy; reflexivity|].
  apply (@Encoder_accepts_iff (online_encoder example_model) 2 65 65 example_frame);
    lazy; reflexivity.
Defined.

(** ** Errors of the predictor *)

Lemma Linear_forward1_iff (m : Linear) (x : list R) :
  (Linear_forward1 m x <> None <-> length x = in_features m) /\
  (forall y, Linear_forward1 m x = Some y -> length y = out_features m).
Proof.
  unfold Linear_forward1.
  destruct (length x =? in_features m)%nat eqn:E; cbn [negb].
  - apply Nat.eqb_eq in E. split; [split; [auto | discriminate]|].
    intros y Ey. injection Ey as <-. now rewrite length_map, length_seq.
  - apply Nat.eqb_neq in E. split; [split; congruence | discriminate].
Qed.

Lemma mapM_not_None {A B : Type} (f : A -> option B) (l : list A) :
  mapM f l <> None <-> Forall (fun x => f x <> None) l.
Proof.
  induction l as [|a l IH]; cbn.
  - split; [constructor | discriminate].
  - destruct (f a) as [y|] eqn:Ea.
    + destruct (mapM f l) as [ys|]; cbn.
      * split; [intros _ | discriminate]. constructor; [congruence|].
        apply IH. discriminate.
      * split; [congruence|]. intros HF. apply IH. exact (Forall_inv_tail HF).
    + split; [congruence|]. intros HF. apply Forall_inv in HF. congruence.
Qed.

Lemma mlp1_iff (p : Predictor) (x : list R) :
  out_features (mlp_0 p) = in_features (mlp_2 p) ->
  (mlp1 p x <> None <-> length x = in_features (mlp_0 p)) /\
  (forall y, mlp1 p x = Some y -> length y = out_features (mlp_2 p)).
Proof.
  intros Hc. unfold mlp1.
  destruct (Linear_forward1_iff (mlp_0 p) x) as [Hacc Hlen].
  destruct (Linear_forward1 (mlp_0 p) x) as [h|]; cbn [bind].
  - destruct (Linear_forward1_iff (mlp_2 p) (ReLU_vec h)) as [Hacc2 Hlen2].
    split; [|exact Hlen2]. split; [intros _; apply Hacc; discriminate|].
    intros _. apply Hacc2. unfold ReLU_vec. rewrite length_map, <- Hc.
    now apply Hlen.
  - split; [|discriminate]. split; [congruence|].
    intros E. apply Hacc in E. congruence.
Qed.

(** X4.  On a batch with at least one row, a predictor whose two linear
    layers fit one another accepts exactly the pairs of batches of the
    same size whose concatenated rows have the input width of the first
    layer; any other pair raises.  On success there is one output row per
    input row, of the width of the second layer.  (The empty batch is left
    out: as a list of rows it carries no width.) *)
Theorem Predictor_accepts_iff (p : Predictor) (repr action : list (list R)) :
  out_features (mlp_0 p) = in_features (mlp_2 p) ->
  repr <> [] ->
  (Predictor_forward p repr action <> None <->
   length repr = length action /\
   Forall (fun ra => (length (fst ra) + length (snd ra))%nat = in_features (mlp_0 p))
          (combine repr action)) /\
  (forall out, Predictor_forward p repr action = Some out ->
     length out = length repr /\
     Forall (fun v => length v = out_features (mlp_2 p)) out).
Proof.
  intros Hc _. unfold Predictor_forward, cat_last.
  destruct (length repr =? length action)%nat eqn:El; cbn [negb bind].
  - apply Nat.eqb_eq in El. split.
    + rewrite mapM_not_None. rewrite Forall_map. split.
      * intros H. split; [exact El|]. eapply Forall_impl; [|exact H].
        cbv beta. intros [r a] Hra. cbn [fst snd] in *.
        apply (proj1 (mlp1_iff p (r ++ a) Hc)) in Hra.
        now rewrite length_app in Hra.
      * intros [_ H]. eapply Forall_impl; [|exact H].
        cbv beta. intros [r a] Hra. cbn [fst snd] in *.
        apply (proj1 (mlp1_iff p (r ++ a) Hc)). now rewrite length_app.
    + intros out E. split.
      * rewrite (mapM_length _ _ E), length_map, length_combine. lia.
      * eapply (@mapM_Forall _ _ (mlp1 p)); [|exact E].
        intros x y _ Exy. now apply (proj2 (mlp1_iff p x Hc)).
  - apply Nat.eqb_neq in El. split; [|discriminate].
    split; [congruence | intros [E _]; congruence].
Qed.

Lemma Predictor_accepts_iff_witness :
  out_features (mlp_0 (predictor example_model))
  = in_features (mlp_2 (predictor example_model)) /\
  [repeat 0 256] <> [] /\
  Predictor_forward (predictor example_model) [repeat 0 256] [[0; 0]] <> None.
Proof.
  split; [reflexivity|]. split; [discriminate|].
  apply (proj2 (proj1 (@Predictor_accepts_iff (predictor example_model)
                         [repeat 0 256] [[0; 0]] eq_refl ltac:(discriminate)))).
  split; [reflexivity|].
  constructor; [|constructor]. cbn [fst snd]. rewrite repeat_length. reflexivity.
Defined.

(** ** Index errors of the rollout *)

Lemma unroll_index_error (self : JEPAModel) (ge : bool) (a : Actions) (ts : list nat) :
  forall cur acc,
  Exists (fun t => (snd (fst (actions_shape a)) <= t)%nat) ts ->
  unroll self ge a ts cur acc = None.
Proof.
  induction ts as [|t ts IH]; intros cur acc Hex; [inversion Hex|].
  cbn [unroll]. unfold select_time at 1.
  destruct (t <? snd (fst (actions_shape a)))%nat eqn:Et; [|reflexivity].
  cbn [bind].
  destruct (Predictor_forward _ _ _) as [pred|]; [|reflexivity]. cbn [bind].
  apply IH. apply Exists_cons in Hex as [Hex|Hex]; [|exact Hex].
  apply Nat.ltb_lt in Et. lia.
Qed.

(** X5.  [forward] raises IndexError on states without a time step and
    on actions with fewer than [T - 1] time steps. *)
Theorem forward_index_errors (self : JEPAModel) (grad_enabled : bool)
    (states : States) (actions : Actions) (B T C H W : nat) :
  states_shape states = (B, T, C, H, W) ->
  (T = 0 \/ snd (fst (actions_shape actions)) < T - 1)%nat ->
  forward self grad_enabled states actions = None.
Proof.
  intros Hs Hcase. unfold forward. rewrite Hs.
  destruct Hcase as [-> | Hshort]; [reflexivity|].
  destruct (select_time T [] (states_data states) 0) as [s0|]; [|reflexivity].
  cbn [bind].
  destruct (Encoder_forward (online_encoder self) s0) as [enc|]; [|reflexivity].
  cbn [bind]. rewrite unroll_index_error; [reflexivity|].
  apply Exists_exists. exists (snd (fst (actions_shape actions))).
  split; [apply in_seq; lia | lia].
Qed.

Lemma forward_index_errors_witness :
  states_shape example_states = (1, 2, 2, 65, 65)%nat /\
  (snd (fst (actions_shape (mkActions (1, 0, 2)%nat [[]]))) < 2 - 1)%nat /\
  forward example_model true example_states (mkActions (1, 0, 2)%nat [[]]) = None.
Proof.
  split; [reflexivity|]. split; [cbn; lia|].
  apply (@forward_index_errors example_model true example_states
           (mkActions (1, 0, 2)%nat [[]]) 1 2 2 65 65); [reflexivity|].
  right. cbn. lia.
Defined.

(** ** Target representations, frame by frame *)

Lemma mapM_app {A B : Type} (f : A -> option B) (l1 l2 : list A)
    (y1 y2 : list B) :
  mapM f l1 = Some y1 -> mapM f l2 = Some y2 ->
  mapM f (l1 ++ l2) = Some (y1 ++ y2).
Proof.
  revert y1; induction l1 as [|a l1 IH]; intros y1 E1 E2; simpl in *.
  - injection E1 as <-. exact E2.
  - destruct (f a); [|discriminate]. destruct (mapM f l1) eqn:E; [|discriminate].
    injection E1 as <-. rewrite (IH l eq_refl E2). reflexivity.
Qed.

Lemma mapM_concat {A B : Type} (f : A -> option B) (ls : list (list A))
    (yss : list (list B)) :
  mapM (mapM f) ls = Some yss -> mapM f (concat ls) = Some (concat yss).
Proof.
  revert yss; induction ls as [|l ls IH]; intros yss E; simpl in *.
  - now injection E as <-.
  - destruct (mapM f l) as [ys|] eqn:El; [|discriminate].
    destruct (mapM (mapM f) ls) as [yss'|]; [|discriminate].
    injection E as <-. simpl. apply mapM_app; auto.
Qed.

Lemma mapM_frame {A B : Type} (f : list A -> option (list B)) (t : nat)
    (ls : list (list (list A))) (yss : list (list (list B))) :
  mapM (mapM f) ls = Some yss ->
  Forall (fun l => (t < length l)%nat) ls ->
  mapM f (frame t ls) = Some (frame t yss).
Proof.
  revert yss; induction ls as [|l ls IH]; intros yss E Ht; simpl in *.
  - now injection E as <-.
  - destruct (mapM f l) as [ys|] eqn:El; [|discriminate].
    destruct (mapM (mapM f) ls) as [yss'|] eqn:Els; [|discriminate].
    injection E as <-.
    pose proof (Forall_inv Ht) as Hl. pose proof (Forall_inv_tail Ht) as Hls.
    cbv beta in Hl.
    unfold frame in *. cbn [map].
    assert (Hn : f (nth t l []) = Some (nth t ys [])).
    { clear - El Hl. revert t ys El Hl.
      induction l as [|a l IHl]; intros t ys El Hl; simpl in *; [lia|].
      destruct (f a) as [y|] eqn:Ea; [|discriminate].
      destruct (mapM f l) as [ys'|] eqn:E'; [|discriminate].
      injection El as <-. destruct t as [|t]; [exact Ea|].
      simpl. apply IHl; auto. lia. }
    rewrite Hn, (IH yss' eq_refl Hls). reflexivity.
Qed.

Lemma chunks_concat {A : Type} (T : nat) (yss : list (list A)) :
  Forall (fun ys => length ys = T) yss ->
  chunks T (length yss) (concat yss) = yss.
Proof.
  induction 1 as [|ys yss Hys Hyss IH]; simpl; auto.
  subst T. f_equal.
  - rewrite firstn_app, firstn_all, Nat.sub_diag, firstn_0, app_nil_r. reflexivity.
  - rewrite skipn_app, skipn_all, Nat.sub_diag, skipn_0. exact IH.
Qed.

(** The target encoder applied to every frame of a valid batch. *)
Lemma target_latents (self : JEPAModel) (states : States) (B T C H W : nat) :
  encoder_chain_ok (target_encoder self) = true ->
  states_valid states = true ->
  states_shape states = (B, T, C, H, W) ->
  frames_fit (target_encoder self) C H W = true ->
  (1 <= B)%nat -> (1 <= T)%nat ->
  exists yss,
    mapM (mapM (Encoder_forward1 (target_encoder self))) (states_data states)
      = Some yss /\
    has_shape3 B T (out_features (fc_1 (target_encoder self))) yss /\
    get_target_representations self states = Some (mkTracked yss []).
Proof.
  intros Hc Hv Hs Hf HB HT.
  pose proof Hc as Hc'. pose proof Hf as Hf'.
  unfold encoder_chain_ok in Hc'. unfold frames_fit in Hf'. split_andb.
  unfold states_valid in Hv. rewrite Hs in Hv.
  apply andb_true_iff in Hv as [HlenB Hv]. apply Nat.eqb_eq in HlenB.
  rewrite forallb_forall in Hv.
  assert (Hyss : exists yss,
             mapM (mapM (Encoder_forward1 (target_encoder self))) (states_data states)
               = Some yss /\
             length yss = length (states_data states) /\
             Forall (fun ys => length ys = T /\
                       Forall (fun v => length v
                                        = out_features (fc_1 (target_encoder self))) ys)
                    yss).
  { apply mapM_Some. intros ex Hex. specialize (Hv ex Hex).
    apply andb_true_iff in Hv as [HlenT Hex']. apply Nat.eqb_eq in HlenT.
    rewrite forallb_forall in Hex'.
    destruct (@mapM_Some _ _ (Encoder_forward1 (target_encoder self))
                (fun v => length v = out_features (fc_1 (target_encoder self))) ex)
      as (ys & Eys & Lys & Fys).
    { intros x Hx.
      apply (@Encoder_forward1_Some (target_encoder self) C H W x); auto; lia. }
    exists ys. repeat split; auto. lia. }
  destruct Hyss as (yss & Eyss & Lyss & Fyss).
  exists yss. split; [exact Eyss|]. split; [split; [lia | exact Fyss]|].
  unfold get_target_representations. rewrite Hs.
  unfold Encoder_forward. rewrite (mapM_concat _ _ Eyss). cbn [bind].
  replace (B * T =? 0)%nat with false by (symmetry; apply Nat.eqb_neq; nia).
  replace B with (length yss) by lia.
  rewrite chunks_concat
    by (eapply Forall_impl; [|exact Fyss]; cbv beta; intros ys [E _]; exact E).
  reflexivity.
Qed.

(** X8.  [get_target_representations] returns, at every time step, the target
    encoder's latents of the frames of that time step, outside the
    gradient graph. *)
Theorem target_representations_per_frame (self : JEPAModel) (states : States)
    (B T C H W : nat) :
  encoder_chain_ok (target_encoder self) = true ->
  states_valid states = true ->
  states_shape states = (B, T, C, H, W) ->
  frames_fit (target_encoder self) C H W = true ->
  (1 <= B)%nat -> (1 <= T)%nat ->
  exists targets,
    get_target_representations self states = Some targets /\
    has_shape3 B T (out_features (fc_1 (target_encoder self))) (value targets) /\
    graph targets = [] /\
    forall t, (t < T)%nat ->
      Encoder_forward (target_encoder self) (frame t (states_data states))
      = Some (frame t (value targets)).
Proof.
  intros Hc Hv Hs Hf HB HT.
  destruct (target_latents self states Hc Hv Hs Hf HB HT) as (yss & Eyss & Hsh & Eg).
  exists (mkTracked yss []). split; [exact Eg|]. cbn [value graph].
  split; [exact Hsh|]. split; [reflexivity|].
  intros t Ht. apply mapM_frame; [exact Eyss|].
  unfold states_valid in Hv. rewrite Hs in Hv.
  apply andb_true_iff in Hv as [_ Hv]. rewrite forallb_forall in Hv.
  apply Forall_forall. intros ex Hex. specialize (Hv ex Hex).
  apply andb_true_iff in Hv as [HlenT _]. apply Nat.eqb_eq in HlenT. lia.
Qed.

Lemma target_representations_per_frame_witness :
  encoder_chain_ok (target_encoder example_model) = true /\
  states_valid example_states = true /\
  frames_fit (target_encoder example_model) 2 65 65 = true /\
  exists targets,
    get_target_representations example_model example_states = Some targets /\
    has_shape3 1 2 (out_features (fc_1 (target_encoder example_model)))
               (value targets) /\
    graph targets = [] /\
    forall t, (t < 2)%nat ->
      Encoder_forward (target_encoder example_model)
                      (frame t (states_data example_states))
      = Some (frame t (value targets)).
Proof.
  split; [lazy; reflexivity|]. split; [lazy; reflexivity|].
  split; [lazy; reflexivity|].
  apply (@target_representations_per_frame example_model example_states 1 2 2 65 65);
    try (lazy; reflexivity); lia.
Defined.

(** ** The empty batch *)

Lemma unroll_empty_batch (self : JEPAModel) (ge : bool) (a : Actions) (ts : list nat) :
  actions_data a = [] ->
  Forall (fun t => (t < snd (fst (actions_shape a)))%nat) ts ->
  forall cur acc,
  value cur = [] ->
  exists ps, unroll self ge a ts cur acc = Some ps.
Proof.
  intros Ha. induction ts as [|t ts IH]; intros Hts cur acc Hcur.
  - eexists. reflexivity.
  - pose proof (Forall_inv Hts) as Ht. pose proof (Forall_inv_tail Hts) as Hts'.
    cbv beta in Ht. apply Nat.ltb_lt in Ht.
    cbn [unroll]. unfold select_time. rewrite Ht, Ha, Hcur. cbn [map bind].
    change (Predictor_forward (predictor self) [] []) with (Some (@nil (list R))).
    cbn [bind]. apply IH; auto.
Qed.

(** X7.  On a batch without trajectories whose frames and actions have the
    sizes the model was built for, [forward] returns an empty tensor, and
    [get_target_representations] raises: its [view(B, T, -1)] cannot infer
    the last axis of a tensor without entries. *)
Theorem empty_batch (self : JEPAModel) (grad_enabled : bool)
    (T C H W : nat) :
  dims_ok self = true ->
  frames_fit (online_encoder self) C H W = true ->
  (1 <= T)%nat ->
  let states := mkStates (0, T, C, H, W)%nat [] in
  let actions := mkActions (0, T - 1, action_dim self)%nat [] in
  (exists predictions,
     forward self grad_enabled states actions = Some predictions /\
     value predictions = [])
  /\ get_target_representations self states = None.
Proof.
  intros _ _ HT states actions. split; [|reflexivity].
  unfold forward, states. cbn [states_shape states_data].
  unfold select_time at 1.
  replace (0 <? T)%nat with true by (symmetry; apply Nat.ltb_lt; lia).
  cbn [map bind]. change (Encoder_forward (online_encoder self) []) with (Some (@nil (list R))).
  cbn [bind].
  match goal with
  | |- context [unroll self grad_enabled actions ?ts ?cur ?acc] =>
      assert (Hts : Forall (fun t => (t < snd (fst (actions_shape actions)))%nat) ts)
        by (apply Forall_forall; intros t Ht; apply in_seq in Ht; cbn; lia);
      destruct (@unroll_empty_batch self grad_enabled actions ts eq_refl Hts
                  cur acc eq_refl) as (ps & Eps)
  end.
  rewrite Eps. cbn [bind]. eexists. split; reflexivity.
Qed.

Lemma empty_batch_witness :
  dims_ok example_model = true /\
  frames_fit (online_encoder example_model) 2 65 65 = true /\
  (1 <= 2)%nat /\
  (exists predictions,
     forward example_model true (mkStates (0, 2, 2, 65, 65)%nat [])
             (mkActions (0, 2 - 1, action_dim example_model)%nat [])
       = Some predictions /\
     value predictions = [])
  /\ get_target_representations example_model (mkStates (0, 2, 2, 65, 65)%nat []) = None.
Proof.
  split; [lazy; reflexivity|]. split; [lazy; reflexivity|]. split; [lia|].
  apply (@empty_batch example_model true 2 2 65 65);
    try (lazy; reflexivity); lia.
Defined.

(** ** The trajectories of a batch do not interact *)

Lemma mapM_nth {A B : Type} (f : A -> option B) (l : list A) (ys : list B)
    (b : nat) (dA : A) (dB : B) :
  mapM f l = Some ys -> (b < length l)%nat ->
  f (nth b l dA) = Some (nth b ys dB).
Proof.
  revert ys b; induction l as [|a l IH]; intros ys b E Hb; simpl in *; [lia|].
  destruct (f a) as [y|] eqn:Ea; [|discriminate].
  destruct (mapM f l) as [ys'|] eqn:El; [|discriminate].
  injection E as <-. destruct b as [|b]; [exact Ea|].
  simpl. apply IH; auto. lia.
Qed.

Lemma mapM_single {A B : Type} (f : A -> option B) (x : A) (y : B) :
  f x = Some y -> mapM f [x] = Some [y].
Proof. intros E. simpl. now rewrite E. Qed.

Lemma nth_map_lt {A B : Type} (g : A -> B) (l : list A) (b : nat) (dA : A) (dB : B) :
  (b < length l)%nat -> nth b (map g l) dB = g (nth b l dA).
Proof.
  intros Hb. rewrite (nth_indep _ dB (g dA)) by (now rewrite length_map).
  apply map_nth.
Qed.

Lemma Predictor_forward_row (p : Predictor) (r a out : list (list R)) (b : nat) :
  Predictor_forward p r a = Some out -> (b < length r)%nat ->
  Predictor_forward p [nth b r []] [nth b a []] = Some [nth b out []].
Proof.
  unfold Predictor_forward, cat_last. intros E Hb.
  destruct (length r =? length a)%nat eqn:El; cbn [negb bind] in E; [|discriminate].
  apply Nat.eqb_eq in El. cbn [length Nat.eqb negb combine map bind fst snd].
  apply mapM_single.
  assert (Hc : (b < length (map (fun q : list R * list R => fst q ++ snd q)
                                (combine r a)))%nat)
    by (rewrite length_map, length_combine; lia).
  pose proof (@mapM_nth _ _ (mlp1 p) _ out b [] [] E Hc) as Eb.
  rewrite (@nth_map_lt _ _ (fun q : list R * list R => fst q ++ snd q)
             (combine r a) b ([], []) [])
    in Eb by (rewrite length_combine; lia).
  rewrite combine_nth in Eb by exact El. exact Eb.
Qed.

Lemma frame_single {X : Type} (t : nat) (ex : list (list X)) :
  frame t [ex] = [nth t ex []].
Proof. reflexivity. Qed.

Lemma nth_frame {X : Type} (t b : nat) (x : list (list (list X))) :
  nth b (frame t x) [] = nth t (nth b x []) [].
Proof.
  unfold frame.
  destruct (Nat.lt_ge_cases b (length x)) as [Hb|Hb].
  - apply (@nth_map_lt _ _ (fun ex : list (list X) => nth t ex []) x b [] [] Hb).
  - rewrite (nth_overflow (map _ x)) by (rewrite length_map; exact Hb).
    rewrite (nth_overflow x) by exact Hb. now destruct t.
Qed.

Lemma cat_dim1_one (ps : list (list (list (list R)))) :
  cat_dim1 1 ps = [concat (map (fun p => nth 0 p []) ps)].
Proof. reflexivity. Qed.

Lemma batch_valid_row (self : JEPAModel) (states : States) (actions : Actions)
    (B T C H W b : nat) :
  batch_valid self states actions = true ->
  states_shape states = (B, T, C, H, W) -> (b < B)%nat ->
  batch_valid self (states_row b states) (actions_row b actions) = true /\
  states_shape (states_row b states) = (1, T, C, H, W)%nat.
Proof.
  intros Hb Hs HbB. unfold batch_valid in Hb. rewrite Hs in Hb.
  unfold states_row, actions_row, batch_valid. rewrite Hs.
  destruct (actions_shape actions) as [[B' Ta] A] eqn:Ha.
  cbn [states_shape actions_shape]. split; [|reflexivity].
  apply andb_true_iff in Hb as [Hb H10]. apply andb_true_iff in Hb as [Hb H9].
  apply andb_true_iff in Hb as [Hb H8]. apply andb_true_iff in Hb as [Hb H7].
  apply andb_true_iff in Hb as [Hb H6]. apply andb_true_iff in Hb as [Hb H5].
  apply andb_true_iff in Hb as [Hb H4]. apply andb_true_iff in Hb as [Hb H3].
  apply andb_true_iff in Hb as [H1 H2].
  rewrite H3, H5, H6, H7, H8, H9, H10, Nat.eqb_refl, !andb_true_r.
  apply Nat.eqb_eq in H4. subst B'.
  unfold states_valid in H1. rewrite Hs in H1.
  apply andb_true_iff in H1 as [L1 F1]. apply Nat.eqb_eq in L1.
  rewrite forallb_forall in F1.
  unfold actions_valid in H2. rewrite Ha in H2.
  apply andb_true_iff in H2 as [L2 F2]. apply Nat.eqb_eq in L2.
  rewrite forallb_forall in F2.
  unfold states_valid, actions_valid.
  cbn [states_shape states_data actions_shape actions_data length Nat.eqb forallb andb].
  rewrite (F1 (nth b (states_data states) [])) by (apply nth_In; lia).
  rewrite (F2 (nth b (actions_data actions) [])) by (apply nth_In; lia).
  reflexivity.
Qed.

(** X6.  Every trajectory of a batch is rolled out on its own: row [b] of the
    result of [forward] is the result of [forward] on the batch that
    consists of trajectory [b] alone. *)
Theorem forward_batch_independent (self : JEPAModel) (grad_enabled : bool)
    (states : States) (actions : Actions) (B T C H W b : nat) :
  dims_ok self = true ->
  batch_valid self states actions = true ->
  states_shape states = (B, T, C, H, W) -> (b < B)%nat ->
  exists predictions single,
    forward self grad_enabled states actions = Some predictions /\
    forward self grad_enabled (states_row b states) (actions_row b actions)
      = Some single /\
    value single = [nth b (value predictions) []].
Proof.
  intros Hd Hv Hs Hb.
  destruct (@batch_valid_row self states actions B T C H W b Hv Hs Hb)
    as [Hv' Hs'].
  destruct (forward_exact self grad_enabled states actions Hd Hv Hs)
    as (enc & lats & E0 & Hlen & Hsh & Hstep & Hf).
  destruct (forward_exact self grad_enabled (states_row b states)
              (actions_row b actions) Hd Hv' Hs')
    as (enc' & lats' & E0' & Hlen' & Hsh' & Hstep' & Hf').
  specialize (Hf states eq_refl eq_refl).
  specialize (Hf' (states_row b states) eq_refl eq_refl).
  rewrite Hf, Hf'. do 2 eexists. split; [reflexivity|]. split; [reflexivity|].
  cbn [value].
  assert (HT : (1 <= T)%nat).
  { unfold batch_valid in Hv. rewrite Hs in Hv.
    destruct (actions_shape actions) as [[B' Ta] A]. split_andb. assumption. }
  assert (Hdata : states_data (states_row b states) = [nth b (states_data states) []]).
  { unfold states_row. rewrite Hs. reflexivity. }
  assert (Hadata : actions_data (actions_row b actions)
                   = [nth b (actions_data actions) []]).
  { unfold actions_row. destruct (actions_shape actions) as [[B' Ta] A]. reflexivity. }
  assert (HLB : forall t, (t < T)%nat -> length (nth t (enc :: lats) []) = B).
  { intros t Ht. rewrite Forall_forall in Hsh.
    apply (Hsh (nth t (enc :: lats) [])). apply nth_In. cbn [length]. lia. }
  assert (Hrows : forall t, (t < T)%nat ->
            nth t (enc' :: lats') [] = [nth b (nth t (enc :: lats) []) []]).
  { induction t as [|t IH]; intros Ht.
    - cbn [nth]. rewrite Hdata, frame_single in E0'.
      unfold Encoder_forward in E0, E0'.
      assert (Hl0 : length (frame 0 (states_data states)) = B).
      { rewrite <- (HLB 0%nat HT). cbn [nth]. symmetry. exact (mapM_length _ _ E0). }
      pose proof (@mapM_nth _ _ _ _ enc b [] [] E0 ltac:(lia)) as Eb.
      rewrite nth_frame in Eb.
      rewrite (mapM_single _ _ Eb) in E0'. now injection E0' as <-.
    - specialize (IH ltac:(lia)).
      pose proof (Hstep t ltac:(lia)) as St. pose proof (Hstep' t ltac:(lia)) as St'.
      rewrite IH, Hadata, frame_single in St'.
      apply (@Predictor_forward_row _ _ _ _ b) in St; [|rewrite HLB; lia].
      rewrite nth_frame in St. rewrite St in St'.
      cbn [nth]. now injection St' as <-. }
  rewrite cat_dim1_one.
  rewrite concat_unsqueezed.
  2:{ eapply Forall_impl; [|exact Hsh']. cbv beta. intros l [Hl _]. lia. }
  f_equal.
  unfold cat_dim1.
  rewrite (@nth_map_lt _ _ (fun b0 => concat (map (fun p => nth b0 p [])
                                      (map unsqueeze1 (enc :: lats))))
             (seq 0 B) b 0%nat []) by (rewrite length_seq; exact Hb).
  rewrite seq_nth by exact Hb. cbn [Nat.add].
  rewrite concat_unsqueezed.
  2:{ eapply Forall_impl; [|exact Hsh]. cbv beta. intros l [Hl _]. lia. }
  apply nth_ext with (d := []) (d' := []).
  - rewrite !length_map. cbn [length]. lia.
  - intros t Ht. rewrite length_map in Ht. cbn [length] in Ht.
    rewrite (@nth_map_lt _ _ (fun l : list (list R) => nth 0 l [])
               (enc' :: lats') t [] []) by (cbn [length]; lia).
    rewrite (@nth_map_lt _ _ (fun l : list (list R) => nth b l [])
               (enc :: lats) t [] []) by (cbn [length]; lia).
    rewrite Hrows by lia. reflexivity.
Qed.

Lemma forward_batch_independent_witness :
  batch_valid example_model example_states example_actions = true /\
  exists predictions single,
    forward example_model true example_states example_actions = Some predictions /\
    forward example_model true (states_row 0 example_states)
            (actions_row 0 example_actions) = Some single /\
    value single = [nth 0 (value predictions) []].
Proof.
  split; [lazy; reflexivity|].
  apply (@forward_batch_independent example_model true example_states
           example_actions 1 2 2 65 65 0).
  - lazy; reflexivity.
  - lazy; reflexivity.
  - reflexivity.
  - lia.
Defined.

(** ** Signs of the losses *)

Lemma nonneg_sadd (a b : scalar) : nonneg a -> nonneg b -> nonneg (sadd a b).
Proof. destruct a, b; cbn; auto. lra. Qed.

Lemma nonneg_smul (a b : scalar) : nonneg a -> nonneg b -> nonneg (smul a b).
Proof. destruct a, b; cbn; auto. nra. Qed.

Lemma nonneg_spow2 (a : scalar) : nonneg (spow2 a).
Proof. destruct a; cbn; auto. nra. Qed.


Lemma nonneg_srelu (a : scalar) : nonneg (srelu a).
Proof. destruct a; cbn; auto. apply Rmax_l. Qed.

Lemma nonneg_ssum (l : list scalar) : Forall nonneg l -> nonneg (ssum l).
Proof.
  induction 1 as [|a l Ha Hl IH]; cbn; [lra|].
  apply nonneg_sadd; assumption.
Qed.

Lemma nonneg_sdiv_count (a : scalar) (n : Z) :
  (0 <= n)%Z -> nonneg a -> nonneg (sdiv_count a n).
Proof.
  intros Hn Ha. destruct a as [x|]; cbn; auto.
  destruct (n =? 0)%Z eqn:E; cbn; auto.
  apply Z.eqb_neq in E. apply Rmult_le_pos; [exact Ha|].
  apply Rlt_le, Rinv_0_lt_compat, IZR_lt. lia.
Qed.

Lemma nonneg_smean (l : list scalar) : Forall nonneg l -> nonneg (smean l).
Proof.
  intros H. apply nonneg_sdiv_count; [lia | now apply nonneg_ssum].
Qed.

Lemma Forall_concat {A : Type} (P : A -> Prop) (ls : list (list A)) :
  Forall (Forall P) ls -> Forall P (concat ls).
Proof.
  induction 1 as [|l ls Hl Hls IH]; cbn; auto. apply Forall_app. auto.
Qed.

Lemma Forall_map_all {A B : Type} (P : B -> Prop) (f : A -> B) (l : list A) :
  (forall a, P (f a)) -> Forall P (map f l).
Proof. intros H. induction l; cbn; auto. Qed.

(** X13.  Whenever [vicreg_loss] returns, the loss is NaN or a
    non-negative number. *)
Theorem vicreg_loss_never_negative (x y : Tensor2) (loss : scalar) :
  vicreg_loss x y = Some loss -> nonneg loss.
Proof.
  unfold vicreg_loss. cbv zeta.
  destruct (off_diagonal (cov (center x))) as [ox|]; [|discriminate].
  destruct (off_diagonal (cov (center y))) as [oy|]; [|discriminate].
  intros E.
  apply (f_equal (fun o => match o with Some v => v | None => NaN end)) in E.
  cbv beta iota in E. rewrite <- E. clear E.
  assert (H25 : nonneg (Fin 25)) by (cbn; lra).
  apply nonneg_sadd; [apply nonneg_sadd|].
  - unfold mse_loss. apply nonneg_smean, Forall_concat, Forall_map_all.
    intros p. apply Forall_map_all. intros q. apply nonneg_spow2.
  - apply nonneg_smul; [exact H25|].
    apply nonneg_sadd; apply nonneg_smean, Forall_map_all; intros s;
      apply nonneg_srelu.
  - apply nonneg_smul; [exact H25|].
    apply nonneg_sadd; apply nonneg_ssum, Forall_map_all; intros s;
      apply nonneg_spow2.
Qed.

(** ** Finite entries *)

Lemma finite_Fin (r : R) : finite (Fin r).
Proof. now exists r. Qed.

Lemma finite_lift2 (f : R -> R -> R) (a b : scalar) :
  finite a -> finite b -> finite (lift2 f a b).
Proof. intros [x ->] [y ->]. apply finite_Fin. Qed.

Lemma finite_lift1 (f : R -> R) (a : scalar) : finite a -> finite (lift1 f a).
Proof. intros [x ->]. apply finite_Fin. Qed.

Lemma finite_ssum (l : list scalar) : Forall finite l -> finite (ssum l).
Proof.
  induction 1 as [|a l Ha Hl IH]; cbn; [apply finite_Fin|].
  now apply finite_lift2.
Qed.

Lemma finite_sdiv_count (a : scalar) (n : Z) :
  n <> 0%Z -> finite a -> finite (sdiv_count a n).
Proof.
  intros Hn [x ->]. cbn. apply Z.eqb_neq in Hn. rewrite Hn. apply finite_Fin.
Qed.

Lemma finite_smean (l : list scalar) :
  l <> [] -> Forall finite l -> finite (smean l).
Proof.
  intros Hl H. apply finite_sdiv_count; [|now apply finite_ssum].
  destruct l; [congruence | cbn [length]; lia].
Qed.

Lemma finite_svar (l : list scalar) :
  (2 <= length l)%nat -> Forall finite l -> finite (svar l) /\ nonneg (svar l).
Proof.
  intros Hl H. unfold svar. cbv zeta.
  assert (Hm : finite (smean l)).
  { apply finite_smean; auto. destruct l; [cbn in Hl; lia | congruence]. }
  split.
  - apply finite_sdiv_count; [lia|]. apply finite_ssum.
    rewrite Forall_forall in *. intros a Ha. apply in_map_iff in Ha as (b & <- & Hb).
    apply finite_lift2; apply finite_lift2; auto.
  - apply nonneg_sdiv_count; [lia|]. apply nonneg_ssum, Forall_map_all.
    intros a. apply nonneg_spow2.
Qed.

Lemma finite_ssqrt (a : scalar) : finite a -> nonneg a -> finite (ssqrt a).
Proof.
  intros [x ->] Hx. cbn in Hx. rewrite ssqrt_Fin by exact Hx. apply finite_Fin.
Qed.

Lemma finite_sstd (l : list scalar) :
  (2 <= length l)%nat -> Forall finite l -> finite (sstd l).
Proof.
  intros Hl H. destruct (finite_svar Hl H). now apply finite_ssqrt.
Qed.

Lemma finite_map_Fin (l : list R) : Forall finite (map Fin l).
Proof. apply Forall_map_all. intros a. apply finite_Fin. Qed.

Lemma finite_list (l : list scalar) :
  Forall finite l -> exists rs, l = map Fin rs.
Proof.
  induction 1 as [|a l [r ->] Hl (rs & ->)].
  - now exists [].
  - now exists (r :: rs).
Qed.

(** ** Normalized vectors have norm at most one *)

(** [normalize1] on a finite vector, whatever its norm. *)
Lemma normalize1_clamped (u : list R) :
  normalize1 (map Fin u)
  = map Fin (map (fun x => x / Rmax eps_normalize (norm2 u)) u).
Proof.
  unfold normalize1. cbv zeta.
  replace (map spow2 (map Fin u)) with (map Fin (map (fun x => x * x) u))
    by (rewrite !map_map; reflexivity).
  rewrite ssum_Fin, ssqrt_Fin by apply Rsum_squares_nonneg.
  fold (norm2 u). cbn [lift1].
  rewrite !map_map. apply map_ext. intros x. unfold sdiv.
  pose proof eps_normalize_pos. pose proof (Rmax_l eps_normalize (norm2 u)).
  destruct (Req_dec_T (Rmax eps_normalize (norm2 u)) 0); [lra | reflexivity].
Qed.

Lemma finite_normalize1 (v : list scalar) :
  Forall finite v -> Forall finite (normalize1 v).
Proof.
  intros H. destruct (finite_list H) as (rs & ->).
  rewrite normalize1_clamped. apply finite_map_Fin.
Qed.

Lemma Rsum_cons (a : R) (l : list R) : Rsum (a :: l) = a + Rsum l.
Proof. reflexivity. Qed.

Lemma sum_squares_scaled (d : R) (u : list R) :
  d <> 0 ->
  Rsum (map (fun x => x * x) (map (fun x => x / d) u))
  = Rsum (map (fun x => x * x) u) / (d * d).
Proof.
  intros Hd. induction u as [|a u IH]; cbn [map].
  - unfold Rsum. cbn. unfold Rdiv. ring.
  - rewrite !Rsum_cons, IH. field. exact Hd.
Qed.

Lemma norm2_sqr (u : list R) :
  norm2 u * norm2 u = Rsum (map (fun x => x * x) u).
Proof. unfold norm2. apply sqrt_sqrt, Rsum_squares_nonneg. Qed.

Lemma norm2_nonneg (u : list R) : 0 <= norm2 u.
Proof. unfold norm2. apply sqrt_pos. Qed.

Lemma sum_squares_clamped (u : list R) :
  Rsum (map (fun x => x * x)
            (map (fun x => x / Rmax eps_normalize (norm2 u)) u)) <= 1.
Proof.
  pose proof eps_normalize_pos as He.
  pose proof (Rmax_l eps_normalize (norm2 u)) as H1.
  pose proof (Rmax_r eps_normalize (norm2 u)) as H2.
  pose proof (norm2_nonneg u) as H0.
  set (d := Rmax eps_normalize (norm2 u)) in *.
  rewrite sum_squares_scaled by lra. rewrite <- norm2_sqr.
  apply Rmult_le_reg_r with (r := d * d); [nra|].
  unfold Rdiv. rewrite Rmult_assoc, Rinv_l by nra. nra.
Qed.









(** ** The losses on finite tensors of non-degenerate size *)

Lemma finite_nth (v : list scalar) (d : nat) :
  Forall finite v -> (d < length v)%nat -> finite (nth d v NaN).
Proof.
  intros H Hd. rewrite Forall_forall in H. apply H. now apply nth_In.
Qed.

Lemma finite_sdot (u v : list scalar) :
  Forall finite u -> Forall finite v -> finite (sdot u v).
Proof.
  intros Hu Hv. apply finite_ssum. apply Forall_forall. intros a Ha.
  apply in_map_iff in Ha as ([x y] & <- & Hxy). cbn [fst snd].
  rewrite Forall_forall in Hu, Hv.
  apply finite_lift2; [eapply Hu, in_combine_l | eapply Hv, in_combine_r]; eauto.
Qed.

Lemma concat_nonempty {A : Type} (ls : list (list A)) :
  ls <> [] -> Forall (fun l => l <> []) ls -> concat ls <> [].
Proof.
  intros Hne H. destruct H as [|l ls Hl _]; [congruence|].
  cbn. destruct l; [congruence | discriminate].
Qed.

Lemma length_nonempty {A : Type} (l : list A) : (1 <= length l)%nat -> l <> [].
Proof. destruct l; cbn; [lia | discriminate]. Qed.

Lemma length_normalize1 (v : list scalar) : length (normalize1 v) = length v.
Proof. unfold normalize1. cbv zeta. apply length_map. Qed.

Lemma finite3_normalize (B T D : nat) (rs : list (list (list R))) :
  has_shape3 B T D rs ->
  finite3 B T D (data3 (normalize (tensor3 B T D rs))).
Proof.
  intros [HB Hrs]. unfold normalize, tensor3. cbn [data3]. split.
  - now rewrite !length_map.
  - rewrite Forall_forall in *. intros ex Hex.
    apply in_map_iff in Hex as (ex1 & <- & Hex).
    apply in_map_iff in Hex as (ex0 & <- & Hex).
    destruct (Hrs ex0 Hex) as [HT Hvs]. split; [now rewrite !length_map|].
    rewrite Forall_forall in *. intros v Hv.
    apply in_map_iff in Hv as (v1 & <- & Hv).
    apply in_map_iff in Hv as (v0 & <- & Hv).
    split.
    + rewrite length_normalize1, length_map. now apply Hvs.
    + apply finite_normalize1, finite_map_Fin.
Qed.

Lemma finite_cosines (B T D : nat) (p t : Tensor3) :
  finite3 B T D (data3 p) -> finite3 B T D (data3 t) ->
  (1 <= B)%nat -> (1 <= T)%nat ->
  finite (smean (map (fun c => ssub (Fin 1) c) (concat (mul_sum_last p t)))).
Proof.
  intros [HpB Hp] [HtB Ht] HB HT.
  rewrite Forall_forall in Hp, Ht.
  apply finite_smean.
  - intros E. apply map_eq_nil in E. revert E. apply concat_nonempty.
    + apply length_nonempty. unfold mul_sum_last.
      rewrite length_map, length_combine. lia.
    + apply Forall_forall. intros row Hrow. unfold mul_sum_last in Hrow.
      apply in_map_iff in Hrow as ([pe te] & <- & Hpt). cbn [fst snd].
      apply length_nonempty. rewrite length_map, length_combine.
      destruct (Hp pe (in_combine_l _ _ _ _ Hpt)) as [-> _].
      destruct (Ht te (in_combine_r _ _ _ _ Hpt)) as [-> _]. lia.
  - apply Forall_forall. intros a Ha. apply in_map_iff in Ha as (c & <- & Hc).
    apply finite_lift2; [apply finite_Fin|].
    apply in_concat in Hc as (row & Hrow & Hc).
    unfold mul_sum_last in Hrow. apply in_map_iff in Hrow as ([pe te] & <- & Hpt).
    cbn [fst snd] in Hc. apply in_map_iff in Hc as ([pv tv] & <- & Hq).
    cbn [fst snd].
    destruct (Hp pe (in_combine_l _ _ _ _ Hpt)) as [_ Hpe].
    destruct (Ht te (in_combine_r _ _ _ _ Hpt)) as [_ Hte].
    rewrite Forall_forall in Hpe, Hte.
    apply finite_sdot;
      [apply (Hpe pv (in_combine_l _ _ _ _ Hq)) | apply (Hte tv (in_combine_r _ _ _ _ Hq))].
Qed.

Lemma finite_std_dim1 (B T D : nat) (x : Tensor3) :
  shape3 x = (B, T, D) -> finite3 B T D (data3 x) ->
  (1 <= B)%nat -> (2 <= T)%nat -> (1 <= D)%nat ->
  finite (smean (concat (std_dim1 x))).
Proof.
  intros Hs [HxB Hx] HB HT HD. rewrite Forall_forall in Hx.
  unfold std_dim1. rewrite Hs. cbn [snd].
  apply finite_smean.
  - apply concat_nonempty.
    + apply length_nonempty. rewrite length_map. lia.
    + apply Forall_forall. intros row Hrow.
      apply in_map_iff in Hrow as (ex & <- & Hex).
      apply length_nonempty. rewrite length_map, length_seq. exact HD.
  - apply Forall_concat, Forall_forall. intros row Hrow.
    apply in_map_iff in Hrow as (ex & <- & Hex).
    destruct (Hx ex Hex) as [HexT Hvs]. rewrite Forall_forall in Hvs.
    apply Forall_forall. intros a Ha. apply in_map_iff in Ha as (d & <- & Hd).
    apply in_seq in Hd. apply finite_sstd.
    + rewrite length_map. lia.
    + apply Forall_forall. intros b Hb. apply in_map_iff in Hb as (v & <- & Hv).
      destruct (Hvs v Hv) as [Hlen Hfin]. apply finite_nth; [exact Hfin | lia].
Qed.

(** X10.  On finite tensors of shape [B, T, D] with [B >= 1], [T >= 2]
    and [D >= 1], [je_loss] is a finite number. *)
Theorem je_loss_finite (B T D : nat) (ps ts : list (list (list R))) :
  has_shape3 B T D ps -> has_shape3 B T D ts ->
  (1 <= B)%nat -> (2 <= T)%nat -> (1 <= D)%nat ->
  finite (je_loss (tensor3 B T D ps) (tensor3 B T D ts)).
Proof.
  intros Hp Ht HB HT HD.
  pose proof (finite3_normalize Hp) as Fp.
  pose proof (finite3_normalize Ht) as Ft.
  unfold je_loss. cbv zeta.
  apply finite_lift2; apply finite_lift2; try apply finite_Fin.
  - apply (@finite_cosines B T D); auto. lia.
  - apply finite_lift2; apply finite_lift1, finite_lift2; try apply finite_Fin;
      apply (@finite_std_dim1 B T D); auto.
Qed.

Lemma je_loss_finite_witness :
  has_shape3 1 2 1 [[[1]; [1]]] /\
  finite (je_loss (tensor3 1 2 1 [[[1]; [1]]]) (tensor3 1 2 1 [[[1]; [1]]])).
Proof.
  assert (H : has_shape3 1 2 1 [[[1]; [1]]]) by (split; repeat constructor).
  split; [exact H|].
  apply (@je_loss_finite 1 2 1 [[[1]; [1]]] [[[1]; [1]]]); auto.
Defined.

Lemma finite2_tensor2 (N D : nat) (rs : list (list R)) :
  has_shape2 N D rs -> finite2 N D (data2 (tensor2 N D rs)).
Proof.
  intros [HN Hrs]. unfold tensor2. cbn [data2]. split.
  - now rewrite length_map.
  - rewrite Forall_forall in *. intros v Hv. apply in_map_iff in Hv as (v0 & <- & Hv).
    split; [rewrite length_map; now apply Hrs | apply finite_map_Fin].
Qed.

Lemma finite_column (N D : nat) (x : Tensor2) (d : nat) :
  finite2 N D (data2 x) -> (d < D)%nat ->
  length (column d x) = N /\ Forall finite (column d x).
Proof.
  intros [HN Hx] Hd. unfold column. split; [now rewrite length_map|].
  rewrite Forall_forall in *. intros a Ha. apply in_map_iff in Ha as (row & <- & Hrow).
  destruct (Hx row Hrow) as [Hlen Hfin]. apply finite_nth; [exact Hfin | lia].
Qed.

Lemma finite2_center (N D : nat) (x : Tensor2) :
  finite2 N D (data2 x) -> (1 <= N)%nat -> finite2 N D (data2 (center x)).
Proof.
  intros Hx HN. pose proof Hx as [HxN Hrows]. unfold center. cbn [data2]. split.
  - now rewrite length_map.
  - rewrite Forall_forall in *. intros v Hv. apply in_map_iff in Hv as (row & <- & Hrow).
    destruct (Hrows row Hrow) as [Hlen Hfin]. split.
    + rewrite length_map, length_combine, length_seq. lia.
    + apply Forall_forall. intros a Ha. apply in_map_iff in Ha as ([d v] & <- & Hdv).
      cbn [fst snd]. apply finite_lift2.
      * rewrite Forall_forall in Hfin. eapply Hfin, in_combine_r; eauto.
      * apply in_combine_l in Hdv. apply in_seq in Hdv.
        destruct (@finite_column N D x d Hx) as [Hc Hf]; [lia|].
        apply finite_smean; [apply length_nonempty; lia | exact Hf].
Qed.

(** On two identical rows of one feature the VICReg loss is
    [25 * 2 * (1 - sqrt 0.0001)]. *)
Lemma vicreg_loss_two_zero_rows :
  vicreg_loss two_zero_rows two_zero_rows
  = Some (Fin (99 / 2)).
Proof.
  unfold vicreg_loss. cbv zeta.
  rewrite (off_diagonal_cov (center two_zero_rows)) by (cbn; lia).
  cbv beta iota. unfold std_eps. rewrite var_dim0_two_zero_rows.
  cbn [map sadd lift2]. rewrite ssqrt_Fin by lra.
  replace (0 + 1 / 10000) with ((1 / 100) * (1 / 100)) by field.
  rewrite sqrt_square by lra.
  cbn. do 2 f_equal.
  rewrite Rmax_right by lra. field.
Qed.

Lemma vicreg_loss_never_negative_witness :
  vicreg_loss two_zero_rows two_zero_rows = Some (Fin (99 / 2)) /\
  nonneg (Fin (99 / 2)).
Proof.
  split; [exact vicreg_loss_two_zero_rows|].
  apply (@vicreg_loss_never_negative two_zero_rows two_zero_rows).
  exact vicreg_loss_two_zero_rows.
Defined.

(** ** Which matrices [off_diagonal] accepts *)

Lemma length_chunks {A : Type} (m k : nat) (l : list A) :
  length (chunks m k l) = k.
Proof. revert l; induction k as [|k IH]; intros l; simpl; auto. Qed.

Lemma chunks_lengths {A : Type} (m k : nat) (l : list A) :
  (k * m <= length l)%nat -> Forall (fun c => length c = m) (chunks m k l).
Proof.
  revert l; induction k as [|k IH]; intros l H; simpl; constructor.
  - rewrite length_firstn. lia.
  - apply IH. rewrite length_skipn. lia.
Qed.

Lemma length_removelast {A : Type} (l : list A) :
  length (removelast l) = (length l - 1)%nat.
Proof.
  destruct l as [|a l]; [reflexivity|].
  rewrite removelast_firstn_len, length_firstn. cbn [length]. lia.
Qed.

(** X17.  On a matrix with at least one row, [off_diagonal] succeeds exactly
    when the matrix is square or has shape [1 x 0], and it returns
    [n * (n - 1)] entries. *)
Theorem off_diagonal_accepts (c : Tensor2) (n m : nat) :
  shape2 c = (n, m) -> matrix_valid c -> (1 <= n)%nat ->
  (off_diagonal c <> None <-> m = n \/ (n = 1%nat /\ m = 0%nat))
  /\ (forall entries, off_diagonal c = Some entries ->
        length entries = (n * (n - 1))%nat).
Proof.
  intros Hs [Hlen Hrows] Hn. rewrite Hs in Hlen, Hrows. cbn [fst snd] in Hlen, Hrows.
  assert (HL : length (removelast (concat (data2 c))) = (n * m - 1)%nat).
  { rewrite length_removelast, (@length_concat_uniform _ m), Hlen; auto.
    intros r Hr. rewrite Forall_forall in Hrows. now apply Hrows. }
  unfold off_diagonal. cbv zeta. rewrite Hs. cbn [fst]. rewrite HL.
  replace (n =? 0)%nat with false by (symmetry; apply Nat.eqb_neq; lia).
  destruct (n * m - 1 =? (n - 1) * (n + 1))%nat eqn:Ev; cbn [negb].
  - apply Nat.eqb_eq in Ev. split.
    + split; [intros _ | discriminate].
      destruct m as [|m]; [right; nia | left; nia].
    + intros entries E. injection E as <-.
      rewrite (@length_concat_uniform _ n).
      * rewrite length_map, length_chunks. lia.
      * intros r Hr. apply in_map_iff in Hr as (ch & <- & Hch).
        pose proof (@chunks_lengths _ (n + 1) (n - 1)
                      (removelast (concat (data2 c)))) as Hc.
        rewrite Forall_forall in Hc. specialize (Hc ltac:(lia) ch Hch).
        destruct ch; cbn [tl length] in *; lia.
  - apply Nat.eqb_neq in Ev. split; [|discriminate].
    split; [congruence|]. intros [Hm|[Hn1 Hm]]; exfalso; apply Ev; subst; nia.
Qed.

Lemma off_diagonal_accepts_witness :
  matrix_valid (mkTensor2 (2, 3)%nat [[NaN; NaN; NaN]; [NaN; NaN; NaN]]) /\
  (off_diagonal (mkTensor2 (2, 3)%nat [[NaN; NaN; NaN]; [NaN; NaN; NaN]]) <> None
   <-> 3%nat = 2%nat \/ (2%nat = 1%nat /\ 3%nat = 0%nat))
  /\ (forall entries,
        off_diagonal (mkTensor2 (2, 3)%nat [[NaN; NaN; NaN]; [NaN; NaN; NaN]])
          = Some entries ->
        length entries = (2 * (2 - 1))%nat).
Proof.
  assert (H : matrix_valid (mkTensor2 (2, 3)%nat [[NaN; NaN; NaN]; [NaN; NaN; NaN]]))
    by (split; repeat constructor).
  split; [exact H|].
  apply (@off_diagonal_accepts
           (mkTensor2 (2, 3)%nat [[NaN; NaN; NaN]; [NaN; NaN; NaN]]) 2 3 eq_refl H).
  lia.
Defined.

(** X16.  The covariance matrix [(x.T @ x) / (N - 1)] is symmetric. *)
Theorem cov_symmetric (x : Tensor2) (i j : nat) :
  entry (cov x) i j = entry (cov x) j i.
Proof.
  assert (E : forall k l, (k < snd (shape2 x))%nat -> (l < snd (shape2 x))%nat ->
            entry (cov x) k l
            = sdiv_count (sdot (column k x) (column l x))
                         (Z.of_nat (fst (shape2 x)) - 1)).
  { intros k l Hk Hl. unfold entry, cov. cbv zeta. cbn [data2].
    set (D := snd (shape2 x)) in *.
    rewrite (nth_indep _ [] (map (fun l0 => sdiv_count (sdot (column 0 x) (column l0 x))
                               (Z.of_nat (fst (shape2 x)) - 1)) (seq 0 D)))
      by (rewrite length_map, length_seq; exact Hk).
    rewrite (map_nth (fun k0 => map (fun l0 => sdiv_count (sdot (column k0 x) (column l0 x))
                               (Z.of_nat (fst (shape2 x)) - 1)) (seq 0 D))).
    rewrite seq_nth by exact Hk.
    rewrite (nth_indep _ NaN (sdiv_count (sdot (column (0 + k) x) (column 0 x))
                               (Z.of_nat (fst (shape2 x)) - 1)))
      by (rewrite length_map, length_seq; exact Hl).
    rewrite (map_nth (fun l0 => sdiv_count (sdot (column (0 + k) x) (column l0 x))
                               (Z.of_nat (fst (shape2 x)) - 1))).
    rewrite seq_nth by exact Hl. reflexivity. }
  assert (O : forall k l, (snd (shape2 x) <= k)%nat \/ (snd (shape2 x) <= l)%nat ->
            entry (cov x) k l = NaN).
  { intros k l Hkl. unfold entry, cov. cbv zeta. cbn [data2].
    set (D := snd (shape2 x)) in *.
    destruct (Nat.lt_ge_cases k D) as [Hk|Hk].
    - destruct Hkl as [Hkl|Hl]; [lia|].
      rewrite (nth_indep _ [] (map (fun l0 => sdiv_count (sdot (column 0 x) (column l0 x))
                               (Z.of_nat (fst (shape2 x)) - 1)) (seq 0 D)))
        by (rewrite length_map, length_seq; exact Hk).
      rewrite (map_nth (fun k0 => map (fun l0 => sdiv_count (sdot (column k0 x) (column l0 x))
                               (Z.of_nat (fst (shape2 x)) - 1)) (seq 0 D))).
      apply nth_overflow. rewrite length_map, length_seq. exact Hl.
    - rewrite (nth_overflow _ []) by (rewrite length_map, length_seq; exact Hk).
      destruct l; reflexivity. }
  destruct (Nat.lt_ge_cases i (snd (shape2 x))) as [Hi|Hi];
    destruct (Nat.lt_ge_cases j (snd (shape2 x))) as [Hj|Hj].
  - rewrite !E by assumption. now rewrite sdot_comm.
  - rewrite !O; auto.
  - rewrite !O; auto.
  - rewrite !O; auto.
Qed.

(** ** Normalization and scale *)

(** X12.  [F.normalize] returns a vector of norm at most one, and of
    norm one when the norm of its argument is at least the clamp. *)
Theorem normalize1_norm (u : list R) :
  exists u', normalize1 (map Fin u) = map Fin u' /\
             length u' = length u /\
             norm2 u' <= 1 /\
             (eps_normalize <= norm2 u -> norm2 u' = 1).
Proof.
  exists (map (fun x => x / Rmax eps_normalize (norm2 u)) u).
  split; [apply normalize1_clamped|]. split; [apply length_map|].
  pose proof eps_normalize_pos as He.
  split.
  - unfold norm2 at 1. rewrite <- sqrt_1. apply sqrt_le_1_alt, sum_squares_clamped.
  - intros H. rewrite Rmax_right by exact H.
    unfold norm2 at 1. rewrite sum_squares_scaled by lra.
    rewrite <- norm2_sqr. unfold Rdiv. rewrite Rinv_r by nra. apply sqrt_1.
Qed.

Lemma normalize1_norm_witness :
  exists u', normalize1 (map Fin [1]) = map Fin u' /\
             length u' = length [1] /\
             norm2 u' <= 1 /\
             (eps_normalize <= norm2 [1] -> norm2 u' = 1).
Proof. apply (normalize1_norm [1]). Defined.

Lemma norm2_scale (c : R) (u : list R) :
  0 <= c -> norm2 (map (Rmult c) u) = c * norm2 u.
Proof.
  intros Hc. unfold norm2.
  replace (Rsum (map (fun x => x * x) (map (Rmult c) u)))
    with ((c * c) * Rsum (map (fun x => x * x) u)).
  - rewrite sqrt_mult by (try apply Rsum_squares_nonneg; nra).
    now rewrite sqrt_square.
  - induction u as [|a u IH]; cbn [map].
    + unfold Rsum. cbn. ring.
    + rewrite !Rsum_cons, <- IH. ring.
Qed.

Lemma normalize1_scale (c : R) (u : list R) :
  0 < c -> eps_normalize <= norm2 u -> eps_normalize <= c * norm2 u ->
  normalize1 (map Fin (map (Rmult c) u)) = normalize1 (map Fin u).
Proof.
  intros Hc H1 H2. pose proof eps_normalize_pos as He.
  rewrite !normalize1_Fin by (rewrite ?norm2_scale; lra).
  rewrite norm2_scale by lra. f_equal. rewrite map_map.
  apply map_ext. intros x. field. split; lra.
Qed.

(** X11.  [je_loss] sees the directions of the predicted vectors only: scaling
    the predictions by a positive factor leaves the loss unchanged, as long
    as no norm is below the clamp of the normalization. *)
Theorem je_loss_scale_invariant (B T D : nat) (c : R)
    (ps : list (list (list R))) (targets : Tensor3) :
  0 < c ->
  Forall (Forall (fun u => eps_normalize <= norm2 u /\
                           eps_normalize <= c * norm2 u)) ps ->
  je_loss (tensor3 B T D (map (map (map (Rmult c))) ps)) targets
  = je_loss (tensor3 B T D ps) targets.
Proof.
  intros Hc Hps.
  assert (E : normalize (tensor3 B T D (map (map (map (Rmult c))) ps))
              = normalize (tensor3 B T D ps)).
  { unfold normalize, tensor3. cbn [shape3 data3]. f_equal.
    rewrite !map_map. apply map_ext_in. intros ex Hex.
    rewrite !map_map. apply map_ext_in. intros u Hu.
    rewrite Forall_forall in Hps. specialize (Hps ex Hex).
    rewrite Forall_forall in Hps. destruct (Hps u Hu).
    now apply normalize1_scale. }
  unfold je_loss. cbv zeta. rewrite E. reflexivity.
Qed.

Lemma norm2_one : norm2 [1] = 1.
Proof.
  unfold norm2, Rsum. cbn. replace (1 * 1 + 0) with 1 by ring. apply sqrt_1.
Qed.

Lemma je_loss_scale_invariant_witness :
  0 < 2 /\
  je_loss (tensor3 1 2 1 (map (map (map (Rmult 2))) [[[1]; [1]]]))
          (tensor3 1 2 1 [[[1]; [1]]])
  = je_loss (tensor3 1 2 1 [[[1]; [1]]]) (tensor3 1 2 1 [[[1]; [1]]]).
Proof.
  split; [lra|].
  apply (@je_loss_scale_invariant 1 2 1 2 [[[1]; [1]]]); [lra|].
  pose proof eps_normalize_pos.
  assert (eps_normalize <= 1) by (unfold eps_normalize; lra).
  repeat (constructor; try (rewrite norm2_one; lra)).
Defined.

(** ** Centering *)

Lemma nth_combine_seq {A B : Type} (f : nat * A -> B) (row : list A)
    (d : nat) (da : A) (db : B) :
  (d < length row)%nat ->
  nth d (map f (combine (seq 0 (length row)) row)) db = f (d, nth d row da).
Proof.
  intros Hd. rewrite (combine_seq_nth da), map_map.
  rewrite (nth_indep _ db (f (0%nat, nth 0 row da)))
    by (rewrite length_map, length_seq; exact Hd).
  rewrite (map_nth (fun i => f (i, nth i row da))), seq_nth by exact Hd.
  reflexivity.
Qed.

Lemma column_center (N D : nat) (x : Tensor2) (d : nat) :
  finite2 N D (data2 x) -> (d < D)%nat ->
  column d (center x)
  = map (fun a => ssub a (smean (column d x))) (column d x).
Proof.
  intros [_ Hx] Hd. unfold column at 1 3, center. cbn [data2].
  rewrite !map_map. apply map_ext_in. intros row Hrow.
  rewrite Forall_forall in Hx. destruct (Hx row Hrow) as [Hlen _].
  rewrite (@nth_combine_seq _ _ _ row d NaN NaN) by lia. reflexivity.
Qed.

Lemma Rsum_shift (m : R) (l : list R) :
  Rsum (map (fun a => a - m) l) = Rsum l - INR (length l) * m.
Proof.
  induction l as [|a l IH]; cbn [map length].
  - unfold Rsum. cbn. ring.
  - rewrite !Rsum_cons, IH, S_INR. ring.
Qed.

(** X15.  After [x - x.mean(dim=0)] every feature has mean zero over
    the batch. *)
Theorem center_zero_mean (N D : nat) (xs : list (list R)) (d : nat) :
  has_shape2 N D xs -> (1 <= N)%nat -> (d < D)%nat ->
  smean (column d (center (tensor2 N D xs))) = Fin 0.
Proof.
  intros Hx HN Hd. pose proof (finite2_tensor2 Hx) as Fx.
  rewrite (column_center _ Fx Hd).
  destruct (@finite_column N D (tensor2 N D xs) d Fx Hd) as [Hlen Hfin].
  destruct (finite_list Hfin) as (rs & Ers). rewrite Ers in *.
  rewrite length_map in Hlen.
  assert (HZ : (Z.of_nat (length rs) =? 0)%Z = false) by (apply Z.eqb_neq; lia).
  unfold smean at 2. rewrite ssum_Fin, length_map. cbn [sdiv_count]. rewrite HZ.
  rewrite map_map. cbn [ssub lift2].
  change (map (fun x => Fin (x - Rsum rs / IZR (Z.of_nat (length rs)))) rs)
    with (map (fun x => Fin ((fun a => a - Rsum rs / IZR (Z.of_nat (length rs))) x)) rs).
  rewrite <- (map_map (fun a => a - Rsum rs / IZR (Z.of_nat (length rs))) Fin).
  unfold smean. rewrite ssum_Fin, !length_map. cbn [sdiv_count]. rewrite HZ.
  f_equal. rewrite Rsum_shift, <- INR_IZR_INZ.
  assert (0 < INR (length rs)) by (apply lt_0_INR; lia).
  field. lra.
Qed.

Lemma center_zero_mean_witness :
  has_shape2 2 1 [[1]; [3]] /\
  smean (column 0 (center (tensor2 2 1 [[1]; [3]]))) = Fin 0.
Proof.
  assert (H : has_shape2 2 1 [[1]; [3]]) by (split; repeat constructor).
  split; [exact H|].
  apply (@center_zero_mean 2 1 [[1]; [3]] 0 H); lia.
Defined.

(** ** The loss of a training iteration *)

Lemma has_shape3_drop_first_step (B T D : nat) (x : list (list (list R))) :
  has_shape3 B T D x -> has_shape3 B (T - 1) D (drop_first_step x).
Proof.
  intros [HB Hx]. unfold drop_first_step. split; [now rewrite length_map|].
  rewrite Forall_forall in *. intros ex Hex. apply in_map_iff in Hex as (ex0 & <- & Hex).
  destruct (Hx ex0 Hex) as [HT Hv]. destruct ex0 as [|v ex0]; cbn [tl length] in *.
  - split; [lia | constructor].
  - split; [lia | now apply Forall_inv_tail in Hv].
Qed.

(** The forward pass and the target pass of a valid batch, with the
    shapes of their results. *)
Lemma training_pass (self : JEPAModel) (states : States) (actions : Actions)
    (B T C H W : nat) :
  model_invariant self ->
  batch_valid self states actions = true ->
  states_shape states = (B, T, C, H, W) -> (1 <= B)%nat ->
  exists predictions targets,
    forward self true states actions = Some predictions /\
    get_target_representations self states = Some targets /\
    has_shape3 B T (repr_dim self) (value predictions) /\
    has_shape3 B T (repr_dim self) (value targets) /\
    out_features (fc_1 (online_encoder self)) = repr_dim self /\
    out_features (fc_1 (target_encoder self)) = repr_dim self /\
    (1 <= T)%nat.
Proof.
  intros Hinv Hb Hs HB. pose proof Hinv as (Hd & He & _).
  destruct (forward_exact self true states actions Hd Hb Hs)
    as (enc & lats & _ & Hlen & Hsh & _ & Hf).
  specialize (Hf states eq_refl eq_refl).
  pose proof Hb as Hb'. unfold batch_valid in Hb'. rewrite Hs in Hb'.
  destruct (actions_shape actions) as [[B' Ta] A].
  pose proof Hd as Hd'. unfold dims_ok in Hd'. split_andb.
  unfold encoder_dims in He. injection He as E1 E2 E3 E4 E5 E6 E7 E8.
  destruct (@target_latents self states B T C H W) as (yss & _ & Hy & Eg); auto.
  { unfold encoder_chain_ok. rewrite E1, E2, E3, E4, E5.
    repeat (apply andb_true_iff; split);
      first [apply Nat.leb_le | apply Nat.eqb_eq]; assumption. }
  { unfold frames_fit. rewrite E1, E6, E7.
    repeat (apply andb_true_iff; split);
      first [apply Nat.leb_le | apply Nat.eqb_eq]; assumption. }
  eexists. exists (mkTracked yss []). split; [exact Hf|]. split; [exact Eg|].
  cbn [value]. split.
  - replace T with (length (enc :: lats)) by (cbn [length]; lia).
    apply has_shape3_cat_dim1. exact Hsh.
  - split; [|split; [|split]]; try lia. rewrite E8 in Hy.
    replace (repr_dim self) with (out_features (fc_1 (online_encoder self))) by lia.
    exact Hy.
Qed.

(** X18.  On a valid batch of trajectories of at most two frames the
    forward pass of an iteration of [train_model] does not raise and its
    loss is NaN: after dropping the first step one time step or none is
    left, and the standard deviation across time is NaN. *)
Theorem train_model_loss_short_is_nan (self : JEPAModel) (states : States)
    (actions : Actions) (B T C H W : nat) :
  model_invariant self ->
  batch_valid self states actions = true ->
  states_shape states = (B, T, C, H, W) -> (1 <= B)%nat ->
  (T <= 2)%nat ->
  train_model_loss self states actions = Some NaN.
Proof.
  intros Hinv Hb Hs HB HT2.
  destruct (@training_pass self states actions B T C H W Hinv Hb Hs HB)
    as (predictions & targets & Ef & Eg & Hp & Ht & Do & Dt & HT).
  unfold train_model_loss. rewrite Hs, Ef, Eg. cbn [bind]. rewrite Do, Dt.
  f_equal.
  apply has_shape3_drop_first_step in Hp.
  unfold je_loss. cbv zeta.
  rewrite (smean_all_NaN
             (l := concat (std_dim1 (normalize
                (tensor3 B (T - 1) (repr_dim self)
                         (drop_first_step (value predictions))))))).
  - cbn [ssub sabs lift1 lift2 sadd]. rewrite smul_NaN_r. apply sadd_NaN_r.
  - apply std_dim1_short. unfold normalize, tensor3. cbn [data3].
    destruct Hp as [_ Hp]. rewrite Forall_forall in Hp.
    apply Forall_forall. intros ex Hex.
    apply in_map_iff in Hex as (ex1 & <- & Hex).
    apply in_map_iff in Hex as (ex0 & <- & Hex).
    rewrite !length_map. destruct (Hp ex0 Hex) as [-> _]. lia.
Qed.

Lemma train_model_loss_short_is_nan_witness :
  batch_valid example_model example_states example_actions = true /\
  train_model_loss example_model example_states example_actions = Some NaN.
Proof.
  split; [lazy; reflexivity|].
  apply (@train_model_loss_short_is_nan example_model example_states
           example_actions 1 2 2 65 65).
  - apply model_invariant_init.
  - lazy; reflexivity.
  - reflexivity.
  - lia.
  - lia.
Defined.

(** * The probes *)

Section ProbesProperties.

Import Models.
Import Probes.
Import Ascii.

(** ** [build_mlp] *)

Lemma mapM_seq_shift {B : Type} (f : nat -> option B) (s n : nat) :
  mapM f (seq (S s) n) = mapM (fun i => f (S i)) (seq s n).
Proof.
  revert s; induction n as [|n IH]; intros s; cbn; auto.
  now rewrite IH.
Qed.

Lemma Linear_layer_of_spec (a b : Z) :
  (Linear_layer_of a b <> None <-> (0 <= a)%Z /\ (0 <= b)%Z) /\
  (forall l, Linear_layer_of a b = Some l ->
     l = Linear_layer (Z.to_nat a) (Z.to_nat b)).
Proof.
  unfold Linear_layer_of.
  destruct (a <? 0)%Z eqn:Ea; destruct (b <? 0)%Z eqn:Eb; cbn [orb];
    rewrite ?Z.ltb_lt, ?Z.ltb_ge in *; (split; [split|]); try discriminate;
    try congruence; try lia.
Qed.

Lemma BatchNorm1d_layer_of_nonneg (k : Z) :
  (0 <= k)%Z -> BatchNorm1d_layer_of k = Some (BatchNorm1d_layer (Z.to_nat k)).
Proof.
  intros H. unfold BatchNorm1d_layer_of.
  destruct (k <? 0)%Z eqn:E; [apply Z.ltb_lt in E; lia | reflexivity].
Qed.

Lemma build_mlp_short (layers_dims : list Z) :
  (length layers_dims < 2)%nat -> build_mlp layers_dims = None.
Proof.
  destruct layers_dims as [|a [|b rest]]; cbn [length]; intros H;
    [reflexivity | reflexivity | lia].
Qed.

Lemma build_mlp_two (a b : Z) :
  build_mlp [a; b] = l <- Linear_layer_of a b ;; Some [l].
Proof. reflexivity. Qed.

Lemma build_mlp_cons (a b c : Z) (rest : list Z) :
  build_mlp (a :: b :: c :: rest)
  = l <- Linear_layer_of a b ;;
    n <- BatchNorm1d_layer_of b ;;
    ls <- build_mlp (b :: c :: rest) ;;
    Some (l :: n :: ReLU_layer :: ls).
Proof.
  unfold build_mlp. cbv zeta.
  cbn [length Nat.ltb Nat.leb Nat.sub].
  rewrite Nat.sub_0_r. cbn [seq mapM]. rewrite mapM_seq_shift.
  change (nth 0 (a :: b :: c :: rest) 0%Z) with a.
  change (nth (0 + 1) (a :: b :: c :: rest) 0%Z) with b.
  destruct (Linear_layer_of a b) as [l|]; [|reflexivity]. cbn [bind].
  destruct (BatchNorm1d_layer_of b) as [n|]; [|reflexivity]. cbn [bind].
  change (fun i : nat =>
            l0 <- Linear_layer_of (nth (S i) (a :: b :: c :: rest) 0%Z)
                                  (nth (S i + 1) (a :: b :: c :: rest) 0%Z) ;;
            b0 <- BatchNorm1d_layer_of (nth (S i + 1) (a :: b :: c :: rest) 0%Z) ;;
            Some [l0; b0; ReLU_layer])
    with (fun i : nat =>
            l0 <- Linear_layer_of (nth i (b :: c :: rest) 0%Z)
                                  (nth (i + 1) (b :: c :: rest) 0%Z) ;;
            b0 <- BatchNorm1d_layer_of (nth (i + 1) (b :: c :: rest) 0%Z) ;;
            Some [l0; b0; ReLU_layer]).
  destruct (mapM _ (seq 0 (length rest))) as [hidden|]; [|reflexivity].
  cbn [bind].
  change (nth (S (length rest)) (a :: b :: c :: rest) 0%Z)
    with (nth (length rest) (b :: c :: rest) 0%Z).
  change (nth (S (S (length rest))) (a :: b :: c :: rest) 0%Z)
    with (nth (S (length rest)) (b :: c :: rest) 0%Z).
  destruct (Linear_layer_of _ _) as [l'|]; reflexivity.
Qed.

(** The layers built from the sizes [a :: b :: rest]. *)
Lemma build_mlp_spec (rest : list Z) :
  forall a b : Z,
  (build_mlp (a :: b :: rest) <> None
   <-> Forall (fun z => (0 <= z)%Z) (a :: b :: rest)) /\
  (forall layers, build_mlp (a :: b :: rest) = Some layers ->
     length layers = (3 * length rest + 1)%nat /\
     widths layers (Z.to_nat a) = Some (Z.to_nat (last (b :: rest) 0%Z))).
Proof.
  induction rest as [|c rest IH]; intros a b.
  - rewrite build_mlp_two.
    destruct (Linear_layer_of_spec a b) as [Hok Hl].
    destruct (Linear_layer_of a b) as [l|]; cbn [bind].
    + split.
      * split; [intros _ | discriminate].
        destruct (proj1 Hok ltac:(discriminate)). repeat constructor; assumption.
      * intros layers E. injection E as <-. rewrite (Hl l eq_refl).
        split; [reflexivity|]. cbn. now rewrite Nat.eqb_refl.
    + split; [|discriminate]. split; [congruence|].
      intros HF. exfalso. apply (proj2 Hok); [|reflexivity].
      split; [exact (Forall_inv HF) | exact (Forall_inv (Forall_inv_tail HF))].
  - rewrite build_mlp_cons.
    destruct (Linear_layer_of_spec a b) as [Hok Hl].
    destruct (IH b c) as [IHok IHls].
    destruct (Linear_layer_of a b) as [l|]; cbn [bind].
    + destruct (proj1 Hok ltac:(discriminate)) as [Ha Hb].
      rewrite (BatchNorm1d_layer_of_nonneg Hb). cbn [bind].
      destruct (build_mlp (b :: c :: rest)) as [ls|]; cbn [bind].
      * split.
        -- split; [intros _ | discriminate]. constructor; [exact Ha|].
           apply IHok. discriminate.
        -- intros layers E. injection E as <-. rewrite (Hl l eq_refl).
           destruct (IHls ls eq_refl) as [Hlen Hw]. split.
           ++ cbn [length] in *. lia.
           ++ do 3 (cbn [widths layer_width bind]; rewrite ?Nat.eqb_refl).
              cbn [bind]. rewrite Hw. reflexivity.
      * split; [|discriminate]. split; [congruence|].
        intros HF. apply IHok. exact (Forall_inv_tail HF).
    + split; [|discriminate]. split; [congruence|].
      intros HF. exfalso. apply (proj2 Hok); [|reflexivity].
      split; [exact (Forall_inv HF) | exact (Forall_inv (Forall_inv_tail HF))].
Qed.

(** X19.  [build_mlp] returns exactly on two or more sizes none of which
    is negative: on fewer it raises at [layers_dims[-2]], on a negative
    size in the layer that is given it.  It returns three layers per
    hidden size and a final linear layer, and the widths fit from
    [layers_dims[0]] through to [layers_dims[-1]]. *)
Theorem build_mlp_chain (layers_dims : list Z) :
  (build_mlp layers_dims <> None
   <-> (2 <= length layers_dims)%nat /\ Forall (fun z => (0 <= z)%Z) layers_dims) /\
  (forall layers, build_mlp layers_dims = Some layers ->
     length layers = (3 * (length layers_dims - 2) + 1)%nat /\
     widths layers (Z.to_nat (hd 0%Z layers_dims))
     = Some (Z.to_nat (last layers_dims 0%Z))).
Proof.
  destruct layers_dims as [|a [|b rest]].
  - rewrite build_mlp_short by (cbn [length]; lia).
    split; [|discriminate]. split; [congruence | cbn [length]; lia].
  - rewrite build_mlp_short by (cbn [length]; lia).
    split; [|discriminate]. split; [congruence | cbn [length]; lia].
  - destruct (build_mlp_spec rest a b) as [Hok Hls]. split.
    + rewrite Hok. cbn [length]. split; [intros H; split; [lia | exact H] | tauto].
    + intros layers E. destruct (Hls layers E) as [Hlen Hw]. split.
      * rewrite Hlen. cbn [length]. f_equal. lia.
      * exact Hw.
Qed.

Lemma build_mlp_chain_witness :
  build_mlp [3; 4; 5]%Z
  = Some [Linear_layer 3 4; BatchNorm1d_layer 4; ReLU_layer; Linear_layer 4 5] /\
  length [Linear_layer 3 4; BatchNorm1d_layer 4; ReLU_layer; Linear_layer 4 5]
  = (3 * (length [3; 4; 5]%Z - 2) + 1)%nat /\
  widths [Linear_layer 3 4; BatchNorm1d_layer 4; ReLU_layer; Linear_layer 4 5]
         (Z.to_nat (hd 0%Z [3; 4; 5]%Z))
  = Some (Z.to_nat (last [3; 4; 5]%Z 0%Z)).
Proof.
  split; [reflexivity|].
  apply (proj2 (build_mlp_chain [3; 4; 5]%Z)). reflexivity.
Defined.

(** ** [Prober] *)

Lemma Prober_layers_two (a b : Z) (draw : nat -> nat -> R) :
  Prober_layers [a; b] draw
  = m <- Linear_of a b (draw 0%nat) (draw 1%nat) ;; Some [Prober_Linear m].
Proof. reflexivity. Qed.

Lemma Prober_layers_cons (a b c : Z) (rest : list Z) (draw : nat -> nat -> R) :
  Prober_layers (a :: b :: c :: rest) draw
  = m <- Linear_of a b (draw 0%nat) (draw 1%nat) ;;
    ls <- Prober_layers (b :: c :: rest) (fun k => draw (S (S k))) ;;
    Some (Prober_Linear m :: Prober_ReLU :: ls).
Proof.
  unfold Prober_layers. cbv zeta.
  cbn [length Nat.sub]. rewrite Nat.sub_0_r.
  cbn [seq mapM]. rewrite mapM_seq_shift.
  change (nth 0 (a :: b :: c :: rest) 0%Z) with a.
  change (nth (0 + 1) (a :: b :: c :: rest) 0%Z) with b.
  change (2 * 0)%nat with 0%nat. change (0 + 1)%nat with 1%nat.
  destruct (Linear_of a b (draw 0%nat) (draw 1%nat)) as [m|]; [|reflexivity].
  cbn [bind].
  rewrite (@mapM_ext_in _ _
             (fun i => m0 <- Linear_of (nth (S i) (a :: b :: c :: rest) 0%Z)
                                       (nth (S i + 1) (a :: b :: c :: rest) 0%Z)
                                       (draw (2 * S i)%nat) (draw (2 * S i + 1)%nat) ;;
                       Some [Prober_Linear m0; Prober_ReLU])
             (fun i => m0 <- Linear_of (nth i (b :: c :: rest) 0%Z)
                                       (nth (i + 1) (b :: c :: rest) 0%Z)
                                       (draw (S (S (2 * i)))) (draw (S (S (2 * i + 1)))) ;;
                       Some [Prober_Linear m0; Prober_ReLU])).
  2:{ intros i _. replace (2 * S i)%nat with (S (S (2 * i))) by lia.
      replace (S (S (2 * i)) + 1)%nat with (S (S (2 * i + 1))) by lia.
      reflexivity. }
  destruct (mapM _ (seq 0 (length rest))) as [hidden|]; [|reflexivity].
  cbn [bind].
  replace (2 * S (length rest))%nat with (S (S (2 * length rest))) by lia.
  replace (S (S (2 * length rest)) + 1)%nat with (S (S (2 * length rest + 1))) by lia.
  change (nth (S (length rest)) (a :: b :: c :: rest) 0%Z)
    with (nth (length rest) (b :: c :: rest) 0%Z).
  change (nth (S (S (length rest))) (a :: b :: c :: rest) 0%Z)
    with (nth (S (length rest)) (b :: c :: rest) 0%Z).
  destruct (Linear_of _ _ _ _) as [l|]; reflexivity.
Qed.

Lemma Linear_of_spec (a b : Z) (dw db : nat -> R) :
  (Linear_of a b dw db <> None <-> (0 <= a)%Z /\ (0 <= b)%Z) /\
  (forall m, Linear_of a b dw db = Some m ->
     in_features m = Z.to_nat a /\ out_features m = Z.to_nat b).
Proof.
  unfold Linear_of.
  destruct (a <? 0)%Z eqn:Ea; destruct (b <? 0)%Z eqn:Eb; cbn [orb];
    rewrite ?Z.ltb_lt, ?Z.ltb_ge in *; (split; [split|]); try discriminate;
    try congruence; try lia.
  intros m E. injection E as <-. auto.
Qed.

Lemma split_last_nil (s : list nat) : split_last s = None <-> s = [].
Proof.
  destruct s as [|d s]; cbn; [tauto|].
  destruct (split_last s) as [[lead k]|]; split; discriminate.
Qed.

Lemma split_last_app (s lead : list nat) (k : nat) :
  split_last s = Some (lead, k) <-> s = lead ++ [k].
Proof.
  revert lead; induction s as [|d s IH]; intros lead; cbn.
  - split; [discriminate | intros E; destruct lead; discriminate].
  - destruct (split_last s) as [[lead' k']|] eqn:E.
    + split.
      * intros E'. injection E' as <- <-. cbn. f_equal. now apply IH.
      * destruct lead as [|d' lead]; cbn; intros E'.
        -- injection E' as -> ->. discriminate.
        -- injection E' as -> E'. apply IH in E'. now injection E' as -> ->.
    + apply split_last_nil in E. subst s. split.
      * intros E'. now injection E' as <- <-.
      * destruct lead as [|d' lead]; cbn; intros E'.
        -- now injection E' as ->.
        -- injection E' as _ E'. destruct lead; discriminate.
Qed.

Lemma numel_app (lead : list nat) (k : nat) :
  numel (lead ++ [k]) = (numel lead * k)%nat.
Proof.
  induction lead as [|d lead IH]; cbn [app numel fold_right].
  - lia.
  - fold (numel (lead ++ [k])). fold (numel lead). rewrite IH. lia.
Qed.

(** [nn.Linear] accepts the tensors whose last dimension is
    [in_features], and replaces it by [out_features]. *)
Lemma Linear_forward_spec (m : Linear) (x : Tensor) :
  tensor_valid x ->
  (Linear_forward m x <> None
   <-> exists lead, tshape x = lead ++ [in_features m]) /\
  (forall y, Linear_forward m x = Some y ->
     tensor_valid y /\
     exists lead, tshape x = lead ++ [in_features m] /\
                  tshape y = lead ++ [out_features m]).
Proof.
  intros Hx. unfold Linear_forward.
  destruct (split_last (tshape x)) as [[lead k]|] eqn:Es.
  2:{ apply split_last_nil in Es. split; [|discriminate].
      split; [congruence|]. intros [lead E]. rewrite Es in E.
      destruct lead; discriminate. }
  apply split_last_app in Es.
  destruct (k =? in_features m)%nat eqn:Ek; cbn [negb].
  2:{ apply Nat.eqb_neq in Ek. split; [|discriminate].
      split; [congruence|]. intros [lead' E]. rewrite Es in E.
      apply app_inj_tail in E as [_ E]. congruence. }
  apply Nat.eqb_eq in Ek. subst k.
  assert (Hrows : Forall (fun c => length c = in_features m)
                         (chunks (in_features m) (numel lead) (tdata x))).
  { apply chunks_lengths. unfold tensor_valid in Hx.
    rewrite Hx, Es, numel_app. lia. }
  destruct (mapM (Linear_forward1 m) (chunks (in_features m) (numel lead) (tdata x)))
    as [rows|] eqn:Er; cbn [bind].
  - split; [split; [intros _; now exists lead | discriminate]|].
    intros y E. injection E as <-. split.
    + unfold tensor_valid. cbn [tdata tshape]. rewrite numel_app.
      rewrite (@length_concat_uniform _ (out_features m)).
      * now rewrite (mapM_length _ _ Er), length_chunks.
      * apply Forall_forall.
        eapply mapM_Forall; [|exact Er].
        intros c r _ Ecr. now apply (proj2 (Linear_forward1_iff m c)).
    + exists lead. now split.
  - exfalso. revert Er. apply mapM_not_None.
    eapply Forall_impl; [|exact Hrows]. cbv beta. intros c Hc.
    now apply (proj1 (Linear_forward1_iff m c)).
Qed.

(** The layers built from the sizes [a :: b :: rest]. *)
Lemma Prober_layers_spec (rest : list Z) :
  forall (a b : Z) (draw : nat -> nat -> R),
  (Prober_layers (a :: b :: rest) draw <> None
   <-> Forall (fun z => (0 <= z)%Z) (a :: b :: rest)) /\
  (forall ls, Prober_layers (a :: b :: rest) draw = Some ls ->
     length ls = (2 * length rest + 1)%nat /\
     forall x, tensor_valid x ->
       (Sequential_forward ls x <> None
        <-> exists lead, tshape x = lead ++ [Z.to_nat a]) /\
       (forall y, Sequential_forward ls x = Some y ->
          tensor_valid y /\
          exists lead, tshape x = lead ++ [Z.to_nat a] /\
                       tshape y = lead ++ [Z.to_nat (last (b :: rest) 0%Z)])).
Proof.
  induction rest as [|c rest IH]; intros a b draw.
  - rewrite Prober_layers_two.
    destruct (Linear_of_spec a b (draw 0%nat) (draw 1%nat)) as [Hok Hm].
    destruct (Linear_of a b (draw 0%nat) (draw 1%nat)) as [m|]; cbn [bind].
    + destruct (Hm m eq_refl) as [Hin Hout]. split.
      * split; [intros _ | discriminate].
        destruct (proj1 Hok ltac:(discriminate)). repeat constructor; assumption.
      * intros ls E. injection E as <-. split; [reflexivity|].
        intros x Hx. cbn [Sequential_forward layer_forward last].
        destruct (Linear_forward_spec m Hx) as [Hacc Hy].
        rewrite Hin, Hout in *.
        destruct (Linear_forward m x) as [y|]; cbn [bind].
        -- split; [split; [intros _; apply Hacc; discriminate | discriminate]|].
           intros y' E. injection E as <-. now apply Hy.
        -- split; [|discriminate]. split; [congruence|].
           intros E. apply Hacc in E. congruence.
    + split; [|discriminate]. split; [congruence|].
      intros HF. exfalso. apply (proj2 Hok); [|reflexivity].
      split; [exact (Forall_inv HF) | exact (Forall_inv (Forall_inv_tail HF))].
  - rewrite Prober_layers_cons.
    destruct (Linear_of_spec a b (draw 0%nat) (draw 1%nat)) as [Hok Hm].
    destruct (IH b c (fun k => draw (S (S k)))) as [IHok IHls].
    destruct (Linear_of a b (draw 0%nat) (draw 1%nat)) as [m|]; cbn [bind].
    + destruct (Hm m eq_refl) as [Hin Hout].
      destruct (proj1 Hok ltac:(discriminate)) as [Ha Hb].
      destruct (Prober_layers (b :: c :: rest) (fun k => draw (S (S k))))
        as [ls0|]; cbn [bind].
      * split.
        -- split; [intros _ | discriminate]. constructor; [exact Ha|].
           apply IHok. discriminate.
        -- intros ls E. injection E as <-.
           destruct (IHls ls0 eq_refl) as [Hlen Hfw]. split.
           ++ cbn [length] in *. lia.
           ++ intros x Hx. cbn [Sequential_forward layer_forward].
              destruct (Linear_forward_spec m Hx) as [Hacc Hy].
              rewrite Hin, Hout in *.
              destruct (Linear_forward m x) as [y|]; cbn [bind].
              ** destruct (Hy y eq_refl) as (Hvy & lead & Esx & Esy).
                 set (r := mkTensor (tshape y) (ReLU_vec (tdata y))).
                 assert (Hr : tensor_valid r).
                 { unfold tensor_valid, r, ReLU_vec. cbn [tdata tshape].
                   rewrite length_map. exact Hvy. }
                 destruct (Hfw r Hr) as [Hacc' Hy'].
                 change (last (b :: c :: rest) 0%Z) with (last (c :: rest) 0%Z).
                 split.
                 --- split; [intros _; now exists lead|].
                     intros _. apply Hacc'. now exists lead.
                 --- intros y' E. destruct (Hy' y' E) as (Hvy' & lead' & Er & Ey').
                     split; [exact Hvy'|]. exists lead. split; [exact Esx|].
                     unfold r in Er. cbn [tshape] in Er. rewrite Esy in Er.
                     apply app_inj_tail in Er as [-> _]. exact Ey'.
              ** split; [|discriminate]. split; [congruence|].
                 intros E. apply Hacc in E. congruence.
      * split; [|discriminate]. split; [congruence|].
        intros HF. apply IHok. exact (Forall_inv_tail HF).
    + split; [|discriminate]. split; [congruence|].
      intros HF. exfalso. apply (proj2 Hok); [|reflexivity].
      split; [exact (Forall_inv HF) | exact (Forall_inv (Forall_inv_tail HF))].
Qed.

Section ProberProperties.

Variable int : string -> option Z.
Variable np_prod : list Z -> option Z.

(** The sizes [f] of [__init__] have the form the layer lemmas need. *)
Lemma Prober_sizes (embedding : Z) (sizes : list Z) (d : Z) :
  exists b rest,
    (embedding :: sizes) ++ [d] = embedding :: b :: rest /\
    length rest = length sizes /\
    last (b :: rest) 0%Z = d /\
    (Forall (fun z => (0 <= z)%Z) (embedding :: b :: rest)
     <-> (0 <= embedding)%Z /\ (0 <= d)%Z /\ Forall (fun z => (0 <= z)%Z) sizes).
Proof.
  destruct (sizes ++ [d]) as [|b rest] eqn:E.
  { apply (f_equal (@length Z)) in E. rewrite length_app in E. cbn in E. lia. }
  exists b, rest. cbn [app]. rewrite E. split; [reflexivity|].
  split; [|split].
  - apply (f_equal (@length Z)) in E. rewrite length_app in E. cbn in E. lia.
  - rewrite <- E. apply last_last.
  - rewrite <- E. split.
    + intros HF. split; [exact (Forall_inv HF)|].
      apply Forall_inv_tail in HF. apply Forall_app in HF as [H1 H2].
      split; [exact (Forall_inv H2) | exact H1].
    + intros (He & Hd & Hs). constructor; [exact He|]. apply Forall_app. split; auto.
Qed.

(** X20.  [Prober.__init__] succeeds exactly when [np.prod] returns an
    integer and every piece of [arch] is read as an integer, and neither
    these nor [embedding] are negative. *)
Theorem Prober_init_accepts (embedding : Z) (arch : string)
    (output_shape : list Z) (draw : nat -> nat -> R) :
  Prober_init int np_prod embedding arch output_shape draw <> None <->
  exists d sizes,
    np_prod output_shape = Some d /\ arch_list_of int arch = Some sizes /\
    (0 <= embedding)%Z /\ (0 <= d)%Z /\ Forall (fun z => (0 <= z)%Z) sizes.
Proof.
  unfold Prober_init.
  destruct (np_prod output_shape) as [d|]; cbn [bind].
  2:{ split; [congruence|]. intros (d & sizes & E & _). discriminate. }
  destruct (arch_list_of int arch) as [sizes|]; cbn [bind].
  2:{ split; [congruence|]. intros (d' & sizes & _ & E & _). discriminate. }
  destruct (Prober_sizes embedding sizes d) as (b & rest & -> & _ & _ & HF).
  destruct (Prober_layers_spec rest embedding b draw) as [Hok _].
  destruct (Prober_layers (embedding :: b :: rest) draw) as [ls|];
    cbn [bind].
  - split; [intros _ | discriminate]. exists d, sizes.
    destruct (proj1 HF (proj1 Hok ltac:(discriminate))) as (He & Hd & Hs). auto.
  - split; [congruence|]. intros (d' & sizes' & E1 & E2 & He & Hd & Hs).
    injection E1 as <-. injection E2 as <-. intros _.
    apply (proj2 Hok (proj2 HF (conj He (conj Hd Hs)))). reflexivity.
Qed.

(** X21.  A constructed [Prober] has one linear layer more than [arch] has
    pieces, with a ReLU after each but the last.  [Prober.forward]
    accepts exactly the tensors whose last dimension is [embedding]
    (tensors of rank 0 and tensors without entries included), and returns
    a tensor of the same leading dimensions whose last dimension is
    [output_dim], the product of the output shape. *)
Theorem Prober_forward_accepts (embedding : Z) (arch : string)
    (output_shape : list Z) (draw : nat -> nat -> R) (self : Prober) :
  Prober_init int np_prod embedding arch output_shape draw = Some self ->
  np_prod output_shape = Some (output_dim self) /\
  (0 <= embedding)%Z /\ (0 <= output_dim self)%Z /\
  length (prober self)
  = (2 * (if String.eqb arch "" then 0 else length (split "-" arch)) + 1)%nat /\
  forall e : Tensor, tensor_valid e ->
    (Prober_forward self e <> None
     <-> exists lead, tshape e = lead ++ [Z.to_nat embedding]) /\
    (forall out, Prober_forward self e = Some out ->
       tensor_valid out /\
       exists lead, tshape e = lead ++ [Z.to_nat embedding] /\
                    tshape out = lead ++ [Z.to_nat (output_dim self)]).
Proof.
  unfold Prober_init. intros E.
  destruct (np_prod output_shape) as [d|]; [|discriminate]. cbn [bind] in E.
  destruct (arch_list_of int arch) as [sizes|] eqn:Es; [|discriminate].
  cbn [bind] in E.
  destruct (Prober_sizes embedding sizes d) as (b & rest & Ef & Hlen & Hlast & HF).
  rewrite Ef in E.
  destruct (Prober_layers_spec rest embedding b draw) as [Hok Hls].
  destruct (Prober_layers (embedding :: b :: rest) draw) as [ls|] eqn:El;
    [|discriminate].
  cbn [bind] in E. injection E as <-. cbn [output_dim prober].
  destruct (Hls ls eq_refl) as [Hcount Hfw].
  destruct (proj1 HF (proj1 Hok ltac:(discriminate))) as (He & Hd & _).
  split; [reflexivity|]. split; [exact He|]. split; [exact Hd|]. split.
  - rewrite Hcount, Hlen. unfold arch_list_of in Es.
    destruct (String.eqb arch "").
    + injection Es as <-. reflexivity.
    + now rewrite (mapM_length _ _ Es).
  - intros e Hv. unfold Prober_forward. cbn [prober].
    rewrite <- Hlast. exact (Hfw e Hv).
Qed.

End ProberProperties.

Lemma Prober_init_accepts_witness :
  Prober_init int_example np_prod_example 4 "8" [2; 1]%Z (fun _ _ => 0) <> None.
Proof.
  apply (proj2 (Prober_init_accepts int_example np_prod_example 4 "8" [2; 1]%Z
                  (fun _ _ => 0))).
  exists 2%Z, [8%Z]. repeat split; try reflexivity; try lia.
  repeat constructor; lia.
Defined.

Lemma Prober_forward_accepts_witness :
  exists self,
    Prober_init int_example np_prod_example 4 "8" [2; 1]%Z (fun _ _ => 0)
      = Some self /\
    length (prober self) = 3%nat /\
    tensor_valid (mkTensor [0; 4]%nat []) /\
    (Prober_forward self (mkTensor [0; 4]%nat []) <> None
     <-> exists lead, [0; 4]%nat = lead ++ [Z.to_nat 4]).
Proof.
  eexists. split; [reflexivity|].
  match goal with
  | |- context [prober ?p] =>
      destruct (@Prober_forward_accepts int_example np_prod_example 4 "8"
                  [2; 1]%Z (fun _ _ => 0) p eq_refl) as (_ & _ & _ & Hcount & Hfw)
  end.
  split; [exact Hcount|].
  assert (Hv : tensor_valid (mkTensor [0; 4]%nat [])) by reflexivity.
  split; [exact Hv|]. exact (proj1 (Hfw (mkTensor [0; 4]%nat []) Hv)).
Defined.

End ProbesProperties.

(** ** The scripts *)

Section ScriptProperties.

Import Training.
Import Scripts.

Lemma for_fold_fails {A St : Type} (x : A) (xs : list A)
    (body : A -> St -> Script St) (s : St) (tr tr' : list event) (e : error) :
  body x s tr = (tr', Failed e) ->
  for_fold (x :: xs) body s tr = (tr', Failed e).
Proof. intros H. cbn [for_fold]. unfold Scripts.bind. now rewrite H. Qed.

(** X22.  [train] never completes: with no epoch it reads [avg_epoch_loss]
    before any assignment, with an empty loader it divides by zero batches,
    and otherwise its first batch fails on [model.encoder].  No weights are
    saved in any case. *)
Theorem train_always_raises (epochs n_batches : nat)
    (loss_item : nat -> nat -> R) :
  let setup := map Loop [ConstructModel; MoveToDevice; CreateOptimizer;
                         CreateScheduler; CreateDataloader; TrainMode] in
  train epochs n_batches loss_item [] =
    match epochs, n_batches with
    | O, _ => (setup, Failed (UnboundLocalError "avg_epoch_loss"))
    | S _, O => (setup, Failed ZeroDivisionError)
    | S _, S _ =>
        ((setup ++ [Loop (FetchBatch 0)])%list,
         Failed (Raised (AttributeError "JEPAModel" "encoder")))
    end.
Proof.
  intros setup. unfold train.
  destruct epochs as [|epochs].
  - reflexivity.
  - unfold Scripts.bind at 1.
    match goal with
    | |- context [lift ?m []] =>
        change (lift m []) with (setup, @Done unit tt)
    end.
    cbv beta iota. unfold Scripts.bind at 1. cbn [seq].
    destruct n_batches as [|n_batches].
    + rewrite (@for_fold_fails _ _ 0%nat (seq 1 epochs)
                 (train_epoch 0 loss_item) (mkLocals None None) setup setup
                 ZeroDivisionError); reflexivity.
    + rewrite (@for_fold_fails _ _ 0%nat (seq 1 epochs)
                 (train_epoch (S n_batches) loss_item)
                 (mkLocals None None) setup
                 (setup ++ [Loop (FetchBatch 0)])%list
                 (Raised (AttributeError "JEPAModel" "encoder"))); [reflexivity|].
      unfold train_epoch. unfold Scripts.bind at 1. cbn [seq].
      rewrite (@for_fold_fails _ _ 0%nat (seq 1 n_batches) _ (0, 0%nat) setup
                 (setup ++ [Loop (FetchBatch 0)])%list
                 (Raised (AttributeError "JEPAModel" "encoder"))); reflexivity.
Qed.

(** X23.  The script of main.py stops inside [train_model], whatever the
    device, the loader and the checkpoint file: no probing loader is
    created, no checkpoint is read and nothing is evaluated. *)
Theorem main_stops_in_training (cuda_is_available : bool) (n_batches : nat)
    (file : checkpoint) :
  main cuda_is_available n_batches file [] =
    ([Print ("Using device: " ++ (if cuda_is_available then "cuda" else "cpu"));
      Loop CreateDataloader; Loop ConstructModel; Loop MoveToDevice],
     Failed (Raised (NameError "nn"))).
Proof.
  unfold main, get_device. destruct cuda_is_available; reflexivity.
Qed.

(** [load_model] swallows the missing checkpoint and nothing else: it
    returns a model when the file is missing or matches the model, and
    raises when the file does not match. *)
Lemma load_model_outcomes (file : checkpoint) (tr : list event) :
  let built := (tr ++ [Loop ConstructModel; Loop MoveToDevice])%list in
  load_model file tr =
    match file with
    | Missing =>
        ((built ++ [Print "No saved model found, initializing a new model."])%list,
         Done tt)
    | Matching =>
        ((built ++ [TorchLoad "jepa_model.pth"; LoadStateDict;
                    Print "Loaded saved JEPA model."])%list, Done tt)
    | Mismatching =>
        ((built ++ [TorchLoad "jepa_model.pth"])%list, Failed RuntimeError)
    end.
Proof.
  intros built. subst built.
  destruct file; unfold load_model, Scripts.bind, lift,
    except_FileNotFoundError, Scripts.emit, Scripts.fail; cbn;
    rewrite <- ?app_assoc; reflexivity.
Qed.

End ScriptProperties.

(** * The losses against the formulas of the specification *)

(** ** Tensor entries of finite tensors *)

Lemma smean_Fin (l : list R) : l <> [] -> smean (map Fin l) = Fin (mean l).
Proof.
  intros Hl. unfold smean, mean. rewrite ssum_Fin, length_map. cbn [sdiv_count].
  replace (Z.of_nat (length l) =? 0)%Z with false.
  - now rewrite <- INR_IZR_INZ.
  - symmetry. apply Z.eqb_neq. destruct l; [congruence | cbn [length]; lia].
Qed.

Lemma smean_nil : smean [] = NaN.
Proof. reflexivity. Qed.

Lemma svar_Fin (l : list R) :
  (2 <= length l)%nat -> svar (map Fin l) = Fin (variance l).
Proof.
  intros Hl. unfold svar, variance. cbv zeta.
  rewrite smean_Fin by (destruct l; [cbn in Hl; lia | discriminate]).
  rewrite map_map.
  rewrite (map_ext (fun x => spow2 (ssub (Fin x) (Fin (mean l))))
                   (fun x => Fin ((x - mean l) * (x - mean l))))
    by reflexivity.
  rewrite <- (map_map (fun x => (x - mean l) * (x - mean l)) Fin).
  rewrite ssum_Fin, length_map. cbn [sdiv_count].
  replace (Z.of_nat (length l - 1) =? 0)%Z with false
    by (symmetry; apply Z.eqb_neq; lia).
  now rewrite <- INR_IZR_INZ.
Qed.

Lemma Rsum_nonneg (l : list R) : Forall (fun x => 0 <= x) l -> 0 <= Rsum l.
Proof.
  induction 1 as [|x l Hx Hl IH]; [unfold Rsum; cbn; lra|].
  rewrite Rsum_cons. cbv beta in Hx. lra.
Qed.

Lemma variance_nonneg (l : list R) : (2 <= length l)%nat -> 0 <= variance l.
Proof.
  intros Hl. unfold variance. apply Rmult_le_pos.
  - apply Rsum_nonneg, Forall_forall. intros y Hy.
    apply in_map_iff in Hy as (x & <- & _).
    generalize (x - mean l). intros z. nra.
  - apply Rlt_le, Rinv_0_lt_compat, lt_0_INR. lia.
Qed.

Lemma sstd_Fin (l : list R) :
  (2 <= length l)%nat -> sstd (map Fin l) = Fin (std l).
Proof.
  intros Hl. unfold sstd, std. rewrite svar_Fin by exact Hl.
  apply ssqrt_Fin, variance_nonneg, Hl.
Qed.

Lemma map_combine_maps {A B A' B' C : Type} (g : A -> A') (h : B -> B')
    (f : A' * B' -> C) (l1 : list A) (l2 : list B) :
  map f (combine (map g l1) (map h l2))
  = map (fun p => f (g (fst p), h (snd p))) (combine l1 l2).
Proof.
  revert l2; induction l1 as [|a l1 IH]; intros [|b l2]; cbn; auto.
  now rewrite IH.
Qed.

Lemma nth_map_Fin (v : list R) (d : nat) :
  (d < length v)%nat -> nth d (map Fin v) NaN = Fin (nth d v 0).
Proof.
  intros H. rewrite (nth_indep _ NaN (Fin 0)) by (now rewrite length_map).
  apply map_nth.
Qed.

(** ** The normalized contrastive loss *)

(** [F.normalize] divides a vector of norm at least [1e-12] by its
    norm. *)
Lemma normalize_tensor3 (B T D : nat) (ps : list (list (list R))) :
  norms_at_least eps_normalize ps ->
  normalize (tensor3 B T D ps) = tensor3 B T D (map (map l2_normalize) ps).
Proof.
  intros Hn. unfold normalize, tensor3. cbn [shape3 data3]. f_equal.
  unfold norms_at_least in Hn. rewrite Forall_forall in Hn.
  rewrite !map_map. apply map_ext_in. intros ex Hex.
  specialize (Hn ex Hex). rewrite Forall_forall in Hn.
  rewrite !map_map. apply map_ext_in. intros u Hu.
  apply normalize1_Fin, Hn, Hu.
Qed.

Lemma has_shape3_l2_normalize (B T D : nat) (ps : list (list (list R))) :
  has_shape3 B T D ps -> has_shape3 B T D (map (map l2_normalize) ps).
Proof.
  intros [HB Hps]. split; [now rewrite length_map|].
  rewrite Forall_forall in *. intros ex Hex.
  apply in_map_iff in Hex as (ex0 & <- & Hex). destruct (Hps ex0 Hex) as [HT Hv].
  split; [now rewrite length_map|].
  rewrite Forall_forall in *. intros v Hin.
  apply in_map_iff in Hin as (v0 & <- & Hin).
  unfold l2_normalize. rewrite length_map. now apply Hv.
Qed.

Lemma dot_l2_normalize (u v : list R) :
  norm2 u <> 0 -> norm2 v <> 0 ->
  dot (l2_normalize u) (l2_normalize v) = cosine_similarity u v.
Proof.
  intros Hu Hv. unfold l2_normalize, cosine_similarity. now apply dot_scaled.
Qed.

(** The inner products of the normalized vectors are the cosine
    similarities. *)
Lemma inner_products_are_cosines (B T D : nat) (ps ts : list (list (list R))) :
  norms_at_least eps_normalize ps -> norms_at_least eps_normalize ts ->
  concat (mul_sum_last (normalize (tensor3 B T D ps)) (normalize (tensor3 B T D ts)))
  = map Fin (cosine_similarities ps ts).
Proof.
  intros Hp Ht. rewrite !normalize_tensor3 by assumption.
  unfold mul_sum_last, tensor3, cosine_similarities.
  cbn [data3]. rewrite concat_map. f_equal.
  rewrite (map_combine_maps (map (map Fin)) (map (map Fin))).
  rewrite (map_combine_maps (map l2_normalize) (map l2_normalize)).
  rewrite map_map. apply map_ext_in. intros [pe te] Hin. cbn [fst snd].
  unfold norms_at_least in Hp, Ht. rewrite Forall_forall in Hp, Ht.
  pose proof (Hp pe (in_combine_l _ _ _ _ Hin)) as Hpe.
  pose proof (Ht te (in_combine_r _ _ _ _ Hin)) as Hte.
  rewrite Forall_forall in Hpe, Hte.
  rewrite (map_combine_maps (map Fin) (map Fin)).
  rewrite (map_combine_maps l2_normalize l2_normalize).
  rewrite map_map. apply map_ext_in. intros [u v] Huv. cbn [fst snd].
  rewrite sdot_Fin. f_equal. pose proof eps_normalize_pos.
  pose proof (Hpe u (in_combine_l _ _ _ _ Huv)).
  pose proof (Hte v (in_combine_r _ _ _ _ Huv)).
  apply dot_l2_normalize; lra.
Qed.

(** The standard deviations across time of a finite tensor. *)
Lemma std_dim1_tensor3 (B T D : nat) (xs : list (list (list R))) :
  has_shape3 B T D xs -> (2 <= T)%nat ->
  concat (std_dim1 (tensor3 B T D xs))
  = map Fin (concat (map (fun ex => map (fun d => std (map (fun v => nth d v 0) ex))
                                        (seq 0 D)) xs)).
Proof.
  intros [_ Hxs] HT. unfold std_dim1, tensor3. cbn [shape3 data3 snd].
  rewrite concat_map. f_equal. rewrite !map_map.
  apply map_ext_in. intros ex Hex. rewrite Forall_forall in Hxs.
  destruct (Hxs ex Hex) as [Hlen Hv]. rewrite map_map.
  apply map_ext_in. intros d Hd. apply in_seq in Hd.
  rewrite map_map.
  rewrite (map_ext_in (fun v => nth d (map Fin v) NaN) (fun v => Fin (nth d v 0))).
  - rewrite <- (map_map (fun v => nth d v 0) Fin).
    apply sstd_Fin. rewrite length_map. lia.
  - intros v Hin. apply nth_map_Fin. rewrite Forall_forall in Hv.
    rewrite (Hv v Hin). lia.
Qed.

Lemma stds_across_time_normalized (D : nat) (xs : list (list (list R))) :
  concat (map (fun ex => map (fun d => std (map (fun v => nth d v 0) ex)) (seq 0 D))
              (map (map l2_normalize) xs))
  = stds_across_time D xs.
Proof.
  unfold stds_across_time. f_equal. rewrite map_map. apply map_ext. intros ex.
  apply map_ext. intros d. now rewrite map_map.
Qed.

Lemma length_concat_const {A : Type} (n : nat) (ls : list (list A)) :
  Forall (fun l => length l = n) ls -> length (concat ls) = (length ls * n)%nat.
Proof.
  intros H. apply length_concat_uniform. now rewrite Forall_forall in H.
Qed.

Lemma length_cosine_similarities (B T D : nat) (ps ts : list (list (list R))) :
  has_shape3 B T D ps -> has_shape3 B T D ts ->
  length (cosine_similarities ps ts) = (B * T)%nat.
Proof.
  intros [HpB Hp] [HtB Ht]. unfold cosine_similarities.
  rewrite (@length_concat_const _ T).
  - rewrite length_map, length_combine. lia.
  - rewrite Forall_forall in *. intros l Hl.
    apply in_map_iff in Hl as ([pe te] & <- & Hin). cbn [fst snd].
    rewrite length_map, length_combine.
    destruct (Hp pe (in_combine_l _ _ _ _ Hin)) as [-> _].
    destruct (Ht te (in_combine_r _ _ _ _ Hin)) as [-> _]. lia.
Qed.

Lemma length_stds_across_time (B T D : nat) (xs : list (list (list R))) :
  has_shape3 B T D xs -> length (stds_across_time D xs) = (B * D)%nat.
Proof.
  intros [HB _]. unfold stds_across_time.
  rewrite (@length_concat_const _ D).
  - now rewrite length_map, HB.
  - apply Forall_forall. intros l Hl. apply in_map_iff in Hl as (ex & <- & _).
    now rewrite length_map, length_seq.
Qed.

Lemma nonempty_of_length {A : Type} (l : list A) (n : nat) :
  length l = n -> (1 <= n)%nat -> l <> [].
Proof. intros <- H. now apply length_nonempty. Qed.

Lemma mean_scale (c : R) (f : R -> R) (l : list R) :
  mean (map (fun x => c * f x) l) = c * mean (map f l).
Proof.
  unfold mean. rewrite !length_map.
  replace (Rsum (map (fun x => c * f x) l)) with (c * Rsum (map f l)).
  - unfold Rdiv. ring.
  - induction l as [|a l IH]; cbn [map].
    + unfold Rsum. cbn. ring.
    + rewrite !Rsum_cons, <- IH. ring.
Qed.

(** C5.  On finite tensors of shape [B, T, D] with at least one example,
    two time steps and one feature, whose vectors all have norm at least
    [1e-12], [je_loss] is the normalized contrastive loss of the
    specification: the mean over all time steps of
    [2 * (1 - cosine similarity)] of the predicted and the target vector,
    plus [0.1 * (|1 - mean std of the normalized predicted vectors across
    time| + |1 - mean std of the normalized target vectors across time|)].
    On the other shapes, where a mean or a standard deviation of the
    formula has nothing to range over, [je_loss] is NaN. *)
Theorem je_loss_formula (B T D : nat) (ps ts : list (list (list R))) :
  has_shape3 B T D ps -> has_shape3 B T D ts ->
  ((1 <= B)%nat -> (2 <= T)%nat -> (1 <= D)%nat ->
   norms_at_least eps_normalize ps -> norms_at_least eps_normalize ts ->
   je_loss (tensor3 B T D ps) (tensor3 B T D ts) = Fin (je_loss_spec D ps ts))
  /\ ((B = 0 \/ T <= 1 \/ D = 0)%nat ->
      je_loss (tensor3 B T D ps) (tensor3 B T D ts) = NaN).
Proof.
  intros Hp Ht. split.
  - intros HB HT HD Hnp Hnt. unfold je_loss. cbv zeta.
    rewrite inner_products_are_cosines by assumption.
    rewrite !normalize_tensor3 by assumption.
    rewrite !std_dim1_tensor3 by (try apply has_shape3_l2_normalize; assumption).
    rewrite !stds_across_time_normalized.
    rewrite map_map.
    rewrite (map_ext (fun c => ssub (Fin 1) (Fin c)) (fun c => Fin (1 - c)))
      by reflexivity.
    rewrite <- (map_map (fun c => 1 - c) Fin).
    rewrite !smean_Fin.
    + cbn [smul ssub sabs sadd lift1 lift2]. f_equal. unfold je_loss_spec.
      rewrite (mean_scale 2 (fun c => 1 - c)). reflexivity.
    + apply nonempty_of_length with (n := (B * D)%nat);
        [apply (length_stds_across_time Ht) | nia].
    + apply nonempty_of_length with (n := (B * D)%nat);
        [apply (length_stds_across_time Hp) | nia].
    + apply nonempty_of_length with (n := (B * T)%nat);
        [rewrite length_map; apply (length_cosine_similarities Hp Ht) | nia].
  - intros Hdeg. unfold je_loss. cbv zeta.
    assert (Hstd : smean (concat (std_dim1 (normalize (tensor3 B T D ps)))) = NaN).
    { destruct Hdeg as [HB | [HT | HD]].
      - destruct Hp as [Hlen _]. rewrite HB in Hlen.
        apply length_zero_iff_nil in Hlen. subst ps. reflexivity.
      - apply smean_all_NaN, std_dim1_short.
        unfold normalize, tensor3. cbn [data3]. destruct Hp as [_ Hp].
        rewrite Forall_forall in Hp. apply Forall_forall. intros ex Hex.
        apply in_map_iff in Hex as (ex1 & <- & Hex).
        apply in_map_iff in Hex as (ex0 & <- & Hex).
        rewrite !length_map. destruct (Hp ex0 Hex) as [-> _]. exact HT.
      - subst D. unfold std_dim1, normalize, tensor3. cbn [shape3 data3 snd seq map].
        replace (concat (map (fun _ : list (list scalar) => @nil scalar)
                             (map (map normalize1) (map (map (map Fin)) ps))))
          with (@nil scalar); [reflexivity|].
        induction (map (map normalize1) (map (map (map Fin)) ps)); cbn; auto. }
    rewrite Hstd. cbn [ssub sabs lift1 lift2 sadd].
    rewrite smul_NaN_r. apply sadd_NaN_r.
Qed.

Lemma norms_at_least_ones : norms_at_least eps_normalize [[[1]; [1]]].
Proof.
  repeat constructor; rewrite norm2_one; unfold eps_normalize; lra.
Qed.

Lemma je_loss_formula_witness :
  has_shape3 1 2 1 [[[1]; [1]]] /\
  norms_at_least eps_normalize [[[1]; [1]]] /\
  je_loss (tensor3 1 2 1 [[[1]; [1]]]) (tensor3 1 2 1 [[[1]; [1]]])
  = Fin (je_loss_spec 1 [[[1]; [1]]] [[[1]; [1]]]).
Proof.
  assert (H : has_shape3 1 2 1 [[[1]; [1]]]) by (split; repeat constructor).
  split; [exact H|]. split; [exact norms_at_least_ones|].
  apply (proj1 (@je_loss_formula 1 2 1 [[[1]; [1]]] [[[1]; [1]]] H H));
    first [lia | exact norms_at_least_ones].
Defined.

(** *** A vector shorter than [1e-12] *)

Lemma norm2_single (a : R) : 0 <= a -> norm2 [a] = a.
Proof.
  intros Ha. unfold norm2, Rsum. cbn.
  replace (a * a + 0) with (a * a) by ring. now apply sqrt_square.
Qed.

Lemma std_pair (a : R) : std [a; a] = 0.
Proof.
  unfold std, variance, mean, Rsum. cbn.
  replace (((a - (a + (a + 0)) / (1 + 1)) * (a - (a + (a + 0)) / (1 + 1)) +
            ((a - (a + (a + 0)) / (1 + 1)) * (a - (a + (a + 0)) / (1 + 1)) + 0)) / 1)
    with 0 by field.
  apply sqrt_0.
Qed.

Lemma tiny_pos : 0 < tiny.
Proof. unfold tiny. lra. Qed.

(** The code divides the vector by [1e-12]: the normalized vector has
    norm [0.1], the inner product is [0.01]. *)
Lemma je_loss_tiny_vectors :
  je_loss (tensor3 1 2 1 tiny_vectors) (tensor3 1 2 1 tiny_vectors)
  = Fin (109 / 50).
Proof.
  pose proof tiny_pos as Ht.
  unfold je_loss, normalize, tensor3, tiny_vectors. cbv zeta.
  cbn [shape3 data3 map].
  change [Fin tiny] with (map Fin [tiny]). rewrite normalize1_clamped.
  rewrite norm2_single by lra.
  rewrite Rmax_left by (unfold tiny, eps_normalize; lra).
  cbn [map]. unfold mul_sum_last, std_dim1.
  cbn [shape3 data3 snd fst combine map seq concat app nth].
  replace (tiny / eps_normalize) with (1 / 10)
    by (unfold tiny, eps_normalize; field).
  change [Fin (1 / 10); Fin (1 / 10)] with (map Fin [1 / 10; 1 / 10]).
  rewrite sstd_Fin by (cbn [length]; lia). rewrite std_pair.
  change [Fin 0] with (map Fin [0]). rewrite smean_Fin by discriminate.
  unfold sdot. cbn [combine map fst snd ssum fold_right smul sadd ssub lift2].
  change [Fin (1 - (1 / 10 * (1 / 10) + 0)); Fin (1 - (1 / 10 * (1 / 10) + 0))]
    with (map Fin [1 - (1 / 10 * (1 / 10) + 0); 1 - (1 / 10 * (1 / 10) + 0)]).
  rewrite smean_Fin by discriminate.
  cbn [smul ssub sabs sadd lift1 lift2]. f_equal.
  unfold mean, Rsum. cbn [fold_right length INR].
  replace (1 - (0 + 0) / 1) with 1 by field.
  rewrite Rabs_R1. field.
Qed.

(** The formula normalizes the vector to norm [1]: the cosine similarity
    of a vector with itself is [1]. *)
Lemma je_loss_spec_tiny_vectors :
  je_loss_spec 1 tiny_vectors tiny_vectors = 1 / 5.
Proof.
  pose proof tiny_pos as Ht.
  assert (Hn : norm2 [tiny] = tiny) by (apply norm2_single; lra).
  unfold je_loss_spec, cosine_similarities, stds_across_time, tiny_vectors.
  cbn [combine map fst snd seq concat app].
  unfold cosine_similarity, l2_normalize. rewrite Hn.
  cbn [map nth]. rewrite std_pair.
  replace (dot [tiny] [tiny] / (tiny * tiny)) with 1
    by (unfold dot, Rsum; cbn; field; lra).
  unfold mean, Rsum. cbn [fold_right length INR map].
  replace (1 - (0 + 0) / 1) with 1 by field.
  rewrite Rabs_R1. field.
Qed.

(** C5, the formula as the specification words it, for all vectors.  A
    vector of norm below [1e-12] is divided by [1e-12], not by its norm:
    on a vector of norm [1e-13] the code returns [2.18], the formula
    [0.2]. *)
Lemma je_loss_tiny_vectors_differ :
  has_shape3 1 2 1 tiny_vectors /\
  je_loss (tensor3 1 2 1 tiny_vectors) (tensor3 1 2 1 tiny_vectors)
  <> Fin (je_loss_spec 1 tiny_vectors tiny_vectors).
Proof.
  split; [split; repeat constructor|].
  rewrite je_loss_tiny_vectors, je_loss_spec_tiny_vectors.
  intros E. injection E as E. lra.
Qed.

(** ** The VICReg loss *)

Lemma column_tensor2 (N D : nat) (xs : list (list R)) (d : nat) :
  has_shape2 N D xs -> (d < D)%nat ->
  column d (tensor2 N D xs) = map Fin (feature d xs).
Proof.
  intros [_ Hxs] Hd. unfold column, tensor2, feature. cbn [data2].
  rewrite !map_map. apply map_ext_in. intros row Hrow.
  apply nth_map_Fin. rewrite Forall_forall in Hxs. rewrite (Hxs row Hrow). exact Hd.
Qed.

Lemma length_feature (d : nat) (xs : list (list R)) :
  length (feature d xs) = length xs.
Proof. unfold feature. apply length_map. Qed.

(** [F.mse_loss] is the mean of the squared differences of the entries. *)
Lemma mse_loss_tensor2 (N D : nat) (xs ys : list (list R)) :
  has_shape2 N D xs -> has_shape2 N D ys -> (1 <= N)%nat -> (1 <= D)%nat ->
  mse_loss (tensor2 N D xs) (tensor2 N D ys) = Fin (invariance xs ys).
Proof.
  intros [HxN Hx] [HyN Hy] HN HD. unfold mse_loss, tensor2, invariance. cbn [data2].
  set (sq := fun ab : R * R => (fst ab - snd ab) * (fst ab - snd ab)).
  transitivity (smean (map Fin (concat (map (fun rows => map sq (combine (fst rows) (snd rows)))
                                            (combine xs ys))))).
  - f_equal. rewrite concat_map. f_equal.
    rewrite (map_combine_maps (map Fin) (map Fin)).
    rewrite map_map. apply map_ext. intros [r s]. cbn [fst snd].
    rewrite (map_combine_maps Fin Fin).
    rewrite map_map. apply map_ext. intros [a b]. reflexivity.
  - apply smean_Fin. apply nonempty_of_length with (n := (N * D)%nat); [|nia].
    rewrite (@length_concat_const _ D).
    + rewrite length_map, length_combine. lia.
    + rewrite Forall_forall in *. intros l Hl.
      apply in_map_iff in Hl as ([r s] & <- & Hin). cbn [fst snd].
      rewrite length_map, length_combine.
      rewrite (Hx r (in_combine_l _ _ _ _ Hin)), (Hy s (in_combine_r _ _ _ _ Hin)). lia.
Qed.

(** The hinge on [sqrt(var + 0.0001)], averaged over the features. *)
Lemma variance_term_tensor2 (N D : nat) (xs : list (list R)) :
  has_shape2 N D xs -> (2 <= N)%nat -> (1 <= D)%nat ->
  smean (map (fun s => srelu (ssub (Fin 1) s)) (std_eps (tensor2 N D xs)))
  = Fin (variance_term D xs).
Proof.
  intros Hx HN HD. unfold std_eps, var_dim0, variance_term.
  replace (snd (shape2 (tensor2 N D xs))) with D by reflexivity.
  rewrite !map_map.
  rewrite (map_ext_in _ (fun d => Fin (hinge (sqrt (variance (feature d xs) + 1 / 10000))))).
  - rewrite <- (map_map (fun d => hinge (sqrt (variance (feature d xs) + 1 / 10000))) Fin).
    apply smean_Fin. apply nonempty_of_length with (n := D); [|exact HD].
    now rewrite length_map, length_seq.
  - intros d Hd. apply in_seq in Hd.
    assert (Hlen : (2 <= length (feature d xs))%nat)
      by (rewrite length_feature; destruct Hx as [-> _]; exact HN).
    rewrite (column_tensor2 Hx) by lia. rewrite svar_Fin by exact Hlen.
    cbn [sadd lift2]. rewrite ssqrt_Fin.
    + reflexivity.
    + pose proof (variance_nonneg _ Hlen). lra.
Qed.

Lemma dot_maps {A : Type} (f g : A -> R) (l : list A) :
  dot (map f l) (map g l) = Rsum (map (fun a => f a * g a) l).
Proof.
  induction l as [|a l IH]; [reflexivity|].
  cbn [map]. rewrite dot_cons, Rsum_cons, IH. reflexivity.
Qed.

(** A column of the centered batch. *)
Lemma column_center_tensor2 (N D : nat) (xs : list (list R)) (d : nat) :
  has_shape2 N D xs -> (1 <= N)%nat -> (d < D)%nat ->
  column d (center (tensor2 N D xs))
  = map Fin (map (fun row => nth d row 0 - mean (feature d xs)) xs).
Proof.
  intros Hx HN Hd.
  rewrite (@column_center N D) by (try apply finite2_tensor2; assumption).
  rewrite (column_tensor2 Hx) by exact Hd.
  rewrite smean_Fin.
  - unfold feature. rewrite !map_map. apply map_ext. reflexivity.
  - apply nonempty_of_length with (n := N); [|exact HN].
    rewrite length_feature. now destruct Hx.
Qed.

Lemma entry_cov (x : Tensor2) (k l : nat) :
  (k < snd (shape2 x))%nat -> (l < snd (shape2 x))%nat ->
  entry (cov x) k l
  = sdiv_count (sdot (column k x) (column l x)) (Z.of_nat (fst (shape2 x)) - 1).
Proof.
  intros Hk Hl. unfold entry, cov. cbv zeta. cbn [data2].
  set (D := snd (shape2 x)) in *.
  rewrite (nth_indep _ [] (map (fun l0 => sdiv_count (sdot (column 0 x) (column l0 x))
                             (Z.of_nat (fst (shape2 x)) - 1)) (seq 0 D)))
    by (rewrite length_map, length_seq; exact Hk).
  rewrite (map_nth (fun k0 => map (fun l0 => sdiv_count (sdot (column k0 x) (column l0 x))
                             (Z.of_nat (fst (shape2 x)) - 1)) (seq 0 D))).
  rewrite seq_nth by exact Hk.
  rewrite (nth_indep _ NaN (sdiv_count (sdot (column (0 + k) x) (column 0 x))
                             (Z.of_nat (fst (shape2 x)) - 1)))
    by (rewrite length_map, length_seq; exact Hl).
  rewrite (map_nth (fun l0 => sdiv_count (sdot (column (0 + k) x) (column l0 x))
                             (Z.of_nat (fst (shape2 x)) - 1))).
  rewrite seq_nth by exact Hl. reflexivity.
Qed.

(** The entries of [(x.T @ x) / (N - 1)] on the centered batch are the
    sample covariances of the features. *)
Lemma entry_cov_tensor2 (N D : nat) (xs : list (list R)) (i j : nat) :
  has_shape2 N D xs -> (2 <= N)%nat -> (i < D)%nat -> (j < D)%nat ->
  entry (cov (center (tensor2 N D xs))) i j = Fin (covariance xs i j).
Proof.
  intros Hx HN Hi Hj.
  rewrite entry_cov by assumption.
  rewrite !(column_center_tensor2 Hx) by lia.
  rewrite sdot_Fin, dot_maps.
  replace (fst (shape2 (center (tensor2 N D xs)))) with N by reflexivity.
  cbn [sdiv_count].
  replace (Z.of_nat N - 1 =? 0)%Z with false by (symmetry; apply Z.eqb_neq; lia).
  unfold covariance. destruct Hx as [-> _].
  now rewrite minus_IZR, <- INR_IZR_INZ.
Qed.

Lemma Rsum_app (l1 l2 : list R) : Rsum (l1 ++ l2) = Rsum l1 + Rsum l2.
Proof.
  induction l1 as [|a l1 IH]; cbn [app].
  - unfold Rsum at 2. cbn. lra.
  - rewrite !Rsum_cons, IH. lra.
Qed.

Lemma Rsum_concat (ls : list (list R)) : Rsum (concat ls) = Rsum (map Rsum ls).
Proof.
  induction ls as [|l ls IH]; [reflexivity|].
  cbn [concat map]. now rewrite Rsum_app, Rsum_cons, IH.
Qed.

(** The sum of the squared off-diagonal entries of the covariance matrix. *)
Lemma covariance_term_tensor2 (N D : nat) (xs : list (list R)) :
  has_shape2 N D xs -> (2 <= N)%nat ->
  ssum (map spow2 (off_diagonal_entries (cov (center (tensor2 N D xs)))))
  = Fin (covariance_term D xs).
Proof.
  intros Hx HN. unfold off_diagonal_entries. cbv zeta.
  replace (fst (shape2 (cov (center (tensor2 N D xs))))) with D by reflexivity.
  set (others := fun i => filter (fun j => negb (j =? i)%nat) (seq 0 D)).
  transitivity (ssum (map Fin (concat (map (fun i => map (fun j => covariance xs i j * covariance xs i j)
                                                         (others i)) (seq 0 D))))).
  - f_equal. rewrite !concat_map. f_equal. rewrite !map_map.
    apply map_ext_in. intros i Hi. apply in_seq in Hi.
    rewrite !map_map. apply map_ext_in. intros j Hj.
    unfold others in Hj. apply filter_In in Hj as [Hj _]. apply in_seq in Hj.
    rewrite (entry_cov_tensor2 Hx) by lia. reflexivity.
  - rewrite ssum_Fin, Rsum_concat, map_map. reflexivity.
Qed.

(** [off_diagonal] accepts every covariance matrix, the empty one too. *)
Lemma off_diagonal_cov_any (x : Tensor2) :
  off_diagonal (cov x) = Some (off_diagonal_entries (cov x)).
Proof.
  destruct (snd (shape2 x)) as [|D] eqn:E.
  - unfold off_diagonal, off_diagonal_entries, cov. cbv zeta. rewrite E. reflexivity.
  - apply off_diagonal_cov. lia.
Qed.

Lemma vicreg_loss_unfold (x y : Tensor2) :
  vicreg_loss x y
  = Some (sadd (sadd (mse_loss x y)
                     (smul (Fin 25)
                        (sadd (smean (map (fun s => srelu (ssub (Fin 1) s)) (std_eps x)))
                              (smean (map (fun s => srelu (ssub (Fin 1) s)) (std_eps y))))))
               (smul (Fin 25)
                  (sadd (ssum (map spow2 (off_diagonal_entries (cov (center x)))))
                        (ssum (map spow2 (off_diagonal_entries (cov (center y)))))))).
Proof.
  unfold vicreg_loss. cbv zeta. now rewrite !off_diagonal_cov_any.
Qed.

Lemma std_eps_degenerate (N D : nat) (xs : list (list R)) :
  has_shape2 N D xs -> (N <= 1 \/ D = 0)%nat ->
  smean (map (fun s => srelu (ssub (Fin 1) s)) (std_eps (tensor2 N D xs))) = NaN.
Proof.
  intros [HxN _] Hdeg. apply smean_all_NaN, Forall_forall. intros v Hv.
  apply in_map_iff in Hv as (s & <- & Hs).
  unfold std_eps in Hs. apply in_map_iff in Hs as (w & <- & Hw).
  destruct Hdeg as [HN | HD].
  - pose proof (@var_dim0_short (tensor2 N D xs)) as Hshort.
    rewrite Forall_forall in Hshort. rewrite (Hshort ltac:(unfold tensor2; cbn [data2]; rewrite length_map; lia) w Hw).
    reflexivity.
  - subst D. destruct Hw.
Qed.

(** C6.  On finite batches of the same shape [N, D] with at least two rows
    and one feature, [vicreg_loss] is [invariance + 25 * variance + 25 *
    covariance]: the invariance is the mean squared difference of the
    entries, the variance is the mean over the features of
    [relu(1 - sqrt(variance of the feature over the batch + 0.0001))],
    summed over both sides, and the covariance is the sum of the squared
    off-diagonal entries of the covariance matrix of the features, whose
    entries are the sums over the batch of the products of the centered
    features divided by [N - 1], summed over both sides.  With fewer than
    two rows or no feature the loss is NaN. *)
Theorem vicreg_loss_formula (N D : nat) (xs ys : list (list R)) :
  has_shape2 N D xs -> has_shape2 N D ys ->
  ((2 <= N)%nat -> (1 <= D)%nat ->
   vicreg_loss (tensor2 N D xs) (tensor2 N D ys)
   = Some (Fin (vicreg_loss_spec D xs ys)))
  /\ ((N <= 1 \/ D = 0)%nat ->
      vicreg_loss (tensor2 N D xs) (tensor2 N D ys) = Some NaN).
Proof.
  intros Hx Hy. rewrite vicreg_loss_unfold. split.
  - intros HN HD.
    rewrite (mse_loss_tensor2 Hx Hy) by lia.
    rewrite (variance_term_tensor2 Hx), (variance_term_tensor2 Hy) by assumption.
    rewrite (covariance_term_tensor2 Hx), (covariance_term_tensor2 Hy) by assumption.
    reflexivity.
  - intros Hdeg. rewrite (std_eps_degenerate Hx Hdeg).
    cbn [sadd smul lift2]. now destruct (mse_loss (tensor2 N D xs) (tensor2 N D ys)).
Qed.

Lemma vicreg_loss_formula_witness :
  has_shape2 2 1 [[0]; [0]] /\
  vicreg_loss (tensor2 2 1 [[0]; [0]]) (tensor2 2 1 [[0]; [0]])
  = Some (Fin (vicreg_loss_spec 1 [[0]; [0]] [[0]; [0]])).
Proof.
  assert (H : has_shape2 2 1 [[0]; [0]]) by (split; repeat constructor).
  split; [exact H|].
  apply (proj1 (@vicreg_loss_formula 2 1 [[0]; [0]] [[0]; [0]] H H)); lia.
Defined.

Lemma vicreg_loss_plain_two_zero_rows :
  vicreg_loss_plain 1 [[0]; [0]] [[0]; [0]] = 50.
Proof.
  assert (Hs : std [0; 0] = 0).
  { unfold std, variance, mean. cbn. unfold Rsum. cbn.
    replace ((0 - (0 + (0 + 0)) / (1 + 1)) * (0 - (0 + (0 + 0)) / (1 + 1)) +
             ((0 - (0 + (0 + 0)) / (1 + 1)) * (0 - (0 + (0 + 0)) / (1 + 1)) + 0))
      with 0 by field.
    replace (0 / 1) with 0 by field. apply sqrt_0. }
  unfold vicreg_loss_plain, invariance, variance_term_plain, covariance_term, feature.
  cbn [seq map nth combine fst snd concat app filter Nat.eqb negb].
  rewrite Hs. unfold hinge, mean, Rsum. cbn.
  rewrite Rmax_right by lra. field.
Qed.

(** C6, the formula as the specification words it.  With the plain
    standard deviation in the variance term the formula gives [50] on two
    identical rows of one feature; the code, which takes
    [sqrt(var + 0.0001)], returns [49.5]. *)
Lemma vicreg_loss_plain_differs :
  vicreg_loss (tensor2 2 1 [[0]; [0]]) (tensor2 2 1 [[0]; [0]])
  <> Some (Fin (vicreg_loss_plain 1 [[0]; [0]] [[0]; [0]])).
Proof.
  change (tensor2 2 1 [[0]; [0]]) with two_zero_rows.
  rewrite vicreg_loss_two_zero_rows, vicreg_loss_plain_two_zero_rows.
  intros E. injection E as E. lra.
Qed.

(** X14.  [vicreg_loss] raises on no pair of batches of the same shape,
    whatever the number of rows and of features: the covariance matrices
    are square, and [off_diagonal] accepts every square matrix, the empty
    one too. *)
Theorem vicreg_loss_never_raises (x y : Tensor2) :
  shape2 x = shape2 y -> matrix_valid x -> matrix_valid y ->
  exists loss, vicreg_loss x y = Some loss.
Proof.
  intros _ _ _. rewrite vicreg_loss_unfold. eexists. reflexivity.
Qed.

Lemma vicreg_loss_never_raises_witness :
  matrix_valid (mkTensor2 (0, 0)%nat []) /\
  (exists loss,
     vicreg_loss (mkTensor2 (0, 0)%nat []) (mkTensor2 (0, 0)%nat []) = Some loss).
Proof.
  assert (H : matrix_valid (mkTensor2 (0, 0)%nat [])) by (split; constructor).
  split; [exact H|].
  exact (@vicreg_loss_never_raises (mkTensor2 (0, 0)%nat []) (mkTensor2 (0, 0)%nat [])
           eq_refl H H).
Defined.
